(** * Cards Against Humanity rules engine: the models of [game/models.py]

    A shallow embedding of the Django models [Deque], [Queue], [Round],
    [Turn], [Game] and [Player] and of the methods that drive a game, with
    the properties of the engine stated and proved (or refuted) on them.

    Conventions of the embedding.
    - Python integers are [Z]; lists are [list]; [None]-able values are
      [option].  A [collections.Counter] is a [gmap Z Z].  A value whose
      Python type depends on the caller is a sum ([PyValue], [PyId]).
    - A method is a computation in the monad [M S]: it threads the mutable
      object(s) [S] it works on and ends with a value, an exception, or the
      exhaustion of the recursion budget.  The state is kept when an
      exception is raised: this is the in-memory object as Python leaves it.
    - [random] is a stream of raw draws, consumed from the head;
      [datetime.now()] is a parameter [now] of the operation that reads it.
      Instants are counted in microseconds, as [datetime] does. *)

From stdpp Require Import gmap strings list fin_maps.
From Stdlib Require Import ZArith Lia.

Open Scope Z_scope.

(** ** Exceptions ([game/errors.py], plus those of the runtime and the ORM) *)

Inductive Exn : Type :=
  | GameIsFullError
  | GameFinishedError
  | GameNotStartedError
  | NotEnoughPlayersError
  | PlayerNotInGameError
  | PermissionDeniedError
  | NotEnoughCardsError
  | CardNotInDequeError
  | CardDoesNotExistError
  | CardIsNotOnTableError
  | PlayerDoesNotHaveCardError
  | PlayerHasAlreadyPlayed
  (* not subclasses of CAHError: raised by Python or by Django *)
  | AttributeError
  | TypeError
  | ValueError
  | IndexError
  | DoesNotExist
  | MultipleObjectsReturned.

#[export] Instance Exn_eq_dec : EqDecision Exn.
Proof. solve_decision. Defined.

(** ** Outcomes and the state-and-exception monad *)

Inductive Res (A : Type) : Type :=
  | Ret (a : A)          (* normal return *)
  | Raise (e : Exn)      (* an exception propagates *)
  | Overflow.            (* recursion deeper than the budget (RecursionError) *)
Arguments Ret {A} a.
Arguments Raise {A} e.
Arguments Overflow {A}.

Definition M (S A : Type) : Type := S -> S * Res A.

#[export] Instance M_ret {S} : MRet (M S) := fun A a s => (s, Ret a).

#[export] Instance M_bind {S} : MBind (M S) := fun A B k m s =>
  match m s with
  | (s', Ret a) => k a s'
  | (s', Raise e) => (s', Raise e)
  | (s', Overflow) => (s', Overflow)
  end.

Definition get {S} : M S S := fun s => (s, Ret s).
Definition put {S} (s : S) : M S unit := fun _ => (s, Ret tt).
Definition raise {S A} (e : Exn) : M S A := fun s => (s, Raise e).
Definition overflow {S A} : M S A := fun s => (s, Overflow).

(** Run a computation on a component of the state, seen through a getter
    and a setter. *)
Definition zoom {S T A} (proj : S -> T) (inj : T -> S -> S) (m : M T A) : M S A :=
  fun s => let '(t, r) := m (proj s) in (inj t s, r).

(** [for x in l: body(x)] *)
Fixpoint for_each {S A} (l : list A) (body : A -> M S unit) : M S unit :=
  match l with
  | [] => mret tt
  | x :: l' => body x;; for_each l' body
  end.

(** ** Python helpers *)

Definition len {A} (l : list A) : Z := Z.of_nat (length l).

(** A Python value that is either an integer or a list of integers, for the
    results whose dynamic type the callers depend on. *)
Inductive PyValue : Type :=
  | PyInt (n : Z)
  | PyList (l : list Z).

(** [value[0]] *)
Definition subscript0 {S} (value : PyValue) : M S Z :=
  match value with
  | PyList (x :: _) => mret x
  | PyList [] => raise IndexError
  | PyInt _ => raise TypeError     (* 'int' object is not subscriptable *)
  end.

(** A value received as an id.  The callers do not agree on its type: the
    tests hand over [game.id], an int; the view hands over
    [request.GET.get('id')], the str of the query string. *)
Inductive PyId : Type :=
  | IdInt (n : Z)
  | IdStr (s : string).

(** [x == value] for an int [x]: an int is equal to no str. *)
Definition int_eq (x : Z) (value : PyId) : bool :=
  match value with
  | IdInt n => bool_decide (x = n)
  | IdStr _ => false
  end.

(** The start of a slice [l[n:]] or the end of a slice [l[:n]], as an offset
    into [l]: a negative bound counts from the end, and is clamped at 0. *)
Definition slice_bound {A} (l : list A) (n : Z) : nat :=
  Z.to_nat (if decide (n < 0) then Z.max 0 (len l + n) else n).

Definition slice_to {A} (n : Z) (l : list A) : list A := take (slice_bound l n) l.
Definition slice_from {A} (n : Z) (l : list A) : list A := drop (slice_bound l n) l.

(** [collections.Counter(iterable)]: every element in turn raises its
    count, [self[elem] = self.get(elem, 0) + 1]. *)
Definition count_elem (c : gmap Z Z) (elem : Z) : gmap Z Z :=
  <[elem := default 0 (c !! elem) + 1]> c.

Definition Counter (l : list Z) : gmap Z Z := foldl count_elem ∅ l.

(** ** The random source *)

Definition Rng : Type := list nat.

(** [random._randbelow(n)]: the next raw draw, reduced below [n]. *)
Definition randbelow (n : nat) : M Rng nat := fun rng =>
  match rng with
  | [] => ([], Ret 0%nat)
  | r :: rng' => (rng', Ret (r mod n)%nat)
  end.

(** [x[i], x[j] = x[j], x[i]] *)
Definition swap (i j : nat) (x : list Z) : list Z :=
  match x !! i, x !! j with
  | Some xi, Some xj => <[j := xi]> (<[i := xj]> x)
  | _, _ => x
  end.

(** [random.shuffle(x)]: for i from len(x)-1 down to 1, swap x[i] with
    x[randbelow(i+1)].  [shuffle_from i x] runs the loop from index [i]. *)
Fixpoint shuffle_from (i : nat) (x : list Z) : M Rng (list Z) :=
  match i with
  | O => mret x
  | S i' => j ← randbelow (S i); shuffle_from i' (swap i j x)
  end.

Definition random_shuffle (x : list Z) : M Rng (list Z) :=
  shuffle_from (length x - 1)%nat x.

(** ** Deque: a card pool drawn without replacement *)

Module Deque.

Record t : Type := mk { cards : list Z; deque : list Z; size : Z }.

(** [Deque.objects.create()] *)
Definition create : t := mk [] [] 0.

(** The state of the methods that shuffle: the object and the random
    source. *)
Definition St : Type := (t * Rng)%type.

Definition on_self {A} (m : M t A) : M St A :=
  zoom fst (fun d s => (d, s.2)) m.
Definition on_rng {A} (m : M Rng A) : M St A :=
  zoom snd (fun r s => (s.1, r)) m.

Definition _set_deque (l : list Z) : M t unit :=
  self ← get; put (mk (cards self) l (size self)).

Definition _set_cards (l : list Z) : M t unit :=
  self ← get; put (mk l (deque self) (size self)).

Definition _set_size (n : Z) : M t unit :=
  self ← get; put (mk (cards self) (deque self) n).

(** The local function [try_pop] of [_remove_cards]; the counter is
    mutated in place, so the new counter is returned with the answer. *)
Definition try_pop (counter : gmap Z Z) (element : Z) : bool * gmap Z Z :=
  match counter !! element with
  | None => (false, counter)
  | Some k =>
      if decide (k - 1 = 0)
      then (true, delete element (<[element := k - 1]> counter))
      else (true, <[element := k - 1]> counter)
  end.

(** [[card for card in current_cards if not try_pop(counter, card)]],
    with the counter as the comprehension leaves it. *)
Fixpoint keep_unpopped (counter : gmap Z Z) (current_cards : list Z)
  : list Z * gmap Z Z :=
  match current_cards with
  | [] => ([], counter)
  | card :: rest =>
      let '(popped, counter) := try_pop counter card in
      let '(kept, counter) := keep_unpopped counter rest in
      (if popped then kept else card :: kept, counter)
  end.

Definition _remove_cards (cards_to_remove : list Z) : M t unit :=
  let cards_to_remove := Counter cards_to_remove in
  self ← get;
  let current_cards := cards self in
  let num_cards_to_remove := Z.of_nat (base.size cards_to_remove) in
  let '(new_cards, cards_to_remove) := keep_unpopped cards_to_remove current_cards in
  if decide (Z.of_nat (base.size cards_to_remove) ≠ 0) then raise CardNotInDequeError
  else
    _set_size (size self - num_cards_to_remove);;
    _set_cards new_cards.

Definition add_cards (new_cards : list Z) : M t unit :=
  self ← get;
  _set_size (size self + len new_cards);;
  self ← get;
  _set_cards (cards self ++ new_cards).

Definition shuffle : M St unit :=
  self ← on_self get;
  new_deque ← on_rng (random_shuffle (cards self));
  on_self (_set_deque new_deque).

Fixpoint draw_cards (fuel : nat) (num_cards : Z) : M St (list Z) :=
  match fuel with
  | O => overflow
  | S fuel =>
      self ← on_self get;
      if decide (num_cards > size self) then raise NotEnoughCardsError
      else
        let deque := deque self in
        if decide (len deque > num_cards) then
          let drawn_cards := slice_to num_cards deque in
          on_self (_remove_cards drawn_cards);;
          on_self (_set_deque (slice_from num_cards deque));;
          mret drawn_cards
        else
          let drawn_cards := deque in
          on_self (_remove_cards drawn_cards);;
          shuffle;;
          if decide (len drawn_cards < num_cards) then
            more ← draw_cards fuel (num_cards - len drawn_cards);
            mret (drawn_cards ++ more)
          else mret drawn_cards
  end.

(** [return self.draw_cards(1)]: the list that [draw_cards] built is
    handed on as it is. *)
Definition draw_single_card (fuel : nat) : M St PyValue :=
  drawn_cards ← draw_cards fuel 1;
  mret (PyList drawn_cards).

End Deque.

(** ** Queue: the rotation of player ids *)

Module Queue.

Record t : Type := mk { items : list Z }.

(** [Queue.objects.create()] *)
Definition create : t := mk [].

Definition _set_items (l : list Z) : M t unit := put (mk l).

Definition add_item (item : Z) : M t unit :=
  self ← get;
  _set_items (items self ++ [item]).

Definition pop_item : M t (option Z) :=
  self ← get;
  match items self with
  | [] => mret None
  | popped_item :: rest => _set_items rest;; mret (Some popped_item)
  end.

Definition remove_item (item : Z) : M t unit :=
  self ← get;
  _set_items (filter (fun i => i ≠ item) (items self)).

End Queue.

(** ** Rows of the other tables *)

Module Card.
(** [text] and [pick] are never read by the engine and are left out. *)
Record t : Type := mk { id : Z; is_black : bool }.
End Card.

Module Player.
(** A [Hand] row is owned by one player: it is stored with the player, as
    the set of the ids of its cards (a many-to-many relation holds a card
    at most once).  [name] is never read by the engine. *)
Record t : Type := mk {
  id : Z;
  auth_token : string;
  current_game : option Z;
  current_hand : option (gset Z);
  score : option Z
}.

Definition set_current_game (g : option Z) (p : t) : t :=
  mk (id p) (auth_token p) g (current_hand p) (score p).
Definition set_current_hand (h : option (gset Z)) (p : t) : t :=
  mk (id p) (auth_token p) (current_game p) h (score p).
Definition set_score (n : option Z) (p : t) : t :=
  mk (id p) (auth_token p) (current_game p) (current_hand p) n.
End Player.

Module Turn.
Record t : Type := mk { round : Z; player : Z; card : option Z }.
End Turn.

(** ** The database seen by a game, and the queries of the ORM *)

Module Db.

Record t : Type := mk {
  players : list Player.t;      (* in primary-key order *)
  turns : list Turn.t;
  card_table : list Card.t;
  next_round_id : Z;
  rng : Rng
}.

Definition set_players (l : list Player.t) (d : t) : t :=
  mk l (turns d) (card_table d) (next_round_id d) (rng d).
Definition set_turns (l : list Turn.t) (d : t) : t :=
  mk (players d) l (card_table d) (next_round_id d) (rng d).
Definition set_next_round_id (n : Z) (d : t) : t :=
  mk (players d) (turns d) (card_table d) n (rng d).
Definition set_rng (r : Rng) (d : t) : t :=
  mk (players d) (turns d) (card_table d) (next_round_id d) r.

(** [player.save()]: the row with this primary key is overwritten. *)
Definition save_player (p : Player.t) (d : t) : t :=
  set_players
    (map (fun q => if decide (Player.id q = Player.id p) then p else q) (players d))
    d.

End Db.

(** [queryset.get()] *)
Definition orm_get {S A} (rows : list A) : M S A :=
  match rows with
  | [] => raise DoesNotExist
  | [row] => mret row
  | _ :: _ :: _ => raise MultipleObjectsReturned
  end.

(** [timedelta(seconds=s)], in microseconds. *)
Definition seconds (s : Z) : Z := s * 1000000.

(** ** Round *)

Module Round.

Inductive State : Type := PLAY | PICK | WAITING_FINISH | FINISHED.

(** The values of the [IntEnum]. *)
Definition value (s : State) : Z :=
  match s with PLAY => 1 | PICK => 2 | WAITING_FINISH => 3 | FINISHED => 4 end.

#[global] Instance State_eq_dec : EqDecision State.
Proof. solve_decision. Defined.

Record t : Type := mk {
  id : Z;
  game : Z;
  card_czar : Z;
  black_card : Z;
  play_finish : Z;
  pick_finish : Z;
  round_finish : Z
}.

Definition set_play_finish (x : Z) (r : t) : t :=
  mk (id r) (game r) (card_czar r) (black_card r) x (pick_finish r) (round_finish r).
Definition set_pick_finish (x : Z) (r : t) : t :=
  mk (id r) (game r) (card_czar r) (black_card r) (play_finish r) x (round_finish r).
Definition set_round_finish (x : Z) (r : t) : t :=
  mk (id r) (game r) (card_czar r) (black_card r) (play_finish r) (pick_finish r) x.

(** [get_state(asof=None)]; [now] is what [datetime.now()] returns. *)
Definition get_state (now : Z) (asof : option Z) (self : t) : State :=
  let asof := match asof with None => now | Some a => a end in
  if decide (asof <= play_finish self) then PLAY
  else if decide (asof <= pick_finish self) then PICK
  else if decide (asof <= round_finish self) then WAITING_FINISH
  else FINISHED.

(** [self.turn_set.all()] *)
Definition turn_set (self : t) (turns : list Turn.t) : list Turn.t :=
  filter (fun tn => Turn.round tn = id self) turns.

Definition play_card (self : t) (player card : Z) : M (list Turn.t) unit :=
  turns ← get;
  if decide (len (filter (fun tn => Turn.player tn = player) (turn_set self turns)) > 0)
  then raise PlayerHasAlreadyPlayed
  else put (turns ++ [Turn.mk (id self) player (Some card)]).

(** [self.turn_set.remove(player_turn, bulk=False)].  Django gives the
    reverse manager of a foreign key the methods [remove] and [clear] only
    when the key is nullable; [Turn.round] is declared without
    [null=True], so looking [remove] up on [turn_set] fails. *)
Definition turn_set_remove (self : t) (player_turn : Turn.t) : M (list Turn.t) unit :=
  raise AttributeError.

Definition remove_player (self : t) (player : Z) : M (list Turn.t) unit :=
  turns ← get;
  let player_turn := filter (fun tn => Turn.player tn = player) (turn_set self turns) in
  if decide (len player_turn = 0) then mret tt
  else
    player_turn ← orm_get player_turn;
    turn_set_remove self player_turn
    (* player_turn.save() writes the row back unchanged *).

End Round.

(** ** Game *)

Module Game.

Definition MIN_PLAYERS : Z := 3.
Definition MAX_PLAYERS : Z := 10.
Definition HAND_SIZE : Z := 10.
Definition PLAY_PHASE_LENGTH_SECONDS : Z := 300.
Definition PICK_PHASE_LENGTH_SECONDS : Z := 300.
Definition FINISH_DELAY_SECONDS : Z := 1.
Definition WINNER_SCORE : Z := 3.

Inductive Status : Type := CREATED | STARTED | FINISHED.

#[global] Instance Status_eq_dec : EqDecision Status.
Proof. solve_decision. Defined.

(** The rows that only this game refers to (its round, its two deques and
    its queue) are stored with it; a nullable foreign key is an option. *)
Record t : Type := mk {
  id : Z;
  status : Status;
  host : option Z;
  current_round : option Round.t;
  black_deque : option Deque.t;
  white_deque : option Deque.t;
  player_queue : option Queue.t
}.

Definition set_status (x : Status) (g : t) : t :=
  mk (id g) x (host g) (current_round g) (black_deque g) (white_deque g) (player_queue g).
Definition set_host (x : option Z) (g : t) : t :=
  mk (id g) (status g) x (current_round g) (black_deque g) (white_deque g) (player_queue g).
Definition set_current_round (x : option Round.t) (g : t) : t :=
  mk (id g) (status g) (host g) x (black_deque g) (white_deque g) (player_queue g).
Definition set_black_deque (x : option Deque.t) (g : t) : t :=
  mk (id g) (status g) (host g) (current_round g) x (white_deque g) (player_queue g).
Definition set_white_deque (x : option Deque.t) (g : t) : t :=
  mk (id g) (status g) (host g) (current_round g) (black_deque g) x (player_queue g).
Definition set_player_queue (x : option Queue.t) (g : t) : t :=
  mk (id g) (status g) (host g) (current_round g) (black_deque g) (white_deque g) x.

(** [Game.objects.create(host=player)] *)
Definition create (new_id : Z) (host : Z) : t :=
  mk new_id CREATED (Some host) None None None None.

(** The state of a method of [Game]: the object [self] and the database. *)
Definition St : Type := (t * Db.t)%type.

Definition self : M St t := s ← get; mret s.1.
Definition db : M St Db.t := s ← get; mret s.2.
Definition modify_self (f : t -> t) : M St unit := s ← get; put (f s.1, s.2).
Definition modify_db (f : Db.t -> Db.t) : M St unit := s ← get; put (s.1, f s.2).

(** A method call on a related object reached through a nullable field of
    [self]; on [None] the attribute lookup fails. *)
Definition on_field {T A} (field : t -> option T) (set_field : option T -> t -> t)
    (m : M T A) : M St A :=
  g ← self;
  match field g with
  | None => raise AttributeError
  | Some obj => zoom (fun _ => obj) (fun obj' s => (set_field (Some obj') s.1, s.2)) m
  end.

Definition on_player_queue {A} (m : M Queue.t A) : M St A :=
  on_field player_queue set_player_queue m.

(** Deque methods also use the random source, which is kept in [Db.t]. *)
Definition on_deque {A} (field : t -> option Deque.t)
    (set_field : option Deque.t -> t -> t) (m : M Deque.St A) : M St A :=
  g ← self;
  match field g with
  | None => raise AttributeError
  | Some obj =>
      zoom (fun s => (obj, Db.rng s.2))
           (fun o s => (set_field (Some o.1) s.1, Db.set_rng o.2 s.2)) m
  end.

Definition on_turns {A} (m : M (list Turn.t) A) : M St A :=
  zoom (fun s => Db.turns s.2) (fun tn s => (s.1, Db.set_turns tn s.2)) m.

(** [self.player_set.all()] *)
Definition player_set (g : t) (d : Db.t) : list Player.t :=
  filter (fun p => Player.current_game p = Some (id g)) (Db.players d).

(** The row of a player object handed to a method. *)
Definition load_player (player : Z) : M St Player.t :=
  d ← db; orm_get (filter (fun p => Player.id p = player) (Db.players d)).

Definition _get_winner : M St (option Player.t) :=
  g ← self; d ← db;
  let winner := filter (fun p => Player.score p = Some WINNER_SCORE) (player_set g d) in
  if decide (len winner = 0) then mret None
  else p ← orm_get winner; mret (Some p).

Definition _repick_host : M St unit :=
  g ← self; d ← db;
  modify_self (set_host (Player.id <$> head (player_set g d))).

Definition _deal_cards_to_player (fuel : nat) (player : Z) : M St unit :=
  p ← load_player player;
  (if decide (Player.current_hand p = None)
   then modify_db (Db.save_player (Player.set_current_hand (Some ∅) p))
   else mret tt);;
  p ← load_player player;
  let hand := default ∅ (Player.current_hand p) in
  let num_cards_in_hand := Z.of_nat (base.size hand) in
  let num_cards_to_deal := HAND_SIZE - num_cards_in_hand in
  if decide (num_cards_to_deal = 0) then mret tt
  else
    new_card_ids ← on_deque white_deque set_white_deque
                     (Deque.draw_cards fuel num_cards_to_deal);
    d ← db;
    let found := filter (fun c => c ∈ new_card_ids) (map Card.id (Db.card_table d)) in
    modify_db (Db.save_player
                 (Player.set_current_hand (Some (hand ∪ list_to_set found)) p)).

Definition _deal_cards (fuel : nat) : M St unit :=
  g ← self; d ← db;
  for_each (player_set g d) (fun p => _deal_cards_to_player fuel (Player.id p)).

Definition _draw_black_card (fuel : nat) : M St Z :=
  drawn ← on_deque black_deque set_black_deque (Deque.draw_single_card fuel);
  card_id ← subscript0 drawn;
  d ← db;
  c ← orm_get (filter (fun c => Card.id c = card_id) (Db.card_table d));
  mret (Card.id c).

Definition _start_new_round (fuel : nat) (now : Z) : M St unit :=
  g ← self;
  if decide (status g = FINISHED) then raise GameFinishedError
  else
    (if decide (status g = CREATED) then modify_self (set_status STARTED)
     else mret tt);;
    let play_finish := now + seconds PLAY_PHASE_LENGTH_SECONDS in
    let pick_finish := play_finish + seconds PICK_PHASE_LENGTH_SECONDS in
    let round_finish := pick_finish + seconds FINISH_DELAY_SECONDS in
    card_czar_id ← on_player_queue Queue.pop_item;
    match card_czar_id with
    | None => raise DoesNotExist   (* filter(id=None) selects no row *)
    | Some czar_id =>
        g ← self; d ← db;
        card_czar ← orm_get (filter (fun p => Player.id p = czar_id) (player_set g d));
        on_player_queue (Queue.add_item czar_id);;
        black_card ← _draw_black_card fuel;
        g ← self; d ← db;
        let new_round :=
          Round.mk (Db.next_round_id d) (id g) (Player.id card_czar) black_card
                   play_finish pick_finish round_finish in
        modify_db (Db.set_next_round_id (Db.next_round_id d + 1));;
        modify_self (set_current_round (Some new_round));;
        _deal_cards fuel
    end.

Definition _update_state (fuel : nat) (now : Z) : M St unit :=
  g ← self;
  (if decide (player_queue g = None)
   then modify_self (set_player_queue (Some Queue.create))
   else mret tt);;
  g ← self;
  finished ←
    match current_round g return M St bool with
    | Some r =>
        if decide (status g = STARTED ∧ Round.get_state now None r = Round.FINISHED)
        then
          winner ← _get_winner;
          match winner with
          | Some _ => modify_self (set_status FINISHED);; mret true
          | None => _start_new_round fuel now;; mret false
          end
        else mret false
    | None => mret false
    end;
  if (finished : bool) then mret tt
  else
    g ← self; d ← db;
    (if decide (black_deque g = None) then
       let black_cards := map Card.id (filter (fun c => Card.is_black c = true) (Db.card_table d)) in
       modify_self (set_black_deque (Some Deque.create));;
       on_deque black_deque set_black_deque
         (Deque.on_self (Deque.add_cards black_cards);; Deque.shuffle)
     else mret tt);;
    g ← self; d ← db;
    (if decide (white_deque g = None) then
       let white_cards := map Card.id (filter (fun c => Card.is_black c = false) (Db.card_table d)) in
       modify_self (set_white_deque (Some Deque.create));;
       on_deque white_deque set_white_deque
         (Deque.on_self (Deque.add_cards white_cards);; Deque.shuffle)
     else mret tt).

(** [round.save()] after a change of the round object held in
    [self.current_round]. *)
Definition modify_round (f : Round.t -> Round.t) : M St unit :=
  modify_self (fun g => set_current_round (f <$> current_round g) g).

Definition current_round_or_fail : M St Round.t :=
  g ← self;
  match current_round g with
  | None => raise AttributeError
  | Some r => mret r
  end.

Definition _pick_card (card : Z) (asof : Z) : M St unit :=
  round ← current_round_or_fail;
  g ← self; d ← db;
  let turn := filter (fun tn => Turn.card tn = Some card) (Round.turn_set round (Db.turns d)) in
  if decide (len turn = 0) then raise CardIsNotOnTableError
  else
    turn ← orm_get turn;
    turn_player ← load_player (Turn.player turn);
    turn_player ←
      (if decide (Player.current_game turn_player = Some (id g)) then
         match Player.score turn_player with
         | None => raise TypeError
         | Some n => mret (Player.set_score (Some (n + 1)) turn_player)
         end
       else mret turn_player);
    modify_round (fun r =>
      Round.set_round_finish (asof + seconds FINISH_DELAY_SECONDS)
        (Round.set_pick_finish asof r));;
    modify_db (Db.save_player turn_player).

Definition _play_card (player card : Z) (asof : Z) : M St unit :=
  p ← load_player player;
  if decide (Player.current_hand p = None ∨
             card ∉ default ∅ (Player.current_hand p))
  then raise PlayerDoesNotHaveCardError
  else
    round ← current_round_or_fail;
    on_turns (Round.play_card round player card);;
    g ← self; d ← db;
    (if decide (len (Round.turn_set round (Db.turns d)) + 1 = len (player_set g d)) then
       modify_round (fun r =>
         Round.set_round_finish (asof + seconds FINISH_DELAY_SECONDS)
           (Round.set_pick_finish (asof + seconds PICK_PHASE_LENGTH_SECONDS)
              (Round.set_play_finish asof r)))
     else mret tt).

Definition start_by (fuel : nat) (now : Z) (player : Z) : M St unit :=
  _update_state fuel now;;
  g ← self; d ← db;
  if decide (status g = FINISHED) then raise GameFinishedError
  else if decide (host g ≠ Some player) then raise PermissionDeniedError
  else if decide (len (player_set g d) < MIN_PLAYERS) then raise NotEnoughPlayersError
  else _start_new_round fuel now.

Definition play_card (fuel : nat) (now : Z) (player card : Z) (asof : Z) : M St unit :=
  _update_state fuel now;;
  g ← self;
  if decide (status g = FINISHED) then raise GameFinishedError
  else if decide (status g = CREATED) then raise GameNotStartedError
  else
    round ← current_round_or_fail;
    let round_state := Round.get_state now (Some asof) round in
    if decide (player = Round.card_czar round) then
      if decide (round_state ≠ Round.PICK) then raise PermissionDeniedError
      else _pick_card card asof
    else
      if decide (round_state ≠ Round.PLAY) then raise PermissionDeniedError
      else _play_card player card asof.

Definition add_player (fuel : nat) (now : Z) (player : Z) : M St unit :=
  _update_state fuel now;;
  g ← self; d ← db;
  if decide (status g = FINISHED) then raise GameFinishedError
  else if decide (len (player_set g d) = MAX_PLAYERS) then raise GameIsFullError
  else
    on_player_queue (Queue.add_item player);;
    p ← load_player player;
    modify_db (Db.save_player (Player.set_current_game (Some (id g)) p));;
    _deal_cards_to_player fuel player;;
    p ← load_player player;
    modify_db (Db.save_player (Player.set_score (Some 0) p)).

Definition remove_player (fuel : nat) (now : Z) (player : Z) : M St unit :=
  _update_state fuel now;;
  on_player_queue (Queue.remove_item player);;
  p ← load_player player;
  modify_db (Db.save_player
    (Player.set_score None (Player.set_current_hand None (Player.set_current_game None p))));;
  g ← self; d ← db;
  if decide (len (player_set g d) = 0) then
    modify_self (set_host None);;
    modify_self (set_status FINISHED);;
    modify_self (set_current_round None)
  else
    (if decide (Some player = host g) then _repick_host else mret tt);;
    g ← self;
    match current_round g with
    | None => mret tt
    | Some round =>
        if decide (player = Round.card_czar round ∧
                   Round.value (Round.get_state now None round) <= Round.value Round.PICK)
        then _start_new_round fuel now
        else on_turns (Round.remove_player round player)
    end.

End Game.

(** ** The entry points of [Player] *)

Module World.
(** The whole database: the tables a game sees, and the games. *)
Record t : Type := mk { db : Db.t; games : gmap Z Game.t }.
End World.

Module PlayerOps.

(** [with transaction.atomic(): ...]: when the block is left by an
    exception the database is as before the block; the random source is
    not part of it. *)
Definition atomic {A} (m : M World.t A) : M World.t A := fun w =>
  match m w with
  | (w', Ret a) => (w', Ret a)
  | (w', r) => (World.mk (Db.set_rng (Db.rng (World.db w')) (World.db w)) (World.games w), r)
  end.

Definition get_player_by_token (token : string) : M World.t Player.t :=
  w ← get;
  orm_get (filter (fun p => Player.auth_token p = token) (Db.players (World.db w))).

(** [Game.objects.get(pk=game_id)], and the object behind
    [player.current_game]. *)
Definition load_game (game_id : Z) : M World.t Game.t :=
  w ← get;
  match World.games w !! game_id with
  | None => raise DoesNotExist
  | Some game => mret game
  end.

(** A method call on a game object; the object comes back as the method
    left it. *)
Definition call {A} (game : Game.t) (m : M Game.St A) : M World.t (Game.t * A) := fun w =>
  match m (game, World.db w) with
  | ((game', d'), Ret a) => (World.mk d' (World.games w), Ret (game', a))
  | ((_, d'), Raise e) => (World.mk d' (World.games w), Raise e)
  | ((_, d'), Overflow) => (World.mk d' (World.games w), Overflow)
  end.

(** [game.save()] *)
Definition save_game (game : Game.t) : M World.t unit :=
  w ← get;
  put (World.mk (World.db w) (<[Game.id game := game]> (World.games w))).

Definition leave_current_game (fuel : nat) (now : Z) (self : Player.t) : M World.t unit :=
  match Player.current_game self with
  | None => mret tt
  | Some game_id =>
      game ← load_game game_id;
      r ← call game (Game.remove_player fuel now (Player.id self));
      save_game r.1
  end.

Section Lookup.

(** Python's [int(s)] on a str, with which Django turns the value of a
    [pk] lookup into a key; [None] stands for its [ValueError].  Its
    grammar plays no part here, so it is left open. *)
Context (int_of_str : string -> option Z).

(** The key that a lookup [pk=value] asks for. *)
Definition to_pk (value : PyId) : option Z :=
  match value with
  | IdInt n => Some n
  | IdStr s => int_of_str s
  end.

(** [Game.objects.select_for_update().get(pk=game_id)] *)
Definition get_game_by_pk (game_id : PyId) : M World.t Game.t :=
  match to_pk game_id with
  | Some n => load_game n
  | None => raise ValueError
  end.

Definition join_game (fuel : nat) (now : Z) (auth_token : string) (game_id : PyId)
  : M World.t unit :=
  atomic (
    player ← get_player_by_token auth_token;
    if match Player.current_game player with
       | Some current_game_id => int_eq current_game_id game_id
       | None => false
       end
    then mret tt
    else
      leave_current_game fuel now player;;
      game ← get_game_by_pk game_id;
      r ← call game (Game.add_player fuel now (Player.id player));
      save_game r.1
      (* player.save() writes back the row as the two calls left it *)).

End Lookup.

Definition leave_game (fuel : nat) (now : Z) (auth_token : string) : M World.t unit :=
  atomic (
    player ← get_player_by_token auth_token;
    if decide (Player.current_game player = None) then raise PlayerNotInGameError
    else leave_current_game fuel now player).

End PlayerOps.

(** ** Vocabulary of the statements *)

(** The number of occurrences of [x] in [l]. *)
Definition occ (x : Z) (l : list Z) : Z := Z.of_nat (count_occ Z.eq_dec l x).

(** The count a counter holds for [x] ([counter[x]], 0 when [x] is no key). *)
Definition cval (c : gmap Z Z) (x : Z) : Z := default 0 (c !! x).

(** A counter built by [Counter] and [try_pop] never holds a key with a
    count of 0 or less. *)
Definition positive_counter (c : gmap Z Z) : Prop :=
  forall x k, c !! x = Some k -> 0 < k.

(** [len(Counter(l))] is the number of distinct values of [l]. *)
Definition distinct (l : list Z) : Z := Z.of_nat (base.size (Counter l)).

(** Multiset inclusion of lists of card ids. *)
Definition msub (l k : list Z) : Prop := forall x, occ x l <= occ x k.

(** What a successful [draw_cards(n)] leaves behind, on a pool that holds
    at least [n] cards. *)
Definition drawn_ok (n : Z) (d d' : Deque.t) (drawn : list Z) : Prop :=
  len drawn = n /\
  Deque.cards d ≡ₚ drawn ++ Deque.cards d' /\
  msub (Deque.deque d') (Deque.cards d') /\
  Deque.size d - n <= Deque.size d' <= Deque.size d /\
  (NoDup (Deque.cards d) -> Deque.size d' = Deque.size d - n).

(** The removal that the specification words describe for [Queue.remove]:
    only the first item equal to [item] goes. *)
Fixpoint spec_remove_first (item : Z) (items : list Z) : list Z :=
  match items with
  | [] => []
  | i :: rest => if decide (i = item) then rest else i :: spec_remove_first item rest
  end.

(** [m] relates the state it starts from to the state it ends in by [R],
    whatever its outcome. *)
Definition preserves {S A} (R : relation S) (m : M S A) : Prop :=
  forall s s' r, m s = (s', r) -> R s s'.

(** The Turn table is the same in both states. *)
Definition same_turns (s s' : Game.St) : Prop := Db.turns s'.2 = Db.turns s.2.

(** The scenario of the examples: game 1, started, with four seated
    players holding ten cards each; player 1 is host and czar of round 1. *)
Definition ex_hand (first : Z) : gset Z := list_to_set (seqZ first 10).
Definition ex_player (id : Z) (token : string) (score : Z) : Player.t :=
  Player.mk id token (Some 1) (Some (ex_hand (100 + 10 * id))) (Some score).
Definition ex_cards : list Card.t :=
  map (fun i => Card.mk i true) (seqZ 1 5) ++ map (fun i => Card.mk i false) (seqZ 101 60).
Definition ex_round (play pick finish : Z) : Round.t :=
  Round.mk 1 1 1 5 (seconds play) (seconds pick) (seconds finish).
Definition ex_game (r : Round.t) : Game.t :=
  Game.mk 1 Game.STARTED (Some 1) (Some r)
    (Some (Deque.mk [1; 2; 3] [2; 3; 1] 3)) (Some (Deque.mk [151; 152] [152; 151] 2))
    (Some (Queue.mk [2; 3; 4; 1])).

(** The invariant of a deque used through [add_cards], [shuffle] and
    [draw_cards]: the draw order lies within the pool, and [size] is not
    below the number of cards of the pool. *)
Definition deque_inv (d : Deque.t) : Prop :=
  msub (Deque.deque d) (Deque.cards d) /\ len (Deque.cards d) <= Deque.size d.

(** One call of a public method of [Deque], with any argument and any
    outcome. *)
Inductive deque_step : Deque.St -> Deque.St -> Prop :=
  | step_add_cards l d rng :
      deque_step (d, rng) ((Deque.add_cards l d).1, rng)
  | step_shuffle s :
      deque_step s (Deque.shuffle s).1
  | step_draw_cards fuel n s :
      deque_step s (Deque.draw_cards fuel n s).1.

(** [k] calls of [pop_item] in a row, with the values they return. *)
Fixpoint pops (k : nat) : M Queue.t (list (option Z)) :=
  match k with
  | O => mret []
  | S k' => x ← Queue.pop_item; xs ← pops k'; mret (x :: xs)
  end.

(** The rotation of [_start_new_round]: the head is popped and pushed back
    at once.  On an empty queue nothing is pushed. *)
Definition rotate : M Queue.t (option Z) :=
  item ← Queue.pop_item;
  match item with
  | Some i => Queue.add_item i;; mret (Some i)
  | None => mret None
  end.

Fixpoint rotations (k : nat) : M Queue.t (list (option Z)) :=
  match k with
  | O => mret []
  | S k' => x ← rotate; xs ← rotations k'; mret (x :: xs)
  end.

(** No two Turns of the table belong to the same round and player. *)
Definition turns_unique (turns : list Turn.t) : Prop :=
  NoDup (map (fun tn => (Turn.round tn, Turn.player tn)) turns).

(** The reconciliation has a round to close: the game is started and its
    current round has reached FINISHED. *)
Definition round_due (now : Z) (g : Game.t) : Prop :=
  Game.status g = Game.STARTED /\
  exists r, Game.current_round g = Some r /\ Round.get_state now None r = Round.FINISHED.

(** A deque as [_update_state] builds it from the ids [ids]. *)
Definition fresh_deque (ids : list Z) (dq : Deque.t) : Prop :=
  Deque.cards dq = ids /\ Deque.deque dq ≡ₚ ids /\ Deque.size dq = len ids.

(** The deque found after the lazy initialisation, given the one before. *)
Definition deque_after (before : option Deque.t) (ids : list Z) (after : option Deque.t)
  : Prop :=
  match before with
  | Some dq => after = Some dq
  | None => exists dq, after = Some dq /\ fresh_deque ids dq
  end.

(** The ids of the cards of one colour, in table order. *)
Definition card_ids (black : bool) (d : Db.t) : list Z :=
  map Card.id (filter (fun c => Card.is_black c = black) (Db.card_table d)).

(** The row of a player who has left: no game, no hand, no score. *)
Definition left_row (p : Player.t) : Player.t :=
  Player.set_score None (Player.set_current_hand None (Player.set_current_game None p)).

(** The game has its queue and deques, and no finished round is waiting:
    the reconciliation has nothing to do. *)
Definition settled (now : Z) (g : Game.t) : Prop :=
  ~ round_due now g /\
  Game.player_queue g ≠ None /\ Game.black_deque g ≠ None /\ Game.white_deque g ≠ None.

(** Dealing and drawing leave the seating alone: the game keeps its id,
    status, host, round and queue, and the database its round counter. *)
Definition same_seating (s s' : Game.St) : Prop :=
  Game.id s'.1 = Game.id s.1 /\ Game.status s'.1 = Game.status s.1 /\
  Game.host s'.1 = Game.host s.1 /\
  Game.current_round s'.1 = Game.current_round s.1 /\
  Game.player_queue s'.1 = Game.player_queue s.1 /\
  Db.next_round_id s'.2 = Db.next_round_id s.2.

(** The game keeps its id. *)
Definition same_id (s s' : Game.St) : Prop := Game.id s'.1 = Game.id s.1.

(** A world apart from the random source: its tables and its games. *)
Definition same_world (w w' : World.t) : Prop :=
  World.games w' = World.games w /\
  World.db w' = Db.set_rng (Db.rng (World.db w')) (World.db w).

(** [int(s)] on the plain decimal numerals, which is all that the examples
    hand over. *)
Definition digit (a : Ascii.ascii) : option Z :=
  let n := Z.of_N (Ascii.N_of_ascii a) in
  if decide (48 <= n <= 57) then Some (n - 48) else None.

Fixpoint decimal_from (acc : Z) (s : string) : option Z :=
  match s with
  | EmptyString => Some acc
  | String a s' =>
      match digit a with
      | Some n => decimal_from (10 * acc + n) s'
      | None => None
      end
  end.

Definition decimal (s : string) : option Z :=
  match s with
  | EmptyString => None
  | _ => decimal_from 0 s
  end.

(** * Properties *)

(** ** Reasoning on computations *)

Lemma bind_run {S A B} (m : M S A) (k : A -> M S B) s :
  (m ≫= k) s =
  match m s with
  | (s', Ret a) => k a s'
  | (s', Raise e) => (s', Raise e)
  | (s', Overflow) => (s', Overflow)
  end.
Proof. reflexivity. Qed.

Lemma bind_Ret {S A B} (m : M S A) (k : A -> M S B) s s1 a :
  m s = (s1, Ret a) -> (m ≫= k) s = k a s1.
Proof. intros H. by rewrite bind_run, H. Qed.

Lemma bind_Raise {S A B} (m : M S A) (k : A -> M S B) s s1 e :
  m s = (s1, Raise e) -> (m ≫= k) s = (s1, Raise e).
Proof. intros H. by rewrite bind_run, H. Qed.

Lemma bind_Overflow {S A B} (m : M S A) (k : A -> M S B) s s1 :
  m s = (s1, Overflow) -> (m ≫= k) s = (s1, Overflow).
Proof. intros H. by rewrite bind_run, H. Qed.

Lemma bind_inv_Ret {S A B} (m : M S A) (k : A -> M S B) s s' b :
  (m ≫= k) s = (s', Ret b) ->
  exists s1 a, m s = (s1, Ret a) /\ k a s1 = (s', Ret b).
Proof.
  rewrite bind_run. destruct (m s) as [s1 [a|e|]]; [eauto | done | done].
Qed.

Lemma bind_inv_Raise {S A B} (m : M S A) (k : A -> M S B) s s' e :
  (m ≫= k) s = (s', Raise e) ->
  m s = (s', Raise e) \/ exists s1 a, m s = (s1, Ret a) /\ k a s1 = (s', Raise e).
Proof.
  rewrite bind_run. destruct (m s) as [s1 [a|e1|]]; [eauto | | done].
  intros [= -> ->]. by left.
Qed.

Lemma on_self_run {A} (m : M Deque.t A) d rng :
  Deque.on_self m (d, rng) = ((m d).1, rng, (m d).2).
Proof. unfold Deque.on_self, zoom. simpl. by destruct (m d). Qed.

Lemma on_rng_run {A} (m : M Rng A) d rng :
  Deque.on_rng m (d, rng) = (d, (m rng).1, (m rng).2).
Proof. unfold Deque.on_rng, zoom. simpl. by destruct (m rng). Qed.

(** ** [random.shuffle] permutes *)

Lemma insert_Permutation_cons (t : list Z) : forall j a b,
  t !! j = Some b -> b :: <[j := a]> t ≡ₚ a :: t.
Proof.
  induction t as [|h t IH]; intros [|j] a b Hj; simplify_eq/=.
  - apply perm_swap.
  - rewrite (perm_swap h b), (IH _ _ _ Hj). apply perm_swap.
Qed.

Lemma swap_Permutation i j x : swap i j x ≡ₚ x.
Proof.
  unfold swap. destruct (x !! i) as [a|] eqn:Ei; [|done].
  destruct (x !! j) as [b|] eqn:Ej; [|done].
  revert i j Ei Ej. induction x as [|h t IH]; intros [|i] [|j] Ei Ej; simplify_eq/=.
  - done.
  - by apply insert_Permutation_cons.
  - by apply insert_Permutation_cons.
  - f_equiv. by apply IH.
Qed.

Lemma shuffle_from_spec i : forall x rng,
  exists rng' x', shuffle_from i x rng = (rng', Ret x') /\ x' ≡ₚ x.
Proof.
  induction i as [|i IH]; intros x rng; simpl.
  - by exists rng, x.
  - rewrite bind_run.
    destruct (randbelow (S (S i)) rng) as [rng1 r] eqn:E.
    assert (exists j, r = Ret j) as [j ->].
    { unfold randbelow in E. destruct rng; simplify_eq; eauto. }
    destruct (IH (swap (S i) j x) rng1) as (rng' & x' & -> & Hp).
    exists rng', x'. split; [done|]. by rewrite Hp, swap_Permutation.
Qed.

Lemma random_shuffle_spec x rng :
  exists rng' x', random_shuffle x rng = (rng', Ret x') /\ x' ≡ₚ x.
Proof. apply shuffle_from_spec. Qed.

Lemma shuffle_spec d rng :
  exists rng' new_deque,
    Deque.shuffle (d, rng)
      = ((Deque.mk (Deque.cards d) new_deque (Deque.size d), rng'), Ret tt)
    /\ new_deque ≡ₚ Deque.cards d.
Proof.
  destruct (random_shuffle_spec (Deque.cards d) rng) as (rng' & nd & E & Hp).
  exists rng', nd. split; [|done].
  unfold Deque.shuffle. rewrite bind_run, on_self_run. simpl.
  rewrite bind_run, on_rng_run, E. simpl.
  rewrite on_self_run. reflexivity.
Qed.

(** ** Counters as multisets *)

Lemma occ_nil x : occ x [] = 0.
Proof. reflexivity. Qed.

Lemma occ_cons x y l : occ x (y :: l) = (if decide (y = x) then 1 else 0) + occ x l.
Proof.
  unfold occ. simpl. destruct (Z.eq_dec y x); destruct (decide (y = x)); try congruence; lia.
Qed.

Lemma occ_app x l k : occ x (l ++ k) = occ x l + occ x k.
Proof. unfold occ. rewrite count_occ_app. lia. Qed.

Lemma occ_nonneg x l : 0 <= occ x l.
Proof. unfold occ. lia. Qed.

Lemma occ_pos_elem_of x l : 0 < occ x l <-> x ∈ l.
Proof.
  unfold occ. rewrite list_elem_of_In, (count_occ_In Z.eq_dec). lia.
Qed.

Lemma occ_Permutation l k : (forall x, occ x l = occ x k) <-> l ≡ₚ k.
Proof.
  rewrite (Permutation_count_occ Z.eq_dec). unfold occ.
  split; intros H x; specialize (H x); lia.
Qed.

Lemma cval_empty x : cval ∅ x = 0.
Proof. unfold cval. by rewrite lookup_empty. Qed.

Lemma positive_counter_empty : positive_counter ∅.
Proof. intros x k. by rewrite lookup_empty. Qed.

Lemma positive_counter_lookup_None c x :
  positive_counter c -> (c !! x = None <-> cval c x = 0).
Proof.
  intros Hc. unfold cval. destruct (c !! x) as [k|] eqn:E; simpl.
  - apply Hc in E. split; [done | lia].
  - done.
Qed.

Lemma positive_counter_cval_nonneg c x : positive_counter c -> 0 <= cval c x.
Proof.
  intros Hc. unfold cval. destruct (c !! x) as [k|] eqn:E; simpl; [|lia].
  apply Hc in E. lia.
Qed.

Lemma positive_counter_size_0 c :
  positive_counter c -> (base.size c = 0%nat <-> forall x, cval c x = 0).
Proof.
  intros Hc. rewrite map_size_empty_iff. split.
  - intros -> x. apply cval_empty.
  - intros H. apply map_eq. intros x. rewrite lookup_empty.
    by apply positive_counter_lookup_None.
Qed.

Lemma Counter_acc_spec l : forall c,
  positive_counter c ->
  let c' := foldl count_elem c l in
  positive_counter c' /\ forall x, cval c' x = cval c x + occ x l.
Proof.
  induction l as [|y l IH]; intros c Hc; simpl.
  - split; [done|]. intros x. rewrite occ_nil. lia.
  - assert (Hc' : positive_counter (count_elem c y)).
    { intros x k. unfold count_elem. rewrite lookup_insert. case_decide.
      - intros [= <-]. pose proof (positive_counter_cval_nonneg c y Hc).
        unfold cval in *. lia.
      - apply Hc. }
    destruct (IH _ Hc') as [Hp Hv]. split; [done|].
    intros x. rewrite Hv, occ_cons. unfold cval at 1, count_elem.
    rewrite lookup_insert. case_decide; simpl; unfold cval; subst; lia.
Qed.

Lemma Counter_positive l : positive_counter (Counter l).
Proof. apply (Counter_acc_spec l ∅ positive_counter_empty). Qed.

Lemma cval_Counter l x : cval (Counter l) x = occ x l.
Proof.
  destruct (Counter_acc_spec l ∅ positive_counter_empty) as [_ H].
  unfold Counter. rewrite H, cval_empty. lia.
Qed.

Lemma size_Counter_acc l : forall c : gmap Z Z,
  (base.size (foldl count_elem c l)
     <= base.size c + length l)%nat.
Proof.
  induction l as [|y l IH]; intros c; simpl; [lia|].
  etrans; [apply IH|]. unfold count_elem. rewrite map_size_insert.
  destruct (c !! y); simpl; lia.
Qed.

Lemma distinct_le_len l : distinct l <= len l.
Proof.
  unfold distinct, len, Counter. pose proof (size_Counter_acc l ∅) as H.
  rewrite map_size_empty in H. lia.
Qed.

Lemma distinct_nonneg l : 0 <= distinct l.
Proof. unfold distinct. lia. Qed.

Lemma size_Counter_acc_NoDup l : forall c : gmap Z Z,
  NoDup l -> (forall x, x ∈ l -> c !! x = None) ->
  base.size (foldl count_elem c l)
    = (base.size c + length l)%nat.
Proof.
  induction l as [|y l IH]; intros c Hnd Hc; simpl; [lia|].
  apply NoDup_cons in Hnd as [Hy Hnd].
  rewrite IH; [| done |].
  - unfold count_elem. rewrite map_size_insert_None; [lia|]. apply Hc. left.
  - intros x Hx. unfold count_elem. rewrite lookup_insert_ne; [|set_solver]. apply Hc. by right.
Qed.

Lemma distinct_NoDup l : NoDup l -> distinct l = len l.
Proof.
  intros H. unfold distinct, len, Counter.
  rewrite size_Counter_acc_NoDup; [ by rewrite map_size_empty | done | ].
  intros. apply lookup_empty.
Qed.

(** ** [try_pop] and the comprehension of [_remove_cards] *)

Lemma try_pop_spec c x b c' :
  positive_counter c -> Deque.try_pop c x = (b, c') ->
  positive_counter c' /\
  (b = true <-> 0 < cval c x) /\
  forall y, cval c' y = cval c y - (if decide (b = true /\ y = x) then 1 else 0).
Proof.
  intros Hc. unfold Deque.try_pop.
  destruct (c !! x) as [k|] eqn:E.
  - pose proof (Hc _ _ E) as Hk.
    assert (Hx : cval c x = k) by (unfold cval; by rewrite E).
    case_decide as Hk1; intros [= <- <-].
    + split; [|split].
      * intros y j. rewrite delete_insert_eq, lookup_delete. case_decide; [done|]. apply Hc.
      * split; [lia | done].
      * intros y. unfold cval at 1. rewrite delete_insert_eq, lookup_delete.
        destruct (decide (x = y)) as [<-|Hne]; simpl.
        -- rewrite decide_True by done. lia.
        -- rewrite decide_False by (intros [_ ?]; congruence). unfold cval. lia.
    + split; [|split].
      * intros y j. rewrite lookup_insert. case_decide; [intros [= <-]; lia | apply Hc].
      * split; [lia | done].
      * intros y. unfold cval at 1. rewrite lookup_insert.
        destruct (decide (x = y)) as [<-|Hne]; simpl.
        -- rewrite decide_True by done. lia.
        -- rewrite decide_False by (intros [_ ?]; congruence). unfold cval. lia.
  - intros [= <- <-]. split; [done|]. split.
    + assert (cval c x = 0) by (unfold cval; by rewrite E). split; [done | lia].
    + intros y. rewrite decide_False by (intros [? _]; done). lia.
Qed.

Lemma keep_unpopped_spec l : forall c new c',
  positive_counter c -> Deque.keep_unpopped c l = (new, c') ->
  positive_counter c' /\
  forall x, occ x new = occ x l - Z.min (cval c x) (occ x l) /\
            cval c' x = cval c x - Z.min (cval c x) (occ x l).
Proof.
  induction l as [|y l IH]; intros c new c' Hc; simpl.
  - intros [= <- <-]. split; [done|]. intros x. rewrite occ_nil.
    pose proof (positive_counter_cval_nonneg c x Hc). lia.
  - destruct (Deque.try_pop c y) as [b c1] eqn:E1.
    destruct (Deque.keep_unpopped c1 l) as [kept c2] eqn:E2.
    intros [= <- <-].
    destruct (try_pop_spec _ _ _ _ Hc E1) as (Hc1 & Hb & Hv1).
    destruct (IH _ _ _ Hc1 E2) as (Hc2 & Hv2).
    split; [done|]. intros x.
    destruct (Hv2 x) as [Ho Hcv]. specialize (Hv1 x).
    pose proof (positive_counter_cval_nonneg c x Hc) as Hx0.
    pose proof (occ_nonneg x l) as Hl0.
    clear IH Hv2 E1 E2.
    destruct b.
    + assert (Hy : 0 < cval c y) by (by apply Hb).
      rewrite occ_cons. destruct (decide (y = x)) as [->|Hne].
      * rewrite decide_True in Hv1 by done. lia.
      * rewrite decide_False in Hv1 by (intros [_ ?]; congruence). lia.
    + assert (Hy : ~ 0 < cval c y) by (rewrite <- Hb; done).
      rewrite decide_False in Hv1 by (intros [? _]; done).
      rewrite !occ_cons. destruct (decide (y = x)) as [->|Hne]; lia.
Qed.

Lemma _remove_cards_ok rem d :
  msub rem (Deque.cards d) ->
  exists new,
    Deque._remove_cards rem d
      = (Deque.mk new (Deque.deque d) (Deque.size d - distinct rem), Ret tt)
    /\ Deque.cards d ≡ₚ rem ++ new.
Proof.
  intros Hsub. unfold Deque._remove_cards.
  destruct (Deque.keep_unpopped (Counter rem) (Deque.cards d)) as [new c'] eqn:E.
  destruct (keep_unpopped_spec _ _ _ _ (Counter_positive rem) E) as [Hc' Hv].
  exists new.
  assert (Hz : base.size c' = 0%nat).
  { apply positive_counter_size_0; [done|]. intros x.
    destruct (Hv x) as [_ ->]. rewrite cval_Counter. specialize (Hsub x). lia. }
  split.
  - cbv [mbind M_bind get]. rewrite E, Hz. reflexivity.
  - apply occ_Permutation. intros x. rewrite occ_app.
    destruct (Hv x) as [-> _]. rewrite cval_Counter. specialize (Hsub x). lia.
Qed.

Lemma _remove_cards_fail rem d :
  ~ msub rem (Deque.cards d) ->
  Deque._remove_cards rem d = (d, Raise CardNotInDequeError).
Proof.
  intros Hsub. unfold Deque._remove_cards.
  destruct (Deque.keep_unpopped (Counter rem) (Deque.cards d)) as [new c'] eqn:E.
  destruct (keep_unpopped_spec _ _ _ _ (Counter_positive rem) E) as [Hc' Hv].
  assert (Hz : base.size c' <> 0%nat).
  { rewrite positive_counter_size_0 by done. intros H. apply Hsub. intros x.
    specialize (H x). destruct (Hv x) as [_ Hx]. rewrite cval_Counter in Hx. lia. }
  cbv [mbind M_bind get]. rewrite E.
  case_decide; [reflexivity | lia].
Qed.

(** ** Multiset inclusion *)

Lemma msub_refl l : msub l l.
Proof. intros x. lia. Qed.

Lemma msub_nil l : msub [] l.
Proof. intros x. rewrite occ_nil. apply occ_nonneg. Qed.

Lemma msub_Permutation l l' k k' : l ≡ₚ l' -> k ≡ₚ k' -> msub l k -> msub l' k'.
Proof.
  intros Hl Hk H x.
  rewrite <- (proj2 (occ_Permutation l l') Hl x), <- (proj2 (occ_Permutation k k') Hk x).
  apply H.
Qed.

Lemma Permutation_msub l k : l ≡ₚ k -> msub l k.
Proof. intros H x. rewrite (proj2 (occ_Permutation l k) H x). lia. Qed.

Lemma msub_app_l l k : msub l (l ++ k).
Proof. intros x. rewrite occ_app. pose proof (occ_nonneg x k). lia. Qed.

Lemma msub_trans l k m : msub l k -> msub k m -> msub l m.
Proof. intros H1 H2 x. specialize (H1 x). specialize (H2 x). lia. Qed.

Lemma msub_take n l : msub (take n l) l.
Proof. rewrite <- (take_drop n l) at 2. apply msub_app_l. Qed.

Lemma msub_app_inv l k1 k2 : msub (l ++ k1) (l ++ k2) -> msub k1 k2.
Proof. intros H x. specialize (H x). rewrite !occ_app in H. lia. Qed.

Lemma msub_elem_of l k x : msub l k -> x ∈ l -> x ∈ k.
Proof. intros H. rewrite <- !occ_pos_elem_of. specialize (H x). lia. Qed.

Lemma msub_length l k : msub l k -> len k <= len l -> l ≡ₚ k.
Proof.
  revert k. induction l as [|a l IH]; intros k H Hlen.
  - destruct k; [done|]. unfold len in Hlen. simpl in Hlen. lia.
  - assert (Ha : a ∈ k).
    { apply (msub_elem_of (a :: l)); [done | left]. }
    apply list_elem_of_split in Ha as (k1 & k2 & ->).
    rewrite <- Permutation_middle. f_equiv. apply IH.
    + intros x. specialize (H x). rewrite occ_cons, !occ_app, occ_cons in H.
      rewrite occ_app. lia.
    + unfold len in *. rewrite length_app in *. simpl in *. lia.
Qed.

(** ** [draw_cards] *)

Lemma draw_cards_step fuel n d rng :
  Deque.draw_cards (S fuel) n (d, rng) =
  if decide (n > Deque.size d) then ((d, rng), Raise NotEnoughCardsError)
  else if decide (len (Deque.deque d) > n) then
    match Deque._remove_cards (slice_to n (Deque.deque d)) d with
    | (d1, Ret _) =>
        ((Deque.mk (Deque.cards d1) (slice_from n (Deque.deque d)) (Deque.size d1), rng),
         Ret (slice_to n (Deque.deque d)))
    | (d1, Raise e) => ((d1, rng), Raise e)
    | (d1, Overflow) => ((d1, rng), Overflow)
    end
  else
    match Deque._remove_cards (Deque.deque d) d with
    | (d1, Ret _) =>
        match Deque.shuffle (d1, rng) with
        | (s2, Ret _) =>
            if decide (len (Deque.deque d) < n) then
              match Deque.draw_cards fuel (n - len (Deque.deque d)) s2 with
              | (s3, Ret more) => (s3, Ret (Deque.deque d ++ more))
              | (s3, Raise e) => (s3, Raise e)
              | (s3, Overflow) => (s3, Overflow)
              end
            else (s2, Ret (Deque.deque d))
        | (s2, Raise e) => (s2, Raise e)
        | (s2, Overflow) => (s2, Overflow)
        end
    | (d1, Raise e) => ((d1, rng), Raise e)
    | (d1, Overflow) => ((d1, rng), Overflow)
    end.
Proof.
  simpl. rewrite bind_run, on_self_run. simpl.
  destruct (decide (n > Deque.size d)); [reflexivity|].
  destruct (decide (len (Deque.deque d) > n)).
  - rewrite bind_run, on_self_run.
    destruct (Deque._remove_cards _ d) as [d1 [[]|e|]]; reflexivity.
  - rewrite bind_run, on_self_run.
    destruct (Deque._remove_cards _ d) as [d1 [[]|e|]]; simpl; try reflexivity.
    rewrite bind_run.
    destruct (Deque.shuffle (d1, rng)) as [s2 [[]|e|]]; simpl; try reflexivity.
    destruct (decide (len (Deque.deque d) < n)); reflexivity.
Qed.

Lemma msub_dec rem cs : {msub rem cs} + {~ msub rem cs}.
Proof.
  destruct (Deque.keep_unpopped (Counter rem) cs) as [new c'] eqn:E.
  destruct (keep_unpopped_spec _ _ _ _ (Counter_positive rem) E) as [Hc' Hv].
  destruct (decide (base.size c' = 0%nat)) as [Hz|Hz].
  - left. intros x. rewrite (positive_counter_size_0 _ Hc') in Hz.
    specialize (Hz x). destruct (Hv x) as [_ Hx]. rewrite cval_Counter in Hx. lia.
  - right. intros H. apply Hz. apply positive_counter_size_0; [done|]. intros x.
    destruct (Hv x) as [_ ->]. rewrite cval_Counter. specialize (H x). lia.
Qed.

(** The two outcomes of [_remove_cards]. *)
Lemma _remove_cards_cases rem d :
  (msub rem (Deque.cards d) /\
   exists new,
     Deque._remove_cards rem d
       = (Deque.mk new (Deque.deque d) (Deque.size d - distinct rem), Ret tt)
     /\ Deque.cards d ≡ₚ rem ++ new)
  \/ (~ msub rem (Deque.cards d) /\
      Deque._remove_cards rem d = (d, Raise CardNotInDequeError)).
Proof.
  destruct (msub_dec rem (Deque.cards d)) as [H|H].
  - left. split; [done|]. by apply _remove_cards_ok.
  - right. split; [done|]. by apply _remove_cards_fail.
Qed.

Lemma slice_to_nonneg {A} n (l : list A) : 0 <= n -> slice_to n l = take (Z.to_nat n) l.
Proof. intros H. unfold slice_to, slice_bound. by rewrite decide_False by lia. Qed.

Lemma slice_from_nonneg {A} n (l : list A) : 0 <= n -> slice_from n l = drop (Z.to_nat n) l.
Proof. intros H. unfold slice_from, slice_bound. by rewrite decide_False by lia. Qed.

Lemma slice_to_from {A} n (l : list A) : slice_to n l ++ slice_from n l = l.
Proof. apply take_drop. Qed.

Lemma len_app {A} (l k : list A) : len (l ++ k) = len l + len k.
Proof. unfold len. rewrite length_app. lia. Qed.

Lemma len_Permutation {A} (l k : list A) : l ≡ₚ k -> len l = len k.
Proof. intros H. unfold len. by rewrite H. Qed.

Lemma len_nonneg {A} (l : list A) : 0 <= len l.
Proof. unfold len. lia. Qed.

Lemma len_slice_to {A} n (l : list A) : 0 <= n <= len l -> len (slice_to n l) = n.
Proof.
  intros H. rewrite slice_to_nonneg by lia. unfold len in *. rewrite length_take. lia.
Qed.

(** A draw from a deque whose draw order is a shuffle of the whole pool
    never raises once past the size check. *)
Lemma draw_cards_synced_no_raise fuel : forall n d rng s' e,
  Deque.deque d ≡ₚ Deque.cards d -> n <= Deque.size d ->
  Deque.draw_cards fuel n (d, rng) <> (s', Raise e).
Proof.
  induction fuel as [|fuel IH]; intros n d rng s' e Hsync Hn; [done|].
  rewrite draw_cards_step.
  destruct (decide (n > Deque.size d)); [lia|].
  destruct (decide (len (Deque.deque d) > n)).
  - destruct (_remove_cards_ok (slice_to n (Deque.deque d)) d) as (new & -> & _); [|done].
    eapply msub_trans; [apply msub_take|].
    by apply Permutation_msub.
  - destruct (_remove_cards_ok (Deque.deque d) d) as (new & -> & Hp).
    { by apply Permutation_msub. }
    destruct (shuffle_spec (Deque.mk new (Deque.deque d)
                (Deque.size d - distinct (Deque.deque d))) rng)
      as (rng' & nd & -> & Hnd).
    destruct (decide (len (Deque.deque d) < n)); [|done].
    destruct (Deque.draw_cards fuel _ _) as [s3 [more|e'|]] eqn:E; [done | | done].
    exfalso. eapply IH; [ | | exact E]; simpl; [done|].
    pose proof (distinct_le_len (Deque.deque d)). lia.
Qed.

(** A draw that raises has changed nothing, and raises [NotEnoughCards]
    exactly when more than [size] cards were asked for. *)
Lemma draw_cards_raise_unchanged fuel n s s' e :
  Deque.draw_cards fuel n s = (s', Raise e) ->
  s' = s /\
  ((e = NotEnoughCardsError /\ n > Deque.size s.1) \/
   (e = CardNotInDequeError /\ n <= Deque.size s.1)).
Proof.
  destruct s as [d rng]. destruct fuel as [|fuel]; [done|].
  rewrite draw_cards_step. simpl.
  destruct (decide (n > Deque.size d)); [intros [= <- <-]; auto|].
  destruct (decide (len (Deque.deque d) > n)).
  - destruct (_remove_cards_cases (slice_to n (Deque.deque d)) d)
      as [(_ & new & -> & _)|(_ & ->)]; [done|].
    intros [= <- <-]. split; [done|]. right. split; [done|lia].
  - destruct (_remove_cards_cases (Deque.deque d) d)
      as [(_ & new & -> & Hp)|(_ & ->)].
    + destruct (shuffle_spec (Deque.mk new (Deque.deque d)
                  (Deque.size d - distinct (Deque.deque d))) rng)
        as (rng' & nd & -> & Hnd).
      destruct (decide (len (Deque.deque d) < n)); [|done].
      destruct (Deque.draw_cards fuel _ _) as [s3 [more|e'|]] eqn:E; [done | | done].
      exfalso. eapply draw_cards_synced_no_raise; [ | | exact E]; simpl; [done|].
      pose proof (distinct_le_len (Deque.deque d)). lia.
    + intros [= <- <-]. split; [done|]. right. split; [done|lia].
Qed.

Lemma draw_cards_not_enough fuel n d rng :
  n > Deque.size d ->
  Deque.draw_cards (S fuel) n (d, rng) = ((d, rng), Raise NotEnoughCardsError).
Proof. intros H. rewrite draw_cards_step. by rewrite decide_True. Qed.

Lemma NoDup_Permutation_app_l (l k m : list Z) : l ≡ₚ k ++ m -> NoDup l -> NoDup k.
Proof. intros H Hl. rewrite H in Hl. by apply NoDup_app in Hl as [? _]. Qed.

Lemma draw_cards_front_ok fuel n d rng :
  msub (Deque.deque d) (Deque.cards d) ->
  0 <= n -> len (Deque.deque d) > n -> n <= Deque.size d ->
  exists drawn d',
    Deque.draw_cards (S fuel) n (d, rng) = ((d', rng), Ret drawn) /\
    drawn_ok n d d' drawn.
Proof.
  intros Hsub Hn0 Hlen Hn. rewrite draw_cards_step.
  rewrite decide_False by lia. rewrite decide_True by done.
  destruct (_remove_cards_ok (slice_to n (Deque.deque d)) d) as (new & -> & Hp).
  { eapply msub_trans; [apply msub_take | done]. }
  eexists _, _. split; [reflexivity|]. simpl.
  pose proof (distinct_le_len (slice_to n (Deque.deque d))) as Hd.
  pose proof (distinct_nonneg (slice_to n (Deque.deque d))) as Hd0.
  rewrite len_slice_to in Hd by lia.
  repeat split; simpl; try lia.
  - apply len_slice_to. lia.
  - done.
  - apply (msub_app_inv (slice_to n (Deque.deque d))).
    rewrite slice_to_from. eapply msub_trans; [exact Hsub|]. by apply Permutation_msub.
  - intros Hnd. apply (NoDup_Permutation_app_l _ _ _ Hp) in Hnd.
    rewrite (distinct_NoDup _ Hnd), len_slice_to by lia. done.
Qed.

Lemma draw_cards_synced_ok fuel n d rng :
  Deque.deque d ≡ₚ Deque.cards d ->
  0 <= n <= len (Deque.cards d) -> n <= Deque.size d ->
  exists drawn d' rng',
    Deque.draw_cards (S fuel) n (d, rng) = ((d', rng'), Ret drawn) /\
    drawn_ok n d d' drawn.
Proof.
  intros Hsync Hn0 Hn.
  destruct (decide (len (Deque.deque d) > n)) as [Hlen|Hlen].
  - destruct (draw_cards_front_ok fuel n d rng) as (drawn & d' & E & Hok);
      [by apply Permutation_msub | lia | done | done |]. eauto.
  - rewrite draw_cards_step.
    rewrite decide_False by lia. rewrite decide_False by done.
    destruct (_remove_cards_ok (Deque.deque d) d) as (new & -> & Hp).
    { by apply Permutation_msub. }
    destruct (shuffle_spec (Deque.mk new (Deque.deque d)
                (Deque.size d - distinct (Deque.deque d))) rng)
      as (rng' & nd & -> & Hnd).
    pose proof (len_Permutation _ _ Hsync) as Hl.
    rewrite decide_False by lia.
    eexists _, _, _. split; [reflexivity|]. simpl in *.
    pose proof (distinct_le_len (Deque.deque d)) as Hd.
    pose proof (distinct_nonneg (Deque.deque d)) as Hd0.
    repeat split; simpl; try lia.
    + done.
    + by apply Permutation_msub.
    + intros Hnodup. apply (NoDup_Permutation_app_l _ _ _ Hp) in Hnodup.
      rewrite (distinct_NoDup _ Hnodup). lia.
Qed.

(** Totality of [draw_cards]: when the draw order is a sub-multiset of the
    pool and the pool holds at least [n] cards, two levels of recursion
    are enough and the draw returns [n] cards taken out of the pool. *)
Lemma draw_cards_ok fuel n d rng :
  msub (Deque.deque d) (Deque.cards d) ->
  0 <= n <= len (Deque.cards d) -> n <= Deque.size d ->
  exists drawn d' rng',
    Deque.draw_cards (S (S fuel)) n (d, rng) = ((d', rng'), Ret drawn) /\
    drawn_ok n d d' drawn.
Proof.
  intros Hsub Hn0 Hn.
  destruct (decide (len (Deque.deque d) > n)) as [Hlen|Hlen].
  - destruct (draw_cards_front_ok (S fuel) n d rng) as (drawn & d' & E & Hok);
      [done | lia | done | done |]. eauto.
  - rewrite draw_cards_step.
    rewrite decide_False by lia. rewrite decide_False by done.
    destruct (_remove_cards_ok (Deque.deque d) d) as (new & -> & Hp); [done|].
    destruct (shuffle_spec (Deque.mk new (Deque.deque d)
                (Deque.size d - distinct (Deque.deque d))) rng)
      as (rng' & nd & -> & Hnd).
    cbn [Deque.cards Deque.size Deque.deque] in *.
    pose proof (len_Permutation _ _ Hp) as Hl. rewrite len_app in Hl.
    pose proof (distinct_le_len (Deque.deque d)) as Hd.
    pose proof (distinct_nonneg (Deque.deque d)) as Hd0.
    pose proof (len_nonneg (Deque.deque d)) as Hq0.
    destruct (decide (len (Deque.deque d) < n)) as [Hlt|Hlt].
    + destruct (draw_cards_synced_ok fuel (n - len (Deque.deque d))
                  (Deque.mk new nd (Deque.size d - distinct (Deque.deque d))) rng')
        as (more & d' & rng'' & -> & Hlen' & Hp' & Hsub' & Hsz & Hnodup');
        cbn [Deque.cards Deque.size Deque.deque]; [done | lia | lia |].
      cbn [Deque.cards Deque.size Deque.deque] in *.
      eexists _, _, _. split; [reflexivity|].
      repeat split; simpl; try lia.
      * rewrite len_app. lia.
      * by rewrite Hp, Hp', (assoc_L (++)).
      * done.
      * intros Hnodup. rewrite Hnodup'.
        -- apply (NoDup_Permutation_app_l _ _ _ Hp) in Hnodup.
           rewrite (distinct_NoDup _ Hnodup). lia.
        -- rewrite Hp in Hnodup. by apply NoDup_app in Hnodup as (_ & _ & ?).
    + eexists _, _, _. split; [reflexivity|].
      repeat split; simpl; try lia.
      * done.
      * by apply Permutation_msub.
      * intros Hnodup. apply (NoDup_Permutation_app_l _ _ _ Hp) in Hnodup.
        rewrite (distinct_NoDup _ Hnodup). lia.
Qed.

(** ** Deque: the size field and duplicate cards *)

Lemma Permutation_replicate_eq (x : Z) n l : l ≡ₚ replicate n x -> l = replicate n x.
Proof. intros H. symmetry. apply replicate_Permutation. by symmetry. Qed.

(** C1 (the code departs from the specification).  On a pool of three equal cards
    a draw of two cards returns two cards and leaves one card in the pool,
    but [size] is lowered by one only (the number of distinct values
    drawn): it reads 2 while the pool holds 1 card.  This holds whatever
    the random source yields. *)
Theorem draw_cards_duplicates_size_overcounts (rng : Rng) :
  exists d' rng',
    (Deque.on_self (Deque.add_cards [1; 1; 1]);; Deque.draw_cards 2 2) (Deque.create, rng)
      = ((d', rng'), Ret [1; 1])
    /\ Deque.cards d' = [1]
    /\ Deque.size d' = 2
    /\ Deque.size d' <> len (Deque.cards d').
Proof.
  destruct (shuffle_spec (Deque.mk [1; 1; 1] [] 3) rng) as (rng' & nd & Hsh & Hnd).
  apply (Permutation_replicate_eq 1 3) in Hnd. subst nd.
  exists (Deque.mk [1] [1] 2), rng'. split; [|by vm_compute].
  rewrite bind_run, on_self_run.
  change (Deque.add_cards [1; 1; 1] Deque.create)
    with (Deque.mk [1; 1; 1] [] 3, Ret tt : Res unit).
  cbn [fst snd].
  rewrite draw_cards_step. cbn [Deque.size Deque.deque Deque.cards].
  rewrite decide_False by lia. rewrite decide_False by (vm_compute; congruence).
  change (Deque._remove_cards [] (Deque.mk [1; 1; 1] [] 3))
    with (Deque.mk [1; 1; 1] [] 3, Ret tt : Res unit).
  cbn iota. rewrite Hsh.
  rewrite decide_True by (vm_compute; congruence).
  change (2 - len (@nil Z)) with 2.
  rewrite draw_cards_step. cbn [Deque.size Deque.deque Deque.cards].
  rewrite decide_False by lia. rewrite decide_True by (vm_compute; congruence).
  reflexivity.
Qed.

(** C6 (the code departs from the specification).  After a pool of two equal
    cards has been drawn in full, [size] still reads 1 on an empty pool; the
    next [draw_cards(1)] passes the size check and then calls itself on the
    same state for ever: whatever the recursion budget, it neither returns
    nor raises [NotEnoughCards] or [CardNotInDeque]. *)
Theorem draw_cards_recurses_without_end (rng : Rng) :
  exists rng',
    (Deque.on_self (Deque.add_cards [1; 1]);; Deque.draw_cards 2 2) (Deque.create, rng)
      = ((Deque.mk [] [] 1, rng'), Ret [1; 1])
    /\ forall fuel,
         Deque.draw_cards fuel 1 (Deque.mk [] [] 1, rng')
           = ((Deque.mk [] [] 1, rng'), Overflow).
Proof.
  destruct (shuffle_spec (Deque.mk [1; 1] [] 2) rng) as (rng' & nd & Hsh & Hnd).
  apply (Permutation_replicate_eq 1 2) in Hnd. subst nd.
  exists rng'. split.
  - rewrite bind_run, on_self_run.
    change (Deque.add_cards [1; 1] Deque.create)
      with (Deque.mk [1; 1] [] 2, Ret tt : Res unit).
    cbn [fst snd].
    rewrite draw_cards_step. cbn [Deque.size Deque.deque Deque.cards].
    rewrite decide_False by lia. rewrite decide_False by (vm_compute; congruence).
    change (Deque._remove_cards [] (Deque.mk [1; 1] [] 2))
      with (Deque.mk [1; 1] [] 2, Ret tt : Res unit).
    cbn iota. rewrite Hsh.
    rewrite decide_True by (vm_compute; congruence).
    change (2 - len (@nil Z)) with 2.
    rewrite draw_cards_step. cbn [Deque.size Deque.deque Deque.cards].
    rewrite decide_False by lia. rewrite decide_False by (vm_compute; congruence).
    reflexivity.
  - intros fuel. induction fuel as [|fuel IH]; [reflexivity|].
    rewrite draw_cards_step. cbn [Deque.size Deque.deque Deque.cards].
    rewrite decide_False by lia. rewrite decide_False by (vm_compute; congruence).
    change (Deque._remove_cards [] (Deque.mk [] [] 1))
      with (Deque.mk [] [] 1, Ret tt : Res unit).
    cbn iota.
    change (Deque.shuffle (Deque.mk [] [] 1, rng'))
      with ((Deque.mk [] [] 1, rng'), Ret tt : Res unit).
    cbn iota.
    rewrite decide_True by (vm_compute; congruence).
    change (1 - len (@nil Z)) with 1. by rewrite IH.
Qed.

(** ** Deque: [draw_single_card] *)

(** C7 (counterexample).  On a pool that holds the single card 7,
    [draw_single_card()] returns the list [[7]], not the card id 7. *)
Lemma draw_single_card_returns_a_list :
  let r := ((Deque.on_self (Deque.add_cards [7]);; Deque.draw_single_card 2)
              (Deque.create, [])).2 in
  r = Ret (PyList [7]) /\ ~ exists c, r = Ret (PyInt c).
Proof. split; [reflexivity|]. intros [c H]. vm_compute in H. discriminate. Qed.

Lemma draw_single_card_run fuel s :
  Deque.draw_single_card fuel s =
  match Deque.draw_cards fuel 1 s with
  | (s', Ret l) => (s', Ret (PyList l))
  | (s', Raise e) => (s', Raise e)
  | (s', Overflow) => (s', Overflow)
  end.
Proof. reflexivity. Qed.

(** C7 (as amended).  On a deque whose pool holds at least one card, whose
    size field is at least 1 and whose draw order is a sub-multiset of the
    pool, [draw_single_card()] returns: its value is the one-element list
    that [draw_cards(1)] returns, still wrapped, and the card comes from
    the pool. *)
Theorem draw_single_card_is_draw_cards_1 (fuel : nat) (d : Deque.t) (rng : Rng) :
  1 <= Deque.size d ->
  1 <= len (Deque.cards d) ->
  msub (Deque.deque d) (Deque.cards d) ->
  exists c d' rng',
    Deque.draw_cards (S (S fuel)) 1 (d, rng) = ((d', rng'), Ret [c]) /\
    Deque.draw_single_card (S (S fuel)) (d, rng) = ((d', rng'), Ret (PyList [c])) /\
    c ∈ Deque.cards d.
Proof.
  intros Hsize Hlen Hsub.
  destruct (draw_cards_ok fuel 1 d rng) as (drawn & d' & rng' & E & Hl & Hp & _);
    [done | lia | lia |].
  destruct drawn as [|c [|c' drawn]]; unfold len in Hl; simpl in Hl; try lia.
  exists c, d', rng'. split; [done|]. split.
  - by rewrite draw_single_card_run, E.
  - rewrite Hp. left.
Qed.

Lemma draw_single_card_is_draw_cards_1_witness :
  exists c d' rng',
    Deque.draw_cards 2 1 (Deque.mk [4; 5] [5; 4] 2, [3%nat]) = ((d', rng'), Ret [c]) /\
    Deque.draw_single_card 2 (Deque.mk [4; 5] [5; 4] 2, [3%nat])
      = ((d', rng'), Ret (PyList [c])) /\
    c ∈ [4; 5].
Proof.
  apply (draw_single_card_is_draw_cards_1 0 (Deque.mk [4; 5] [5; 4] 2) [3%nat]).
  - simpl. lia.
  - vm_compute. congruence.
  - apply Permutation_msub. simpl. apply perm_swap.
Defined.

(** ** Queue *)

(** C3 (counterexample).  [remove_item] is not the removal of the first
    occurrence: from the items 1, 2, 1 it takes both 1s. *)
Lemma remove_item_not_first_only :
  ~ (forall q x,
       Queue.items (fst (Queue.remove_item x q)) = spec_remove_first x (Queue.items q)).
Proof. intros H. specialize (H (Queue.mk [1; 2; 1]) 1). vm_compute in H. discriminate. Qed.

(** C3 (as amended).  [remove_item(x)] always returns and leaves the items
    different from [x], in their order: every occurrence of [x] is gone, and
    when [x] does not occur the queue is unchanged. *)
Theorem remove_item_removes_every_occurrence (q : Queue.t) (x : Z) :
  exists q',
    Queue.remove_item x q = (q', Ret tt) /\
    Queue.items q' = filter (fun i => i ≠ x) (Queue.items q) /\
    (x ∉ Queue.items q') /\
    (forall y, y ≠ x -> occ y (Queue.items q') = occ y (Queue.items q)) /\
    (x ∉ Queue.items q -> q' = q).
Proof.
  eexists. split; [reflexivity|]. simpl. split; [done|]. split; [|split].
  - rewrite list_elem_of_filter. intros [Hx _]. by apply Hx.
  - intros y Hy. induction (Queue.items q) as [|i l IH]; [done|].
    rewrite filter_cons. destruct (decide (i ≠ x)) as [Hi|Hi].
    + rewrite !occ_cons, IH. done.
    + rewrite occ_cons, IH. rewrite decide_False; [lia|]. intros ->. apply Hi. done.
  - intros Hx. destruct q as [l]. simpl in *. f_equal.
    induction l as [|i l IH]; [done|].
    rewrite filter_cons. apply not_elem_of_cons in Hx as [Hne Hx].
    rewrite decide_True by done. by rewrite IH.
Qed.

(** ** Round: one Turn per player *)

(** C8.  [Round.play_card] raises [PlayerHasAlreadyPlayed] and leaves the
    Turn table as it is when the round already has a Turn of the player;
    otherwise it returns and has added the Turn of the player and card. *)
Theorem play_card_once_per_round (self : Round.t) (player card : Z) (turns : list Turn.t) :
  ((exists tn, tn ∈ turns /\ Turn.round tn = Round.id self /\ Turn.player tn = player) ->
   Round.play_card self player card turns = (turns, Raise PlayerHasAlreadyPlayed))
  /\
  ((~ exists tn, tn ∈ turns /\ Turn.round tn = Round.id self /\ Turn.player tn = player) ->
   Round.play_card self player card turns
     = (turns ++ [Turn.mk (Round.id self) player (Some card)], Ret tt)).
Proof.
  unfold Round.play_card. rewrite bind_run. cbn [get].
  set (mine := filter (fun tn => Turn.player tn = player) (Round.turn_set self turns)).
  assert (Hmine : forall tn, tn ∈ mine <->
            tn ∈ turns /\ Turn.round tn = Round.id self /\ Turn.player tn = player).
  { intros tn. unfold mine, Round.turn_set. rewrite !list_elem_of_filter. tauto. }
  split.
  - intros (tn & Htn). apply Hmine in Htn.
    rewrite decide_True; [done|].
    destruct mine; [by apply elem_of_nil in Htn|]. unfold len. simpl. lia.
  - intros Hno. rewrite decide_False; [done|].
    destruct mine as [|tn ?]; [unfold len; simpl; lia|].
    exfalso. apply Hno. exists tn. apply Hmine. left.
Qed.

Lemma play_card_once_per_round_witness :
  let r := Round.mk 1 1 1 5 300 600 601 in
  Round.play_card r 2 101 [Turn.mk 1 2 (Some 105)]
    = ([Turn.mk 1 2 (Some 105)], Raise PlayerHasAlreadyPlayed)
  /\ Round.play_card r 3 101 [Turn.mk 1 2 (Some 105)]
    = ([Turn.mk 1 2 (Some 105); Turn.mk 1 3 (Some 101)], Ret tt).
Proof.
  intros r. split.
  - apply (proj1 (play_card_once_per_round r 2 101 [Turn.mk 1 2 (Some 105)])).
    exists (Turn.mk 1 2 (Some 105)). split; [left | split; reflexivity].
  - apply (proj2 (play_card_once_per_round r 3 101 [Turn.mk 1 2 (Some 105)])).
    intros (tn & Htn & _ & Hp). apply list_elem_of_singleton in Htn. subst tn.
    simpl in Hp. lia.
Defined.

(** ** Game: running the primitives *)

Lemma self_run (s : Game.St) : Game.self s = (s, Ret s.1).
Proof. reflexivity. Qed.
Lemma db_run (s : Game.St) : Game.db s = (s, Ret s.2).
Proof. reflexivity. Qed.
Lemma modify_self_run f (s : Game.St) : Game.modify_self f s = ((f s.1, s.2), Ret tt).
Proof. reflexivity. Qed.
Lemma modify_db_run f (s : Game.St) : Game.modify_db f s = ((s.1, f s.2), Ret tt).
Proof. reflexivity. Qed.
Lemma modify_round_run f (s : Game.St) :
  Game.modify_round f s
  = ((Game.set_current_round (f <$> Game.current_round s.1) s.1, s.2), Ret tt).
Proof. reflexivity. Qed.

Lemma on_turns_run {A} (m : M (list Turn.t) A) (s : Game.St) :
  Game.on_turns m s
  = ((s.1, Db.set_turns (m (Db.turns s.2)).1 s.2), (m (Db.turns s.2)).2).
Proof. unfold Game.on_turns, zoom. by destruct (m _). Qed.

Lemma orm_get_run {S A} (rows : list A) (s : S) :
  orm_get rows s =
  (s, match rows with
      | [] => Raise DoesNotExist
      | [row] => Ret row
      | _ :: _ :: _ => Raise MultipleObjectsReturned
      end).
Proof. by destruct rows as [|? [|? ?]]. Qed.

Lemma orm_get_inv_Ret {S A} (rows : list A) (s s' : S) row :
  orm_get rows s = (s', Ret row) -> s' = s /\ rows = [row].
Proof. rewrite orm_get_run. destruct rows as [|? [|? ?]]; naive_solver. Qed.

Lemma load_player_run player (s : Game.St) :
  Game.load_player player s
  = orm_get (filter (fun p => Player.id p = player) (Db.players s.2)) s.
Proof. reflexivity. Qed.

Lemma load_player_inv_Ret player (s s' : Game.St) p :
  Game.load_player player s = (s', Ret p) ->
  s' = s /\ filter (fun p => Player.id p = player) (Db.players s.2) = [p].
Proof. rewrite load_player_run. apply orm_get_inv_Ret. Qed.

(** C2 (the code departs from the specification).  When [_play_card] records the
    play that brings the Turns of the round to the number of players minus
    one, it sets [play_finish] to [asof] and [pick_finish] to [asof] plus
    the pick phase, but [round_finish] to [asof] plus the finish delay: the
    round then finishes before its pick phase does. *)
Theorem _play_card_early_advance_round_finish
    (player card asof : Z) (g g' : Game.t) (d d' : Db.t) (r : Round.t) :
  Game.current_round g = Some r ->
  Game._play_card player card asof (g, d) = ((g', d'), Ret tt) ->
  len (Round.turn_set r (Db.turns d')) + 1 = len (Game.player_set g' d') ->
  exists r',
    Game.current_round g' = Some r' /\
    Round.play_finish r' = asof /\
    Round.pick_finish r' = asof + seconds Game.PICK_PHASE_LENGTH_SECONDS /\
    Round.round_finish r' = asof + seconds Game.FINISH_DELAY_SECONDS /\
    Round.round_finish r' < Round.pick_finish r'.
Proof.
  intros Hr Hrun Hall. unfold Game._play_card in Hrun.
  apply bind_inv_Ret in Hrun as (s1 & p & Hp & Hrun).
  apply load_player_inv_Ret in Hp as [-> _].
  case_decide; [done|].
  apply bind_inv_Ret in Hrun as (s2 & r0 & Hr0 & Hrun).
  unfold Game.current_round_or_fail in Hr0. rewrite bind_run, self_run in Hr0.
  cbn [fst] in Hr0. rewrite Hr in Hr0. injection Hr0 as <- <-.
  apply bind_inv_Ret in Hrun as (s3 & [] & Hturns & Hrun).
  rewrite on_turns_run in Hturns. cbn [fst snd] in Hturns.
  injection Hturns as <- Hret.
  rewrite bind_run, self_run in Hrun. cbn [fst] in Hrun.
  rewrite bind_run, db_run in Hrun. cbn [snd] in Hrun.
  case_decide as Hcount.
  - rewrite modify_round_run in Hrun. cbn [fst snd] in Hrun.
    injection Hrun as <- <-. rewrite Hr. eexists. split; [reflexivity|].
    cbn. unfold seconds, Game.FINISH_DELAY_SECONDS, Game.PICK_PHASE_LENGTH_SECONDS.
    repeat split; lia.
  - injection Hrun as <- <-. done.
Qed.

Lemma _play_card_early_advance_round_finish_witness :
  let czar := Player.mk 1 "a" (Some 1) (Some {[104]}) (Some 0) in
  let p2 := Player.mk 2 "b" (Some 1) (Some {[101; 102]}) (Some 0) in
  let p3 := Player.mk 3 "c" (Some 1) (Some {[103]}) (Some 0) in
  let r := Round.mk 1 1 1 5 (seconds 300) (seconds 600) (seconds 601) in
  let g := Game.mk 1 Game.STARTED (Some 1) (Some r) None None (Some (Queue.mk [2; 3; 1])) in
  let d := Db.mk [czar; p2; p3] [Turn.mk 1 3 (Some 103)] [] 2 [] in
  let out := Game._play_card 2 101 (seconds 20) (g, d) in
  exists r',
    Game.current_round out.1.1 = Some r' /\
    Round.play_finish r' = seconds 20 /\
    Round.pick_finish r' = seconds 20 + seconds Game.PICK_PHASE_LENGTH_SECONDS /\
    Round.round_finish r' = seconds 20 + seconds Game.FINISH_DELAY_SECONDS /\
    Round.round_finish r' < Round.pick_finish r'.
Proof.
  intros czar p2 p3 r g d out.
  apply (_play_card_early_advance_round_finish 2 101 (seconds 20) g out.1.1 d out.1.2 r).
  - reflexivity.
  - vm_compute. reflexivity.
  - vm_compute. reflexivity.
Defined.

(** ** Frame reasoning: what a computation leaves alone *)

Section Preserves.
Context {S : Type} (R : relation S) `{!PreOrder R}.

Lemma preserves_mret {A} (a : A) : preserves R (mret a).
Proof. intros s s' r [= <- _]. reflexivity. Qed.

Lemma preserves_raise {A} e : preserves R (raise e : M S A).
Proof. intros s s' r [= <- _]. reflexivity. Qed.

Lemma preserves_overflow {A} : preserves R (overflow : M S A).
Proof. intros s s' r [= <- _]. reflexivity. Qed.

Lemma preserves_get : preserves R get.
Proof. intros s s' r [= <- _]. reflexivity. Qed.

Lemma preserves_orm_get {A} (rows : list A) : preserves R (orm_get rows).
Proof. intros s s' r. rewrite orm_get_run. intros [= <- _]. reflexivity. Qed.

Lemma preserves_bind {A B} (m : M S A) (k : A -> M S B) :
  preserves R m -> (forall a, preserves R (k a)) -> preserves R (m ≫= k).
Proof.
  intros Hm Hk s s' r. rewrite bind_run.
  destruct (m s) as [s1 [a|e|]] eqn:E; pose proof (Hm _ _ _ E) as H1.
  - intros H2. apply Hk in H2. by etrans.
  - by intros [= <- _].
  - by intros [= <- _].
Qed.

Lemma preserves_for_each {A} (l : list A) (body : A -> M S unit) :
  (forall x, preserves R (body x)) -> preserves R (for_each l body).
Proof.
  intros Hb. induction l as [|x l IH]; simpl.
  - apply preserves_mret.
  - apply preserves_bind; [apply Hb | intros _; apply IH].
Qed.

Lemma preserves_zoom {T A} (proj : S -> T) (inj : T -> S -> S) (m : M T A) :
  (forall s, R s (inj (m (proj s)).1 s)) -> preserves R (zoom proj inj m).
Proof.
  intros H s s' r. unfold zoom. specialize (H s).
  destruct (m (proj s)) as [t r']. intros [= <- _]. done.
Qed.
End Preserves.

#[local] Instance same_turns_preorder : PreOrder same_turns.
Proof.
  split; [done|]. intros x y z H1 H2. unfold same_turns in *. congruence.
Qed.

Lemma same_turns_self : preserves same_turns Game.self.
Proof. by intros s s' r [= <- _]. Qed.

Lemma same_turns_db : preserves same_turns Game.db.
Proof. by intros s s' r [= <- _]. Qed.

Lemma same_turns_modify_self f : preserves same_turns (Game.modify_self f).
Proof. by intros s s' r [= <- _]. Qed.

Lemma same_turns_modify_db f :
  (forall d, Db.turns (f d) = Db.turns d) -> preserves same_turns (Game.modify_db f).
Proof. intros Hf s s' r [= <- _]. apply Hf. Qed.

Lemma same_turns_on_field {T A} field set_field (m : M T A) :
  preserves same_turns (Game.on_field field set_field m).
Proof.
  unfold Game.on_field. apply preserves_bind; [apply _ | apply same_turns_self |].
  intros g. destruct (field g); [|apply preserves_raise; apply _].
  by apply preserves_zoom.
Qed.

Lemma same_turns_on_deque {A} field set_field (m : M Deque.St A) :
  preserves same_turns (Game.on_deque field set_field m).
Proof.
  unfold Game.on_deque. apply preserves_bind; [apply _ | apply same_turns_self |].
  intros g. destruct (field g); [|apply preserves_raise; apply _].
  by apply preserves_zoom.
Qed.

Lemma same_turns_on_turns {A} (m : M (list Turn.t) A) :
  preserves eq m -> preserves same_turns (Game.on_turns m).
Proof.
  intros Hm s s' r. rewrite on_turns_run.
  destruct (m (Db.turns s.2)) as [t r'] eqn:E. apply Hm in E.
  intros [= <- _]. unfold same_turns. simpl. done.
Qed.

Lemma same_turns_load_player p : preserves same_turns (Game.load_player p).
Proof.
  unfold Game.load_player. apply preserves_bind; [apply _ | apply same_turns_db |].
  intros d. apply preserves_orm_get. apply _.
Qed.

(** One step of a frame proof on the shape of the computation. *)
Ltac frame_step :=
  lazymatch goal with
  | |- preserves _ (_ ≫= _) => apply preserves_bind; [apply _ | | intros ?]
  | |- preserves _ (mret _) => apply preserves_mret; apply _
  | |- preserves _ (raise _) => apply preserves_raise; apply _
  | |- preserves _ overflow => apply preserves_overflow; apply _
  | |- preserves _ (orm_get _) => apply preserves_orm_get; apply _
  | |- preserves _ (for_each _ _) => apply preserves_for_each; [apply _ | intros ?]
  | |- preserves _ Game.self => apply same_turns_self
  | |- preserves _ Game.db => apply same_turns_db
  | |- preserves _ (Game.modify_self _) => apply same_turns_modify_self
  | |- preserves _ (Game.modify_round _) => apply same_turns_modify_self
  | |- preserves _ (Game.modify_db _) => apply same_turns_modify_db; intros []; reflexivity
  | |- preserves _ (Game.on_player_queue _) => apply same_turns_on_field
  | |- preserves _ (Game.on_field _ _ _) => apply same_turns_on_field
  | |- preserves _ (Game.on_deque _ _ _) => apply same_turns_on_deque
  | |- preserves _ (Game.load_player _) => apply same_turns_load_player
  | |- preserves _ (if ?c then _ else _) => destruct c
  | |- preserves _ (match ?x with _ => _ end) => destruct x
  end.

Ltac frame := repeat frame_step.

Lemma same_turns__get_winner : preserves same_turns Game._get_winner.
Proof. unfold Game._get_winner. frame. Qed.

Lemma same_turns__repick_host : preserves same_turns Game._repick_host.
Proof. unfold Game._repick_host. frame. Qed.

Lemma same_turns__deal_cards_to_player fuel p :
  preserves same_turns (Game._deal_cards_to_player fuel p).
Proof. unfold Game._deal_cards_to_player. frame. Qed.

Lemma same_turns__deal_cards fuel : preserves same_turns (Game._deal_cards fuel).
Proof.
  unfold Game._deal_cards. frame. apply same_turns__deal_cards_to_player.
Qed.

Lemma same_turns__draw_black_card fuel : preserves same_turns (Game._draw_black_card fuel).
Proof.
  unfold Game._draw_black_card. frame.
  unfold subscript0. frame.
Qed.

Lemma same_turns__start_new_round fuel now :
  preserves same_turns (Game._start_new_round fuel now).
Proof.
  unfold Game._start_new_round. frame;
    first [apply same_turns__draw_black_card | apply same_turns__deal_cards].
Qed.

Lemma same_turns__update_state fuel now :
  preserves same_turns (Game._update_state fuel now).
Proof.
  unfold Game._update_state. frame;
    first [apply same_turns__get_winner | apply same_turns__start_new_round].
Qed.

Lemma remove_player_keeps_table (self : Round.t) player :
  preserves eq (Round.remove_player self player).
Proof.
  unfold Round.remove_player, Round.turn_set_remove.
  intros s s' r. rewrite bind_run. cbn [get].
  case_decide; [by intros [= <- _]|].
  rewrite bind_run, orm_get_run.
  destruct (filter _ _) as [|? [|? ?]]; by intros [= <- _].
Qed.

Lemma same_turns_remove_player fuel now player :
  preserves same_turns (Game.remove_player fuel now player).
Proof.
  unfold Game.remove_player. frame;
    first [ apply same_turns__update_state | apply same_turns__repick_host
          | apply same_turns__start_new_round
          | apply same_turns_on_turns, remove_player_keeps_table ].
Qed.

(** ** Game: a player who has played leaves *)

(** C4 (an example).  Player 2, who is not the czar, has played card 121
    in the current round and is removed during the play phase.  The removal
    ends in [AttributeError]; no Turn of player 2 with a cleared card is
    found afterwards: the one Turn of the table still holds card 121. *)
Lemma remove_player_does_not_clear_card :
  let g := ex_game (ex_round 300 600 601) in
  let d := Db.mk [ex_player 1 "a" 0; ex_player 2 "b" 0; ex_player 3 "c" 0; ex_player 4 "d" 0]
                 [Turn.mk 1 2 (Some 121)] ex_cards 2 [] in
  let out := Game.remove_player 5 (seconds 30) 2 (g, d) in
  out.2 = Raise AttributeError /\
  Db.turns out.1.2 = [Turn.mk 1 2 (Some 121)] /\
  ~ exists tn, tn ∈ Db.turns out.1.2 /\ Turn.round tn = 1 /\ Turn.player tn = 2
               /\ Turn.card tn = None.
Proof.
  intros g d out.
  assert (H : Db.turns out.1.2 = [Turn.mk 1 2 (Some 121)]) by (vm_compute; reflexivity).
  split; [vm_compute; reflexivity|].
  split; [exact H|]. rewrite H. intros (tn & Htn & _ & _ & Hcard).
  apply list_elem_of_singleton in Htn. subst tn. discriminate.
Qed.

(** ** Game: the end of the game *)




(** ** Game: joining *)

Lemma on_field_run {T A} (field : Game.t -> option T) set_field (m : M T A) g d obj :
  field g = Some obj ->
  Game.on_field field set_field m (g, d)
  = ((set_field (Some (m obj).1) g, d), (m obj).2).
Proof.
  intros H. unfold Game.on_field. rewrite bind_run, self_run. cbn [fst snd].
  rewrite H. unfold zoom. by destruct (m obj).
Qed.

Lemma on_deque_run {A} (field : Game.t -> option Deque.t) set_field
    (m : M Deque.St A) g d obj :
  field g = Some obj ->
  Game.on_deque field set_field m (g, d)
  = ((set_field (Some (m (obj, Db.rng d)).1.1) g,
      Db.set_rng (m (obj, Db.rng d)).1.2 d),
     (m (obj, Db.rng d)).2).
Proof.
  intros H. unfold Game.on_deque. rewrite bind_run, self_run. cbn [fst snd].
  rewrite H. unfold zoom. cbn [fst snd]. by destruct (m _) as [[? ?] ?].
Qed.

(** Saving a row and reading it back. *)
Lemma load_saved_player (pid : Z) (p p' : Player.t) (d : Db.t) :
  filter (fun q => Player.id q = pid) (Db.players d) = [p] ->
  Player.id p' = pid ->
  filter (fun q => Player.id q = pid) (Db.players (Db.save_player p' d)) = [p'].
Proof.
  intros Hp Hid. unfold Db.save_player. cbn [Db.set_players Db.players].
  assert (Hgen : forall l,
    filter (fun q => Player.id q = pid)
      (map (fun q => if decide (Player.id q = Player.id p') then p' else q) l)
    = (fun _ => p') <$> filter (fun q => Player.id q = pid) l).
  { induction l as [|a l IH]; [done|]. cbn [map].
    rewrite Hid. destruct (decide (Player.id a = pid)) as [Ha|Ha].
    - rewrite !filter_cons_True by done. rewrite fmap_cons. f_equal.
      rewrite <- IH. by rewrite Hid.
    - rewrite !filter_cons_False by done. rewrite <- IH. by rewrite Hid. }
  by rewrite Hgen, Hp.
Qed.

(** C9 (counterexample).  Game 1 is CREATED and has no round; player 2
    joins it with no hand and holds ten white cards afterwards. *)
Lemma add_player_deals_without_round :
  let host := Player.mk 1 "a" (Some 1) (Some (ex_hand 101)) (Some 0) in
  let joiner := Player.mk 2 "b" None None None in
  let g := Game.mk 1 Game.CREATED (Some 1) None
             (Some (Deque.mk [1; 2; 3] [2; 3; 1] 3))
             (Some (Deque.mk (seqZ 111 12) (seqZ 111 12) 12))
             (Some (Queue.mk [1])) in
  let d := Db.mk [host; joiner] [] ex_cards 1 [] in
  let out := Game.add_player 5 0 2 (g, d) in
  out.2 = Ret tt /\
  Game.status out.1.1 = Game.CREATED /\
  Game.current_round out.1.1 = None /\
  (fun p => (Player.id p, base.size <$> Player.current_hand p)) <$> Db.players out.1.2
    = [(1, Some 10%nat); (2, Some 10%nat)].
Proof. vm_compute. repeat split; reflexivity. Qed.

(** ** Deque: more on [_remove_cards] and [draw_cards] *)

Lemma keep_unpopped_sublist l : forall c, sublist (Deque.keep_unpopped c l).1 l.
Proof.
  induction l as [|x l IH]; intros c; simpl; [done|].
  destruct (Deque.try_pop c x) as [b c1].
  specialize (IH c1). destruct (Deque.keep_unpopped c1 l) as [kept c2].
  simpl in *. destruct b; by constructor.
Qed.

(** X1.  [_remove_cards] succeeds exactly when the cards to remove are a
    sub-multiset of the pool.  It then takes them out one occurrence each,
    keeps the other cards in their order and leaves the draw order alone;
    otherwise it raises [CardNotInDequeError] and changes nothing. *)
Theorem _remove_cards_spec (rem : list Z) (d : Deque.t) :
  (msub rem (Deque.cards d) /\
   exists new,
     Deque._remove_cards rem d
       = (Deque.mk new (Deque.deque d) (Deque.size d - distinct rem), Ret tt)
     /\ Deque.cards d ≡ₚ rem ++ new
     /\ sublist new (Deque.cards d))
  \/ (~ msub rem (Deque.cards d) /\
      Deque._remove_cards rem d = (d, Raise CardNotInDequeError)).
Proof.
  destruct (_remove_cards_cases rem d) as [(Hsub & new & E & Hp)|H]; [left | by right].
  split; [done|]. exists new. split; [done|]. split; [done|].
  pose proof (keep_unpopped_sublist (Deque.cards d) (Counter rem)) as Hs.
  unfold Deque._remove_cards in E. rewrite bind_run in E. cbn [get] in E.
  destruct (Deque.keep_unpopped (Counter rem) (Deque.cards d)) as [new' c'].
  case_decide; [done|]. injection E as <-. done.
Qed.

(** X3.  A [draw_cards] that returns, asked for [n >= 0] cards, returns
    exactly [n] cards, whatever the state of the deque. *)
Theorem draw_cards_returns_n (fuel : nat) : forall (n : Z) (s s' : Deque.St) (drawn : list Z),
  0 <= n ->
  Deque.draw_cards fuel n s = (s', Ret drawn) ->
  len drawn = n.
Proof.
  induction fuel as [|fuel IH]; intros n [d rng] s' drawn Hn; [done|].
  rewrite draw_cards_step.
  destruct (decide (n > Deque.size d)); [done|].
  destruct (decide (len (Deque.deque d) > n)).
  - destruct (Deque._remove_cards _ d) as [d1 [[]|e|]]; [|done|done].
    intros [= _ <-]. apply len_slice_to. lia.
  - destruct (Deque._remove_cards _ d) as [d1 [[]|e|]]; [|done|done].
    destruct (Deque.shuffle (d1, rng)) as [s2 [[]|e|]]; [|done|done].
    destruct (decide (len (Deque.deque d) < n)).
    + destruct (Deque.draw_cards fuel _ s2) as [s3 [more|e|]] eqn:E; [|done|done].
      intros [= _ <-]. apply IH in E; [|lia]. rewrite len_app. lia.
    + intros [= _ <-]. lia.
Qed.

Lemma draw_cards_returns_n_witness :
  let out := Deque.draw_cards 3 2 (Deque.mk [4; 5; 6] [6; 4] 3, [1%nat]) in
  out.2 = Ret [6; 4] /\ len [6; 4] = 2.
Proof.
  intros out. split; [reflexivity|].
  apply (draw_cards_returns_n 3 2 (Deque.mk [4; 5; 6] [6; 4] 3, [1%nat]) out.1 [6; 4]).
  - lia.
  - vm_compute. reflexivity.
Defined.

(** X2.  [shuffle] puts a permutation of the pool into the draw order and
    leaves the pool and [size] as they are, whatever the random source
    yields. *)
Theorem shuffle_permutes_pool (d : Deque.t) (rng : Rng) :
  exists rng' new_deque,
    Deque.shuffle (d, rng)
      = ((Deque.mk (Deque.cards d) new_deque (Deque.size d), rng'), Ret tt)
    /\ new_deque ≡ₚ Deque.cards d
    /\ len new_deque = len (Deque.cards d).
Proof.
  destruct (shuffle_spec d rng) as (rng' & nd & E & Hp).
  exists rng', nd. split; [done|]. split; [done|]. by apply len_Permutation.
Qed.

(** X4.  [draw_cards] raises [NotEnoughCardsError] exactly when more than
    [size] cards are asked for, and a draw that raises, with either error,
    has changed neither the deque nor the random source. *)
Theorem draw_cards_failure_is_atomic (fuel : nat) (n : Z) (s : Deque.St) :
  (n > Deque.size s.1 <->
   Deque.draw_cards (S fuel) n s = (s, Raise NotEnoughCardsError))
  /\
  (forall s' e, Deque.draw_cards (S fuel) n s = (s', Raise e) ->
                s' = s /\ (e = NotEnoughCardsError \/ e = CardNotInDequeError)).
Proof.
  split.
  - split.
    + intros H. destruct s as [d rng]. by apply draw_cards_not_enough.
    + intros H. apply draw_cards_raise_unchanged in H as [_ [[_ H]|[H _]]]; [done|].
      discriminate.
  - intros s' e H. apply draw_cards_raise_unchanged in H as [-> H].
    split; [done|]. destruct H as [[-> _]|[-> _]]; auto.
Qed.

(** X5.  On a deque whose draw order lies within the pool, a draw of
    [n] cards with [0 <= n <= |pool|] and [n <= size] returns, within two
    levels of recursion: it returns [n] cards, the old pool is the drawn
    cards together with the new pool, the new draw order lies within the
    new pool, and [size] goes down by at most [n], by exactly [n] when the
    pool had no duplicates. *)
Theorem draw_cards_total (fuel : nat) (n : Z) (d : Deque.t) (rng : Rng) :
  msub (Deque.deque d) (Deque.cards d) ->
  0 <= n <= len (Deque.cards d) ->
  n <= Deque.size d ->
  exists drawn d' rng',
    Deque.draw_cards (S (S fuel)) n (d, rng) = ((d', rng'), Ret drawn) /\
    len drawn = n /\
    Deque.cards d ≡ₚ drawn ++ Deque.cards d' /\
    msub (Deque.deque d') (Deque.cards d') /\
    Deque.size d - n <= Deque.size d' <= Deque.size d /\
    (NoDup (Deque.cards d) -> Deque.size d' = Deque.size d - n).
Proof. intros. by apply draw_cards_ok. Qed.

Lemma draw_cards_total_witness :
  exists drawn d' rng',
    Deque.draw_cards 2 3 (Deque.mk [4; 2; 1; 3] [4; 2] 4, [7; 2; 5]%nat)
      = ((d', rng'), Ret drawn) /\
    len drawn = 3 /\
    [4; 2; 1; 3] ≡ₚ drawn ++ Deque.cards d' /\
    msub (Deque.deque d') (Deque.cards d') /\
    4 - 3 <= Deque.size d' <= 4 /\
    (NoDup [4; 2; 1; 3] -> Deque.size d' = 4 - 3).
Proof.
  apply (draw_cards_total 0 3 (Deque.mk [4; 2; 1; 3] [4; 2] 4) [7; 2; 5]%nat).
  - apply (msub_app_l [4; 2] [1; 3]).
  - vm_compute. split; congruence.
  - simpl. lia.
Defined.

(** X6.  Drawing the whole pool at once returns a permutation of the pool
    and leaves the pool and the draw order empty. *)
Theorem draw_cards_whole_pool (fuel : nat) (d : Deque.t) (rng : Rng) :
  deque_inv d ->
  exists drawn d' rng',
    Deque.draw_cards (S (S fuel)) (len (Deque.cards d)) (d, rng)
      = ((d', rng'), Ret drawn) /\
    drawn ≡ₚ Deque.cards d /\
    Deque.cards d' = [] /\ Deque.deque d' = [].
Proof.
  intros [Hsub Hsize].
  destruct (draw_cards_ok fuel (len (Deque.cards d)) d rng)
    as (drawn & d' & rng' & E & Hl & Hp & Hsub' & _); [done | | done |].
  { pose proof (len_nonneg (Deque.cards d)). lia. }
  exists drawn, d', rng'. split; [done|].
  assert (Hnil : Deque.cards d' = []).
  { apply len_Permutation in Hp. rewrite len_app in Hp.
    destruct (Deque.cards d'); [done|]. unfold len in *. simpl in *. lia. }
  rewrite Hnil in Hp, Hsub'. rewrite app_nil_r in Hp. split; [done|]. split; [done|].
  destruct (Deque.deque d') as [|x l]; [done|].
  specialize (Hsub' x). rewrite occ_cons, occ_nil, decide_True in Hsub' by done.
  pose proof (occ_nonneg x l). lia.
Qed.

Lemma draw_cards_whole_pool_witness :
  exists drawn d' rng',
    Deque.draw_cards 2 3 (Deque.mk [6; 5; 5] [6; 5] 3, [1%nat]) = ((d', rng'), Ret drawn) /\
    drawn ≡ₚ [6; 5; 5] /\
    Deque.cards d' = [] /\ Deque.deque d' = [].
Proof.
  apply (draw_cards_whole_pool 0 (Deque.mk [6; 5; 5] [6; 5] 3) [1%nat]).
  split.
  - apply (msub_app_l [6; 5] [5]).
  - vm_compute. congruence.
Defined.

(** [add_cards] always returns; what it leaves. *)
Lemma add_cards_run l d :
  Deque.add_cards l d
  = (Deque.mk (Deque.cards d ++ l) (Deque.deque d) (Deque.size d + len l), Ret tt).
Proof. reflexivity. Qed.

Lemma draw_cards_keeps_inv (fuel : nat) : forall n s,
  deque_inv s.1 -> deque_inv (Deque.draw_cards fuel n s).1.1.
Proof.
  induction fuel as [|fuel IH]; intros n [d rng] Hinv; [done|].
  destruct Hinv as [Hsub Hsize]. cbn [fst] in Hsub, Hsize.
  rewrite draw_cards_step.
  destruct (decide (n > Deque.size d)); [by split|].
  destruct (decide (len (Deque.deque d) > n)).
  - destruct (_remove_cards_cases (slice_to n (Deque.deque d)) d)
      as [(_ & new & -> & Hp)|(_ & ->)]; [|by split].
    cbn [fst]. split; cbn [Deque.deque Deque.cards Deque.size].
    + apply (msub_app_inv (slice_to n (Deque.deque d))).
      rewrite slice_to_from. eapply msub_trans; [exact Hsub|]. by apply Permutation_msub.
    + apply len_Permutation in Hp. rewrite len_app in Hp.
      pose proof (distinct_le_len (slice_to n (Deque.deque d))). lia.
  - destruct (_remove_cards_cases (Deque.deque d) d)
      as [(_ & new & -> & Hp)|(_ & ->)]; [|by split].
    destruct (shuffle_spec (Deque.mk new (Deque.deque d)
                (Deque.size d - distinct (Deque.deque d))) rng)
      as (rng' & nd & -> & Hnd).
    cbn [Deque.deque Deque.cards Deque.size] in *.
    assert (Hinv2 : deque_inv (Deque.mk new nd (Deque.size d - distinct (Deque.deque d)))).
    { split; cbn [Deque.deque Deque.cards Deque.size].
      - by apply Permutation_msub.
      - apply len_Permutation in Hp. rewrite len_app in Hp.
        pose proof (distinct_le_len (Deque.deque d)). lia. }
    destruct (decide (len (Deque.deque d) < n)); [|done].
    specialize (IH (n - len (Deque.deque d))
                   (Deque.mk new nd (Deque.size d - distinct (Deque.deque d)), rng') Hinv2).
    by destruct (Deque.draw_cards fuel _ _) as [s3 [more|e|]].
Qed.

Lemma deque_step_inv (s s' : Deque.St) :
  deque_step s s' -> deque_inv s.1 -> deque_inv s'.1.
Proof.
  intros Hstep Hinv. destruct Hstep as [l d rng | [d rng] | fuel n s].
  - destruct Hinv as [Hsub Hsize]. rewrite add_cards_run. cbn [fst] in *.
    split; cbn [Deque.deque Deque.cards Deque.size].
    + eapply msub_trans; [exact Hsub | apply msub_app_l].
    + rewrite len_app. lia.
  - destruct (shuffle_spec d rng) as (rng' & nd & -> & Hnd). cbn [fst] in *.
    destruct Hinv as [_ Hsize]. split; cbn [Deque.deque Deque.cards Deque.size]; [|done].
    by apply Permutation_msub.
  - by apply draw_cards_keeps_inv.
Qed.

Lemma deque_steps_inv (s0 s : Deque.St) :
  rtc deque_step s0 s -> deque_inv s0.1 -> deque_inv s.1.
Proof.
  induction 1 as [|x y z Hxy _ IH]; [done|].
  intros Hx. apply IH. by eapply deque_step_inv.
Qed.

(** X7.  Any sequence of calls of [add_cards], [shuffle] and [draw_cards],
    with any arguments and whatever their outcomes, keeps the draw order
    within the pool and [size] at or above the number of cards of the
    pool. *)
Theorem deque_calls_keep_inv (s0 s : Deque.St) :
  rtc deque_step s0 s -> deque_inv s0.1 -> deque_inv s.1.
Proof. apply deque_steps_inv. Qed.

Lemma deque_calls_keep_inv_witness :
  deque_inv (Deque.draw_cards 2 2 (Deque.mk [1; 1; 1] [1; 1; 1] 3, [])).1.1.
Proof.
  apply (deque_calls_keep_inv (Deque.mk [1; 1; 1] [1; 1; 1] 3, [])).
  - eapply rtc_l; [|apply rtc_refl]. apply step_draw_cards.
  - split.
    + apply msub_refl.
    + vm_compute. congruence.
Defined.

(** X8.  A deque built from [Deque.objects.create()] by calls of
    [add_cards], [shuffle] and [draw_cards] never makes [draw_cards] raise
    [CardNotInDequeError]. *)
Theorem draw_cards_never_card_not_in_deque
    (rng0 : Rng) (s s' : Deque.St) (fuel : nat) (n : Z) :
  rtc deque_step (Deque.create, rng0) s ->
  Deque.draw_cards fuel n s <> (s', Raise CardNotInDequeError).
Proof.
  intros Hreach.
  assert (Hinv : deque_inv s.1).
  { apply (deque_steps_inv _ _ Hreach).
    split; [apply msub_refl | by vm_compute]. }
  destruct s as [d rng]. destruct Hinv as [Hsub _]. cbn [fst] in Hsub.
  intros E. pose proof E as E'.
  apply draw_cards_raise_unchanged in E' as [-> _].
  destruct fuel as [|fuel]; [done|].
  rewrite draw_cards_step in E.
  destruct (decide (n > Deque.size d)); [by simplify_eq|].
  destruct (decide (len (Deque.deque d) > n)).
  - destruct (_remove_cards_ok (slice_to n (Deque.deque d)) d) as (new & Hr & _).
    { eapply msub_trans; [apply msub_take | done]. }
    rewrite Hr in E. by simplify_eq.
  - destruct (_remove_cards_ok (Deque.deque d) d) as (new & Hr & Hp); [done|].
    rewrite Hr in E.
    destruct (shuffle_spec (Deque.mk new (Deque.deque d)
                (Deque.size d - distinct (Deque.deque d))) rng)
      as (rng' & nd & Hs & Hnd).
    rewrite Hs in E.
    destruct (decide (len (Deque.deque d) < n)); [|by simplify_eq].
    destruct (Deque.draw_cards fuel _ _) as [s3 [more|e|]] eqn:E2;
      [by simplify_eq | | by simplify_eq].
    eapply draw_cards_synced_no_raise; [ | | exact E2]; simpl; [done|].
    pose proof (distinct_le_len (Deque.deque d)). lia.
Qed.

Lemma draw_cards_never_card_not_in_deque_witness :
  Deque.draw_cards 3 1 ((Deque.add_cards [8; 9] Deque.create).1, [])
    <> (((Deque.add_cards [8; 9] Deque.create).1, []), Raise CardNotInDequeError).
Proof.
  apply (draw_cards_never_card_not_in_deque []).
  eapply rtc_l; [|apply rtc_refl]. apply (step_add_cards [8; 9] Deque.create []).
Defined.

(** ** Queue: first in, first out *)

Lemma for_each_add_item (l : list Z) : forall q,
  for_each l Queue.add_item q = (Queue.mk (Queue.items q ++ l), Ret tt).
Proof.
  induction l as [|x l IH]; intros [items]; cbn [for_each].
  - cbn. by rewrite app_nil_r.
  - rewrite bind_run.
    change (Queue.add_item x (Queue.mk items))
      with (Queue.mk (items ++ [x]), Ret tt : Res unit).
    cbn iota. rewrite IH. cbn [Queue.items]. by rewrite <- (assoc_L (++)).
Qed.

(** X9.  Items pushed on an empty queue come back from [pop_item] in the
    order they were pushed, and the pop after the last one returns [None]
    and leaves the queue empty. *)
Theorem queue_is_fifo (l : list Z) :
  (for_each l Queue.add_item;; pops (S (length l))) Queue.create
  = (Queue.create, Ret ((Some <$> l) ++ [None])).
Proof.
  rewrite bind_run, for_each_add_item. cbn [Queue.items Queue.create app].
  assert (H : forall l', pops (S (length l')) (Queue.mk l')
                         = (Queue.create, Ret ((Some <$> l') ++ [None]))).
  { induction l' as [|x l' IH]; [reflexivity|].
    change (pops (S (length (x :: l'))) (Queue.mk (x :: l')))
      with (match pops (S (length l')) (Queue.mk l') with
            | (s', Ret xs) => (s', Ret (Some x :: xs))
            | (s', Raise e) => (s', Raise e)
            | (s', Overflow) => (s', Overflow)
            end).
    by rewrite IH. }
  apply H.
Qed.

Lemma rotate_cons x l : rotate (Queue.mk (x :: l)) = (Queue.mk (l ++ [x]), Ret (Some x)).
Proof. reflexivity. Qed.

Lemma rotations_run (k : nat) : forall l,
  (k <= length l)%nat ->
  rotations k (Queue.mk l) = (Queue.mk (drop k l ++ take k l), Ret (Some <$> take k l)).
Proof.
  induction k as [|k IH]; intros l Hk.
  - simpl. by rewrite drop_0, app_nil_r.
  - destruct l as [|x l]; simpl in Hk; [lia|].
    cbn [rotations]. rewrite bind_run, rotate_cons.
    rewrite bind_run, IH by (rewrite length_app; simpl; lia).
    cbn [mret M_ret]. rewrite drop_app_le, take_app_le by lia.
    cbn [drop take fmap list_fmap]. by rewrite <- (assoc_L (++)).
Qed.

(** X10.  Popping the head and pushing it back, as [_start_new_round] does
    for the czar, serves the items in queue order and, after as many
    rotations as there are items, leaves the queue as it was. *)
Theorem rotation_is_round_robin (l : list Z) :
  rotations (length l) (Queue.mk l) = (Queue.mk l, Ret (Some <$> l)).
Proof.
  rewrite rotations_run by lia. by rewrite drop_all, firstn_all.
Qed.

(** ** Round: phases and Turns *)

(** X11.  The phase of a round never goes back as time goes on, whatever
    its three timestamps; at the very instant [play_finish] the round is
    still in PLAY, and it is FINISHED only after all three instants. *)
Theorem get_state_monotone (now : Z) (r : Round.t) (asof1 asof2 : Z) :
  asof1 <= asof2 ->
  Round.value (Round.get_state now (Some asof1) r)
    <= Round.value (Round.get_state now (Some asof2) r)
  /\ Round.get_state now (Some (Round.play_finish r)) r = Round.PLAY
  /\ (Round.get_state now (Some asof1) r = Round.FINISHED <->
      Round.play_finish r < asof1 /\ Round.pick_finish r < asof1
      /\ Round.round_finish r < asof1).
Proof.
  intros H. unfold Round.get_state. split; [|split].
  - repeat case_decide; simpl; lia.
  - by rewrite decide_True by lia.
  - repeat case_decide; split; try done; try lia; intros; lia.
Qed.

Lemma get_state_monotone_witness :
  let r := Round.mk 1 1 1 5 (seconds 300) (seconds 600) (seconds 601) in
  Round.value (Round.get_state 0 (Some (seconds 300)) r)
    <= Round.value (Round.get_state 0 (Some (seconds 300 + 1)) r)
  /\ Round.get_state 0 (Some (Round.play_finish r)) r = Round.PLAY
  /\ (Round.get_state 0 (Some (seconds 300)) r = Round.FINISHED <->
      Round.play_finish r < seconds 300 /\ Round.pick_finish r < seconds 300
      /\ Round.round_finish r < seconds 300).
Proof.
  intros r. apply (get_state_monotone 0 r (seconds 300) (seconds 300 + 1)). lia.
Defined.

(** X12.  [Round.play_card] keeps the Turn table free of a second Turn of
    one player in one round, whether it adds the Turn or raises. *)
Theorem play_card_keeps_turns_unique
    (self : Round.t) (player card : Z) (turns : list Turn.t) :
  turns_unique turns ->
  turns_unique (Round.play_card self player card turns).1.
Proof.
  intros Hu. unfold Round.play_card. rewrite bind_run. cbn [get].
  destruct (filter (fun tn => Turn.player tn = player) (Round.turn_set self turns))
    as [|tn0 rest] eqn:E.
  - rewrite decide_False by (unfold len; simpl; lia).
    cbn. unfold turns_unique in *. rewrite map_app. apply NoDup_app.
    split; [done|]. split; [|apply NoDup_singleton].
    intros [rd pl] Hin Hnew. apply list_elem_of_singleton in Hnew.
    injection Hnew as -> ->.
    apply list_elem_of_fmap in Hin as (tn & Heq & Hin). injection Heq as Hr Hp.
    assert (Hin' : tn ∈ filter (fun tn => Turn.player tn = player)
                     (Round.turn_set self turns)).
    { unfold Round.turn_set. by rewrite !list_elem_of_filter. }
    rewrite E in Hin'. by apply elem_of_nil in Hin'.
  - rewrite decide_True by (unfold len; simpl; lia). done.
Qed.

Lemma play_card_keeps_turns_unique_witness :
  let r := Round.mk 1 1 1 5 300 600 601 in
  turns_unique (Round.play_card r 3 101 [Turn.mk 1 2 (Some 105)]).1.
Proof.
  intros r. apply (play_card_keeps_turns_unique r 3 101 [Turn.mk 1 2 (Some 105)]).
  unfold turns_unique. simpl. apply NoDup_singleton.
Defined.

(** ** Game: the reconciliation *)

Lemma new_deque_run (g : Game.t) (d : Db.t) (ids : list Z)
    (field : Game.t -> option Deque.t) set_field :
  (forall x g, field (set_field x g) = x) ->
  exists dq rng',
    (Game.modify_self (set_field (Some Deque.create));;
     Game.on_deque field set_field
       (Deque.on_self (Deque.add_cards ids);; Deque.shuffle)) (g, d)
    = ((set_field (Some dq) (set_field (Some Deque.create) g), Db.set_rng rng' d), Ret tt)
    /\ fresh_deque ids dq.
Proof.
  intros Hfield.
  destruct (shuffle_spec (Deque.mk ids [] (len ids)) (Db.rng d))
    as (rng' & nd & Hsh & Hnd).
  exists (Deque.mk ids nd (len ids)), rng'. split; [|done].
  rewrite bind_run, modify_self_run. cbn [fst snd].
  rewrite (on_deque_run field set_field _ _ d Deque.create) by apply Hfield.
  assert (E : (Deque.on_self (Deque.add_cards ids);; Deque.shuffle) (Deque.create, Db.rng d)
              = ((Deque.mk ids nd (len ids), rng'), Ret tt)).
  { rewrite bind_run, on_self_run, add_cards_run. cbn [fst snd].
    change (Deque.cards Deque.create ++ ids) with ids.
    change (Deque.deque Deque.create) with (@nil Z).
    change (Deque.size Deque.create + len ids) with (len ids).
    exact Hsh. }
  rewrite E. reflexivity.
Qed.

Lemma ensure_deque_run (g : Game.t) (d : Db.t) (ids : list Z)
    (field : Game.t -> option Deque.t) set_field :
  (forall x g, field (set_field x g) = x) ->
  exists g' rng',
    (if decide (field g = None) then
       Game.modify_self (set_field (Some Deque.create));;
       Game.on_deque field set_field
         (Deque.on_self (Deque.add_cards ids);; Deque.shuffle)
     else mret tt) (g, d)
    = ((g', Db.set_rng rng' d), Ret tt)
    /\ deque_after (field g) ids (field g')
    /\ (g' = g \/ exists dq, g' = set_field (Some dq) (set_field (Some Deque.create) g)).
Proof.
  intros Hfield. destruct (decide (field g = None)) as [Hn|Hs].
  - destruct (new_deque_run g d ids field set_field Hfield) as (dq & rng' & E & Hfresh).
    eexists _, rng'. split; [exact E|]. split.
    + rewrite Hn, Hfield. simpl. eauto.
    + right. eauto.
  - exists g, (Db.rng d). split; [by destruct d|]. split; [|by left].
    destruct (field g); [done|congruence].
Qed.

Lemma _update_state_no_round_due (fuel : nat) (now : Z) (g : Game.t) (d : Db.t) :
  ~ round_due now g ->
  exists g' rng',
    Game._update_state fuel now (g, d) = ((g', Db.set_rng rng' d), Ret tt) /\
    Game.id g' = Game.id g /\
    Game.status g' = Game.status g /\
    Game.host g' = Game.host g /\
    Game.current_round g' = Game.current_round g /\
    Game.player_queue g' = Some (default Queue.create (Game.player_queue g)) /\
    deque_after (Game.black_deque g) (card_ids true d) (Game.black_deque g') /\
    deque_after (Game.white_deque g) (card_ids false d) (Game.white_deque g').
Proof.
  intros Hdue.
  set (g1 := if decide (Game.player_queue g = None)
             then Game.set_player_queue (Some Queue.create) g else g).
  assert (Hq : (if decide (Game.player_queue g = None)
                then Game.modify_self (Game.set_player_queue (Some Queue.create))
                else mret tt) (g, d) = ((g1, d), Ret tt)).
  { unfold g1. by case_decide. }
  assert (Hg1 : Game.id g1 = Game.id g /\ Game.status g1 = Game.status g /\
                Game.host g1 = Game.host g /\
                Game.current_round g1 = Game.current_round g /\
                Game.black_deque g1 = Game.black_deque g /\
                Game.white_deque g1 = Game.white_deque g /\
                Game.player_queue g1 = Some (default Queue.create (Game.player_queue g))).
  { unfold g1. case_decide as Hc; [by rewrite Hc|].
    destruct (Game.player_queue g); [done|congruence]. }
  destruct Hg1 as (Hid1 & Hst1 & Hh1 & Hr1 & Hb1 & Hw1 & Hq1).
  destruct (ensure_deque_run g1 d (card_ids true d) Game.black_deque Game.set_black_deque)
    as (g2 & rng2 & E2 & Hda2 & Hg2); [done|].
  destruct (ensure_deque_run g2 (Db.set_rng rng2 d) (card_ids false d)
              Game.white_deque Game.set_white_deque)
    as (g3 & rng3 & E3 & Hda3 & Hg3); [done|].
  assert (Hg2' : Game.id g2 = Game.id g1 /\ Game.status g2 = Game.status g1 /\
                 Game.host g2 = Game.host g1 /\
                 Game.current_round g2 = Game.current_round g1 /\
                 Game.white_deque g2 = Game.white_deque g1 /\
                 Game.player_queue g2 = Game.player_queue g1).
  { by destruct Hg2 as [->|[dq ->]]. }
  assert (Hg3' : Game.id g3 = Game.id g2 /\ Game.status g3 = Game.status g2 /\
                 Game.host g3 = Game.host g2 /\
                 Game.current_round g3 = Game.current_round g2 /\
                 Game.black_deque g3 = Game.black_deque g2 /\
                 Game.player_queue g3 = Game.player_queue g2).
  { by destruct Hg3 as [->|[dq ->]]. }
  destruct Hg2' as (Hid2 & Hst2 & Hh2 & Hr2 & Hw2 & Hq2).
  destruct Hg3' as (Hid3 & Hst3 & Hh3 & Hr3 & Hb3 & Hq3).
  exists g3, rng3. split.
  - unfold Game._update_state.
    rewrite bind_run, self_run. cbn [fst snd].
    rewrite bind_run, Hq.
    rewrite bind_run, self_run. cbn [fst snd].
    rewrite bind_run.
    assert (Hskip : match Game.current_round g1 return M Game.St bool with
                    | Some r =>
                        if decide (Game.status g1 = Game.STARTED
                                   ∧ Round.get_state now None r = Round.FINISHED)
                        then
                          winner ← Game._get_winner;
                          match winner with
                          | Some _ => Game.modify_self (Game.set_status Game.FINISHED);; mret true
                          | None => Game._start_new_round fuel now;; mret false
                          end
                        else mret false
                    | None => mret false
                    end (g1, d) = ((g1, d), Ret false)).
    { destruct (Game.current_round g1) as [r|] eqn:Er; [|done].
      rewrite decide_False; [done|]. intros [Hs Hf]. apply Hdue. split; [congruence|].
      exists r. split; [congruence | done]. }
    rewrite Hskip.
    rewrite bind_run, self_run. cbn [fst snd]. rewrite bind_run, db_run. cbn [fst snd].
    rewrite bind_run. fold (card_ids true d). rewrite E2.
    rewrite bind_run, self_run. cbn [fst snd]. rewrite bind_run, db_run. cbn [fst snd].
    change (map Card.id (filter (fun c => Card.is_black c = false)
                           (Db.card_table (Db.set_rng rng2 d))))
      with (card_ids false d).
    rewrite E3. by destruct d.
  - split_and!; congruence.
Qed.

(** X13.  When no finished round is waiting, the reconciliation always
    returns.  It keeps the status, the host, the round, and every table of
    the database; it creates the queue if there was none, and each deque
    that was missing is built from the ids of the cards of its colour, with
    a shuffle of them as draw order; a deque that was there is kept. *)
Theorem _update_state_lazy_init (fuel : nat) (now : Z) (g : Game.t) (d : Db.t) :
  ~ round_due now g ->
  exists g' d',
    Game._update_state fuel now (g, d) = ((g', d'), Ret tt) /\
    (Game.id g' = Game.id g /\ Game.status g' = Game.status g /\
     Game.host g' = Game.host g /\ Game.current_round g' = Game.current_round g) /\
    (Db.players d' = Db.players d /\ Db.turns d' = Db.turns d /\
     Db.card_table d' = Db.card_table d /\ Db.next_round_id d' = Db.next_round_id d) /\
    Game.player_queue g' = Some (default Queue.create (Game.player_queue g)) /\
    deque_after (Game.black_deque g) (card_ids true d) (Game.black_deque g') /\
    deque_after (Game.white_deque g) (card_ids false d) (Game.white_deque g').
Proof.
  intros Hdue.
  destruct (_update_state_no_round_due fuel now g d Hdue)
    as (g' & rng' & E & Hid & Hst & Hh & Hr & Hq & Hb & Hw).
  exists g', (Db.set_rng rng' d). by split_and!.
Qed.

Lemma _update_state_lazy_init_witness :
  let g := Game.create 1 1 in
  let d := Db.mk [Player.mk 1 "a" None None None] [] ex_cards 1 [3; 1]%nat in
  exists g' d',
    Game._update_state 0 0 (g, d) = ((g', d'), Ret tt) /\
    (Game.id g' = Game.id g /\ Game.status g' = Game.status g /\
     Game.host g' = Game.host g /\ Game.current_round g' = Game.current_round g) /\
    (Db.players d' = Db.players d /\ Db.turns d' = Db.turns d /\
     Db.card_table d' = Db.card_table d /\ Db.next_round_id d' = Db.next_round_id d) /\
    Game.player_queue g' = Some (default Queue.create (Game.player_queue g)) /\
    deque_after (Game.black_deque g) (card_ids true d) (Game.black_deque g') /\
    deque_after (Game.white_deque g) (card_ids false d) (Game.white_deque g').
Proof.
  intros g d. apply (_update_state_lazy_init 0 0 g d).
  intros [Hst _]. discriminate.
Defined.

(** The reconciliation of a game that has its queue and deques and no
    finished round waiting does nothing. *)
Lemma _update_state_settled (fuel : nat) (now : Z) (g : Game.t) (d : Db.t) :
  ~ round_due now g ->
  Game.player_queue g ≠ None -> Game.black_deque g ≠ None -> Game.white_deque g ≠ None ->
  Game._update_state fuel now (g, d) = ((g, d), Ret tt).
Proof.
  intros Hdue Hq Hb Hw.
  destruct (_update_state_no_round_due fuel now g d Hdue)
    as (g' & rng' & E & Hid & Hst & Hh & Hr & Hq' & Hb' & Hw').
  destruct (Game.player_queue g) as [q|] eqn:Eq; [|done].
  destruct (Game.black_deque g) as [bd|] eqn:Eb; [|done].
  destruct (Game.white_deque g) as [wd|] eqn:Ew; [|done].
  simpl in *.
  assert (g' = g) as ->.
  { destruct g, g'. simpl in *. congruence. }
  rewrite E. f_equal. f_equal.
  (* the random source: no deque was built, so no shuffle ran *)
  unfold Game._update_state in E.
  rewrite bind_run, self_run in E. cbn [fst snd] in E.
  rewrite Eq in E. rewrite decide_False in E by done.
  rewrite bind_run in E. cbn [mret M_ret] in E.
  rewrite bind_run, self_run in E. cbn [fst snd] in E.
  rewrite bind_run in E.
  destruct (Game.current_round g) as [r|] eqn:Er.
  - rewrite decide_False in E.
    2:{ intros [Hs Hf]. apply Hdue. split; [done|]. eauto. }
    cbn [mret M_ret] in E.
    rewrite bind_run, self_run in E. cbn [fst snd] in E.
    rewrite bind_run, db_run in E. cbn [fst snd] in E.
    rewrite Eb in E. rewrite decide_False in E by done.
    rewrite bind_run in E. cbn [mret M_ret] in E.
    rewrite bind_run, self_run in E. cbn [fst snd] in E.
    rewrite bind_run, db_run in E. cbn [fst snd] in E.
    rewrite Ew in E. rewrite decide_False in E by done.
    by injection E as <-.
  - cbn [mret M_ret] in E.
    rewrite bind_run, self_run in E. cbn [fst snd] in E.
    rewrite bind_run, db_run in E. cbn [fst snd] in E.
    rewrite Eb in E. rewrite decide_False in E by done.
    rewrite bind_run in E. cbn [mret M_ret] in E.
    rewrite bind_run, self_run in E. cbn [fst snd] in E.
    rewrite bind_run, db_run in E. cbn [fst snd] in E.
    rewrite Ew in E. rewrite decide_False in E by done.
    by injection E as <-.
Qed.

Lemma player_set_after (g g' : Game.t) (d d' : Db.t) :
  Game.id g' = Game.id g -> Db.players d' = Db.players d ->
  Game.player_set g' d' = Game.player_set g d.
Proof. intros Hid Hp. unfold Game.player_set. by rewrite Hid, Hp. Qed.

(** ** Game: joining, with or without a round *)

(** C9 (as amended).  In a game that is not finished, with its queue and
    deques in place, no finished round waiting and fewer than ten players,
    [add_player] of a player without a hand returns, whether or not a round
    is in progress: status and round are kept, the player is at the tail of
    the queue, is a member with score 0, and holds a full hand of ten cards
    of the white pool.  The white deque is taken to hold at least ten
    cards, all different and all in the card table, with a draw order
    inside the pool. *)
Theorem add_player_deals_full_hand
    (fuel : nat) (now player : Z) (g : Game.t) (d : Db.t) (p : Player.t)
    (q : Queue.t) (bd wd : Deque.t) :
  Game.status g ≠ Game.FINISHED ->
  ~ round_due now g ->
  Game.player_queue g = Some q ->
  Game.black_deque g = Some bd ->
  Game.white_deque g = Some wd ->
  len (Game.player_set g d) ≠ Game.MAX_PLAYERS ->
  filter (fun x => Player.id x = player) (Db.players d) = [p] ->
  Player.current_hand p = None ->
  NoDup (Deque.cards wd) ->
  msub (Deque.deque wd) (Deque.cards wd) ->
  Game.HAND_SIZE <= len (Deque.cards wd) ->
  Game.HAND_SIZE <= Deque.size wd ->
  (forall c, c ∈ Deque.cards wd -> c ∈ map Card.id (Db.card_table d)) ->
  exists g' d' p' hand,
    Game.add_player (S (S fuel)) now player (g, d) = ((g', d'), Ret tt) /\
    Game.status g' = Game.status g /\
    Game.current_round g' = Game.current_round g /\
    Game.player_queue g' = Some (Queue.mk (Queue.items q ++ [player])) /\
    filter (fun x => Player.id x = player) (Db.players d') = [p'] /\
    Player.current_game p' = Some (Game.id g) /\
    Player.score p' = Some 0 /\
    Player.current_hand p' = Some hand /\
    Z.of_nat (base.size hand) = Game.HAND_SIZE /\
    (forall c, c ∈ hand -> c ∈ Deque.cards wd).
Proof.
  intros Hst Hdue Hq Hbd Hwd Hfull Hp Hhand Hnodup Hsub Hlen Hsize Htable.
  assert (Hid : Player.id p = player).
  { assert (Hin : p ∈ filter (fun x => Player.id x = player) (Db.players d))
      by (rewrite Hp; left).
    by apply list_elem_of_filter in Hin as [? _]. }
  (* the draw of ten cards *)
  destruct (draw_cards_ok fuel Game.HAND_SIZE wd (Db.rng d))
    as (drawn & wd' & rng' & Hdraw & Hdl & Hdp & _); [done | | done |].
  { unfold Game.HAND_SIZE in *. lia. }
  assert (Hdrawn_nodup : NoDup drawn) by (eapply NoDup_Permutation_app_l; eauto).
  assert (Hdrawn_in : forall c, c ∈ drawn -> c ∈ Deque.cards wd).
  { intros c Hc. rewrite Hdp. apply elem_of_app. by left. }
  set (g1 := Game.set_player_queue (Some (Queue.mk (Queue.items q ++ [player]))) g).
  set (p1 := Player.set_current_game (Some (Game.id g)) p).
  set (p2 := Player.set_current_hand (Some ∅) p1).
  set (found := filter (fun c => c ∈ drawn) (map Card.id (Db.card_table d))).
  set (hand := (∅ ∪ list_to_set found : gset Z)).
  set (p3 := Player.set_current_hand (Some hand) p2).
  set (p4 := Player.set_score (Some 0) p3).
  set (d1 := Db.save_player p1 d).
  set (d2 := Db.save_player p2 d1).
  set (d3 := Db.set_rng rng' d2).
  set (d4 := Db.save_player p3 d3).
  set (d5 := Db.save_player p4 d4).
  set (g2 := Game.set_white_deque (Some wd') g1).
  assert (Hl1 : filter (fun x => Player.id x = player) (Db.players d1) = [p1])
    by (by apply (load_saved_player player p)).
  assert (Hl2 : filter (fun x => Player.id x = player) (Db.players d2) = [p2])
    by (by apply (load_saved_player player p1)).
  assert (Hl3 : filter (fun x => Player.id x = player) (Db.players d3) = [p2]) by done.
  assert (Hl4 : filter (fun x => Player.id x = player) (Db.players d4) = [p3])
    by (by apply (load_saved_player player p2)).
  assert (Hl5 : filter (fun x => Player.id x = player) (Db.players d5) = [p4])
    by (by apply (load_saved_player player p3)).
  assert (Hhand_eq : hand = list_to_set drawn).
  { unfold hand, found. apply set_eq. intros c.
    rewrite elem_of_union, !elem_of_list_to_set, list_elem_of_filter.
    split.
    - intros [Hc|[Hc _]]; [by apply not_elem_of_empty in Hc | done].
    - intros Hc. right. split; [done|]. by apply Htable, Hdrawn_in. }
  (* the deal *)
  assert (Hdeal : Game._deal_cards_to_player (S (S fuel)) player (g1, d1)
                  = ((g2, d4), Ret tt)).
  { unfold Game._deal_cards_to_player.
    rewrite bind_run, load_player_run. cbn [fst snd]. rewrite Hl1, orm_get_run.
    rewrite decide_True by done.
    rewrite bind_run, modify_db_run. cbn [fst snd]. fold p2 d2.
    rewrite bind_run, load_player_run. cbn [fst snd]. rewrite Hl2, orm_get_run.
    change (default ∅ (Player.current_hand p2)) with (∅ : gset Z).
    rewrite size_empty.
    change (Game.HAND_SIZE - Z.of_nat 0) with Game.HAND_SIZE.
    rewrite decide_False by done.
    rewrite bind_run.
    rewrite (on_deque_run Game.white_deque Game.set_white_deque _ g1 d2 wd) by done.
    change (Db.rng d2) with (Db.rng d). rewrite Hdraw. cbn [fst snd].
    fold g2 d3.
    rewrite bind_run, db_run. cbn [fst snd].
    rewrite modify_db_run. cbn [fst snd]. reflexivity. }
  exists g2, d5, p4, hand. split_and!.
  - unfold Game.add_player.
    rewrite bind_run, (_update_state_settled _ _ g d) by (try done; congruence).
    rewrite bind_run, self_run. cbn [fst snd].
    rewrite bind_run, db_run. cbn [fst snd].
    rewrite decide_False by done.
    rewrite decide_False by done.
    rewrite bind_run. unfold Game.on_player_queue.
    rewrite (on_field_run Game.player_queue Game.set_player_queue _ g d q) by done.
    change (Queue.add_item player q)
      with (Queue.mk (Queue.items q ++ [player]), Ret tt : Res unit).
    cbn [fst snd]. fold g1.
    rewrite bind_run, load_player_run. cbn [fst snd]. rewrite Hp, orm_get_run.
    rewrite bind_run, modify_db_run. cbn [fst snd].
    change (Game.id g1) with (Game.id g). fold p1 d1.
    rewrite bind_run, Hdeal.
    rewrite bind_run, load_player_run. cbn [fst snd]. rewrite Hl4, orm_get_run.
    rewrite modify_db_run. reflexivity.
  - done.
  - done.
  - done.
  - done.
  - done.
  - done.
  - done.
  - rewrite Hhand_eq. rewrite size_list_to_set by done.
    unfold len in Hdl. exact Hdl.
  - intros c. rewrite Hhand_eq, elem_of_list_to_set. apply Hdrawn_in.
Qed.

Lemma add_player_deals_full_hand_witness :
  let host := Player.mk 1 "a" (Some 1) (Some (ex_hand 101)) (Some 0) in
  let joiner := Player.mk 2 "b" None None None in
  let q := Queue.mk [1] in
  let bd := Deque.mk [1; 2; 3] [2; 3; 1] 3 in
  let wd := Deque.mk (seqZ 111 12) (seqZ 111 12) 12 in
  let r := ex_round 300 600 601 in
  let g := Game.mk 1 Game.STARTED (Some 1) (Some r) (Some bd) (Some wd) (Some q) in
  let d := Db.mk [host; joiner] [] ex_cards 2 [] in
  exists g' d' p' hand,
    Game.add_player 2 (seconds 30) 2 (g, d) = ((g', d'), Ret tt) /\
    Game.status g' = Game.STARTED /\
    Game.current_round g' = Some r /\
    Game.player_queue g' = Some (Queue.mk [1; 2]) /\
    filter (fun x => Player.id x = 2) (Db.players d') = [p'] /\
    Player.current_game p' = Some 1 /\
    Player.score p' = Some 0 /\
    Player.current_hand p' = Some hand /\
    Z.of_nat (base.size hand) = Game.HAND_SIZE /\
    (forall c, c ∈ hand -> c ∈ seqZ 111 12).
Proof.
  intros host joiner q bd wd r g d.
  apply (add_player_deals_full_hand 0 (seconds 30) 2 g d joiner q bd wd).
  - discriminate.
  - intros [_ (r' & Hr & Hf)]. injection Hr as <-. vm_compute in Hf. discriminate.
  - reflexivity.
  - reflexivity.
  - reflexivity.
  - vm_compute. congruence.
  - reflexivity.
  - reflexivity.
  - apply NoDup_seqZ.
  - apply msub_refl.
  - vm_compute. congruence.
  - vm_compute. congruence.
  - intros c Hc. apply elem_of_seqZ in Hc.
    change (map Card.id (Db.card_table d)) with (seqZ 1 5 ++ seqZ 101 60).
    apply elem_of_app. right. apply elem_of_seqZ. lia.
Defined.

(** ** Game: the guards of the operations *)

(** X14.  A FINISHED game is closed: [add_player], [start_by] and
    [play_card] all raise [GameFinishedError], and leave the status, the
    players and the Turns as they were. *)
Theorem finished_game_rejects_operations
    (fuel : nat) (now player card asof : Z) (g : Game.t) (d : Db.t) :
  Game.status g = Game.FINISHED ->
  exists g' d',
    Game.add_player fuel now player (g, d) = ((g', d'), Raise GameFinishedError) /\
    Game.start_by fuel now player (g, d) = ((g', d'), Raise GameFinishedError) /\
    Game.play_card fuel now player card asof (g, d) = ((g', d'), Raise GameFinishedError) /\
    Game.status g' = Game.FINISHED /\
    Db.players d' = Db.players d /\ Db.turns d' = Db.turns d.
Proof.
  intros Hfin.
  destruct (_update_state_no_round_due fuel now g d)
    as (g' & rng' & E & Hid & Hst & _).
  { intros [Hs _]. congruence. }
  exists g', (Db.set_rng rng' d). rewrite Hfin in Hst. split_and!; try done.
  - unfold Game.add_player. rewrite bind_run, E.
    rewrite bind_run, self_run. cbn [fst snd]. rewrite bind_run, db_run. cbn [fst snd].
    by rewrite decide_True.
  - unfold Game.start_by. rewrite bind_run, E.
    rewrite bind_run, self_run. cbn [fst snd]. rewrite bind_run, db_run. cbn [fst snd].
    by rewrite decide_True.
  - unfold Game.play_card. rewrite bind_run, E.
    rewrite bind_run, self_run. cbn [fst snd].
    by rewrite decide_True.
Qed.

Lemma finished_game_rejects_operations_witness :
  let g := Game.mk 1 Game.FINISHED None None None None None in
  let d := Db.mk [Player.mk 1 "a" None None None] [] ex_cards 1 [] in
  exists g' d',
    Game.add_player 1 0 1 (g, d) = ((g', d'), Raise GameFinishedError) /\
    Game.start_by 1 0 1 (g, d) = ((g', d'), Raise GameFinishedError) /\
    Game.play_card 1 0 1 101 0 (g, d) = ((g', d'), Raise GameFinishedError) /\
    Game.status g' = Game.FINISHED /\
    Db.players d' = Db.players d /\ Db.turns d' = Db.turns d.
Proof.
  intros g d. by apply (finished_game_rejects_operations 1 0 1 101 0 g d).
Defined.

(** X15.  Before the game has started, [play_card] raises
    [GameNotStartedError] for every player and card, and leaves the
    players and the Turns as they were. *)
Theorem created_game_rejects_play_card
    (fuel : nat) (now player card asof : Z) (g : Game.t) (d : Db.t) :
  Game.status g = Game.CREATED ->
  exists g' d',
    Game.play_card fuel now player card asof (g, d) = ((g', d'), Raise GameNotStartedError) /\
    Game.status g' = Game.CREATED /\
    Db.players d' = Db.players d /\ Db.turns d' = Db.turns d.
Proof.
  intros Hc.
  destruct (_update_state_no_round_due fuel now g d)
    as (g' & rng' & E & Hid & Hst & _).
  { intros [Hs _]. congruence. }
  exists g', (Db.set_rng rng' d). rewrite Hc in Hst. split_and!; try done.
  unfold Game.play_card. rewrite bind_run, E.
  rewrite bind_run, self_run. cbn [fst snd].
  rewrite decide_False by congruence. by rewrite decide_True.
Qed.

Lemma created_game_rejects_play_card_witness :
  let g := Game.create 1 1 in
  let d := Db.mk [Player.mk 1 "a" (Some 1) None None] [] ex_cards 1 [] in
  exists g' d',
    Game.play_card 1 0 1 101 0 (g, d) = ((g', d'), Raise GameNotStartedError) /\
    Game.status g' = Game.CREATED /\
    Db.players d' = Db.players d /\ Db.turns d' = Db.turns d.
Proof.
  intros g d. by apply (created_game_rejects_play_card 1 0 1 101 0 g d).
Defined.

(** X16.  In a game that is not finished and has no finished round
    waiting, [start_by] raises [PermissionDeniedError] for anyone but the
    host, and [NotEnoughPlayersError] for the host while fewer than three
    players are seated; the permission is checked first. *)
Theorem start_by_guards
    (fuel : nat) (now player : Z) (g : Game.t) (d : Db.t) :
  Game.status g ≠ Game.FINISHED ->
  ~ round_due now g ->
  exists g' d',
    (Game.host g ≠ Some player ->
     Game.start_by fuel now player (g, d) = ((g', d'), Raise PermissionDeniedError)) /\
    (Game.host g = Some player -> len (Game.player_set g d) < Game.MIN_PLAYERS ->
     Game.start_by fuel now player (g, d) = ((g', d'), Raise NotEnoughPlayersError)) /\
    Game.status g' = Game.status g /\ Game.current_round g' = Game.current_round g /\
    Db.players d' = Db.players d.
Proof.
  intros Hnf Hdue.
  destruct (_update_state_no_round_due fuel now g d Hdue)
    as (g' & rng' & E & Hid & Hst & Hh & Hr & _).
  exists g', (Db.set_rng rng' d). split_and!; try done.
  - intros Hhost. unfold Game.start_by. rewrite bind_run, E.
    rewrite bind_run, self_run. cbn [fst snd]. rewrite bind_run, db_run. cbn [fst snd].
    rewrite decide_False by congruence. rewrite decide_True by congruence. done.
  - intros Hhost Hfew. unfold Game.start_by. rewrite bind_run, E.
    rewrite bind_run, self_run. cbn [fst snd]. rewrite bind_run, db_run. cbn [fst snd].
    rewrite decide_False by congruence.
    rewrite decide_False by (intros Hn; apply Hn; congruence).
    rewrite (player_set_after g g' d) by done.
    by rewrite decide_True.
Qed.

Lemma start_by_guards_witness :
  let g := Game.mk 1 Game.CREATED (Some 1) None None None None in
  let d := Db.mk [Player.mk 1 "a" (Some 1) None (Some 0);
                  Player.mk 2 "b" (Some 1) None (Some 0)] [] ex_cards 1 [] in
  exists g' d',
    (Game.host g ≠ Some 1 ->
     Game.start_by 1 0 1 (g, d) = ((g', d'), Raise PermissionDeniedError)) /\
    (Game.host g = Some 1 -> len (Game.player_set g d) < Game.MIN_PLAYERS ->
     Game.start_by 1 0 1 (g, d) = ((g', d'), Raise NotEnoughPlayersError)) /\
    Game.status g' = Game.status g /\ Game.current_round g' = Game.current_round g /\
    Db.players d' = Db.players d.
Proof.
  intros g d. apply (start_by_guards 1 0 1 g d).
  - discriminate.
  - intros [Hs _]. discriminate.
Defined.

(** X17.  In a game that is not finished and has no finished round
    waiting, [add_player] raises [GameIsFullError] once ten players are
    seated; nobody is enqueued or seated. *)
Theorem add_player_full_game
    (fuel : nat) (now player : Z) (g : Game.t) (d : Db.t) :
  Game.status g ≠ Game.FINISHED ->
  ~ round_due now g ->
  len (Game.player_set g d) = Game.MAX_PLAYERS ->
  exists g' d',
    Game.add_player fuel now player (g, d) = ((g', d'), Raise GameIsFullError) /\
    Game.player_queue g' = Some (default Queue.create (Game.player_queue g)) /\
    Db.players d' = Db.players d.
Proof.
  intros Hnf Hdue Hfull.
  destruct (_update_state_no_round_due fuel now g d Hdue)
    as (g' & rng' & E & Hid & Hst & Hh & Hr & Hq & _).
  exists g', (Db.set_rng rng' d). split_and!; try done.
  unfold Game.add_player. rewrite bind_run, E.
  rewrite bind_run, self_run. cbn [fst snd]. rewrite bind_run, db_run. cbn [fst snd].
  rewrite decide_False by congruence.
  rewrite (player_set_after g g' d) by done.
  by rewrite decide_True.
Qed.

Lemma add_player_full_game_witness :
  let g := Game.mk 1 Game.CREATED (Some 1) None None None None in
  let d := Db.mk (map (fun i => Player.mk i "t" (Some 1) None (Some 0)) (seqZ 1 10)
                  ++ [Player.mk 11 "x" None None None]) [] ex_cards 1 [] in
  exists g' d',
    Game.add_player 1 0 11 (g, d) = ((g', d'), Raise GameIsFullError) /\
    Game.player_queue g' = Some (default Queue.create (Game.player_queue g)) /\
    Db.players d' = Db.players d.
Proof.
  intros g d. apply (add_player_full_game 1 0 11 g d).
  - discriminate.
  - intros [Hs _]. discriminate.
  - reflexivity.
Defined.

(** ** Game: playing and judging *)

Lemma current_round_or_fail_run (s : Game.St) :
  Game.current_round_or_fail s
  = (s, match Game.current_round s.1 with
        | None => Raise AttributeError
        | Some r => Ret r
        end).
Proof.
  unfold Game.current_round_or_fail. rewrite bind_run, self_run. cbn [fst snd].
  by destruct (Game.current_round s.1).
Qed.

Lemma round_play_card_run (self : Round.t) (player card : Z) (turns : list Turn.t) :
  Round.play_card self player card turns
  = if decide (len (filter (fun tn => Turn.player tn = player)
                      (Round.turn_set self turns)) > 0)
    then (turns, Raise PlayerHasAlreadyPlayed)
    else (turns ++ [Turn.mk (Round.id self) player (Some card)], Ret tt).
Proof. unfold Round.play_card. rewrite bind_run. cbn [get]. by case_decide. Qed.

(** X18.  [_play_card] never writes a player row: whatever its outcome,
    the hands are as before, so a played card stays in the hand of its
    player.  When it returns, the player held the card, and exactly one
    Turn, of this round, player and card, has been added at the end of the
    Turn table. *)
Theorem _play_card_keeps_hands
    (player card asof : Z) (g g' : Game.t) (d d' : Db.t) (res : Res unit) :
  Game._play_card player card asof (g, d) = ((g', d'), res) ->
  Db.players d' = Db.players d /\
  (res = Ret tt ->
   exists round p hand,
     Game.current_round g = Some round /\
     Db.turns d' = Db.turns d ++ [Turn.mk (Round.id round) player (Some card)] /\
     p ∈ Db.players d' /\ Player.id p = player /\
     Player.current_hand p = Some hand /\ card ∈ hand).
Proof.
  unfold Game._play_card. rewrite bind_run, load_player_run, orm_get_run. cbn [fst snd].
  destruct (filter (fun p => Player.id p = player) (Db.players d))
    as [|p [|? ?]] eqn:Ep; [by intros [= <- <- <-] | | by intros [= <- <- <-]].
  case_decide as Hhand; [by intros [= <- <- <-]|].
  rewrite bind_run, current_round_or_fail_run. cbn [fst snd].
  destruct (Game.current_round g) as [round|] eqn:Er; [|by intros [= <- <- <-]].
  rewrite bind_run, on_turns_run. cbn [fst snd].
  rewrite round_play_card_run.
  case_decide as Hplayed; cbn [fst snd]; [by intros [= <- <- <-]|].
  rewrite bind_run, self_run. cbn [fst snd]. rewrite bind_run, db_run. cbn [fst snd].
  assert (Hp : p ∈ Db.players d /\ Player.id p = player).
  { assert (Hin : p ∈ filter (fun p => Player.id p = player) (Db.players d))
      by (rewrite Ep; left).
    by apply list_elem_of_filter in Hin as [? ?]. }
  assert (Hh : exists hand, Player.current_hand p = Some hand /\ card ∈ hand).
  { destruct (Player.current_hand p) as [hand|]; [|by exfalso; apply Hhand; left].
    exists hand. split; [done|]. simpl in Hhand.
    destruct (decide (card ∈ hand)); [done|]. exfalso. apply Hhand. by right. }
  destruct Hh as (hand & Hh1 & Hh2). destruct Hp as [Hp1 Hp2].
  case_decide.
  - rewrite modify_round_run. cbn [fst snd]. intros [= <- <- <-].
    split; [done|]. intros _. exists round, p, hand. by split_and!.
  - intros [= <- <- <-]. split; [done|]. intros _. exists round, p, hand. by split_and!.
Qed.

Lemma _play_card_keeps_hands_witness :
  let czar := Player.mk 1 "a" (Some 1) (Some {[104]}) (Some 0) in
  let p2 := Player.mk 2 "b" (Some 1) (Some {[101; 102]}) (Some 0) in
  let p3 := Player.mk 3 "c" (Some 1) (Some {[103]}) (Some 0) in
  let r := Round.mk 1 1 1 5 (seconds 300) (seconds 600) (seconds 601) in
  let g := Game.mk 1 Game.STARTED (Some 1) (Some r) None None (Some (Queue.mk [2; 3; 1])) in
  let d := Db.mk [czar; p2; p3] [] [] 2 [] in
  let out := Game._play_card 2 101 (seconds 20) (g, d) in
  Db.players out.1.2 = Db.players d /\
  (out.2 = Ret tt ->
   exists round p hand,
     Game.current_round g = Some round /\
     Db.turns out.1.2 = Db.turns d ++ [Turn.mk (Round.id round) 2 (Some 101)] /\
     p ∈ Db.players out.1.2 /\ Player.id p = 2 /\
     Player.current_hand p = Some hand /\ 101 ∈ hand).
Proof.
  intros czar p2 p3 r g d out.
  apply (_play_card_keeps_hands 2 101 (seconds 20) g out.1.1 d out.1.2 out.2).
  subst out. by destruct (Game._play_card _ _ _ _) as [[? ?] ?].
Defined.

(** X19.  [_play_card] raises [PlayerDoesNotHaveCardError] and changes
    nothing when the player has no hand or the card is not in it. *)
Theorem _play_card_without_the_card
    (player card asof : Z) (g : Game.t) (d : Db.t) (p : Player.t) :
  filter (fun x => Player.id x = player) (Db.players d) = [p] ->
  card ∉ default ∅ (Player.current_hand p) ->
  Game._play_card player card asof (g, d) = ((g, d), Raise PlayerDoesNotHaveCardError).
Proof.
  intros Hp Hcard.
  unfold Game._play_card. rewrite bind_run, load_player_run, orm_get_run. cbn [fst snd].
  rewrite Hp. rewrite decide_True; [done|]. by right.
Qed.

Lemma _play_card_without_the_card_witness :
  let p2 := Player.mk 2 "b" (Some 1) (Some {[101; 102]}) (Some 0) in
  let r := Round.mk 1 1 1 5 (seconds 300) (seconds 600) (seconds 601) in
  let g := Game.mk 1 Game.STARTED (Some 1) (Some r) None None (Some (Queue.mk [2; 1])) in
  let d := Db.mk [p2] [] [] 2 [] in
  Game._play_card 2 103 (seconds 20) (g, d) = ((g, d), Raise PlayerDoesNotHaveCardError).
Proof.
  intros p2 r g d.
  apply (_play_card_without_the_card 2 103 (seconds 20) g d p2).
  - reflexivity.
  - vm_compute. intros H. discriminate.
Defined.

(** X20.  The czar's pick.  When exactly one Turn of the current round
    holds the card, [_pick_card] returns: the player of that Turn gains one
    point if still seated in this game (and is left alone otherwise), and
    the round gets [pick_finish = asof] and [round_finish = asof] plus the
    finish delay, so that, the play phase being over, the round is in
    WAITING_FINISH right after [asof] and FINISHED once the delay has
    passed. *)
Theorem _pick_card_scores
    (card asof : Z) (g : Game.t) (d : Db.t) (r : Round.t) (turn : Turn.t)
    (p : Player.t) (n : Z) :
  Game.current_round g = Some r ->
  filter (fun tn => Turn.card tn = Some card) (Round.turn_set r (Db.turns d)) = [turn] ->
  filter (fun x => Player.id x = Turn.player turn) (Db.players d) = [p] ->
  (Player.current_game p = Some (Game.id g) -> Player.score p = Some n) ->
  let r' := Round.set_round_finish (asof + seconds Game.FINISH_DELAY_SECONDS)
              (Round.set_pick_finish asof r) in
  let p' := if decide (Player.current_game p = Some (Game.id g))
            then Player.set_score (Some (n + 1)) p else p in
  Game._pick_card card asof (g, d)
    = ((Game.set_current_round (Some r') g, Db.save_player p' d), Ret tt)
  /\ (Round.play_finish r < asof ->
      forall now t,
        (asof < t <= asof + seconds Game.FINISH_DELAY_SECONDS ->
         Round.get_state now (Some t) r' = Round.WAITING_FINISH) /\
        (asof + seconds Game.FINISH_DELAY_SECONDS < t ->
         Round.get_state now (Some t) r' = Round.FINISHED)).
Proof.
  intros Hr Hturn Hp Hscore r' p'. split.
  - unfold Game._pick_card.
    rewrite bind_run, current_round_or_fail_run. cbn [fst snd]. rewrite Hr.
    rewrite bind_run, self_run. cbn [fst snd]. rewrite bind_run, db_run. cbn [fst snd].
    rewrite Hturn. rewrite decide_False by (vm_compute; congruence).
    rewrite bind_run, orm_get_run.
    rewrite bind_run, load_player_run, orm_get_run. cbn [fst snd]. rewrite Hp.
    rewrite bind_run. unfold p'.
    destruct (decide (Player.current_game p = Some (Game.id g))) as [Hin|Hout].
    + rewrite (Hscore Hin). cbn [mret M_ret].
      rewrite bind_run, modify_round_run. cbn [fst snd].
      rewrite modify_db_run. cbn [fst snd]. by rewrite Hr.
    + cbn [mret M_ret].
      rewrite bind_run, modify_round_run. cbn [fst snd].
      rewrite modify_db_run. cbn [fst snd]. by rewrite Hr.
  - intros Hplay now t. unfold Round.get_state, r'.
    cbn [Round.play_finish Round.pick_finish Round.round_finish
         Round.set_round_finish Round.set_pick_finish].
    unfold seconds, Game.FINISH_DELAY_SECONDS.
    split; intros Ht; repeat case_decide; try done; lia.
Qed.

Lemma _pick_card_scores_witness :
  let p2 := Player.mk 2 "b" (Some 1) (Some {[101]}) (Some 2) in
  let r := Round.mk 1 1 1 5 (seconds 10) (seconds 310) (seconds 311) in
  let g := Game.mk 1 Game.STARTED (Some 1) (Some r) None None (Some (Queue.mk [2; 1])) in
  let d := Db.mk [Player.mk 1 "a" (Some 1) (Some {[104]}) (Some 0); p2]
                 [Turn.mk 1 2 (Some 101)] [] 2 [] in
  let r' := Round.set_round_finish (seconds 20 + seconds Game.FINISH_DELAY_SECONDS)
              (Round.set_pick_finish (seconds 20) r) in
  let p' := if decide (Player.current_game p2 = Some (Game.id g))
            then Player.set_score (Some (2 + 1)) p2 else p2 in
  Game._pick_card 101 (seconds 20) (g, d)
    = ((Game.set_current_round (Some r') g, Db.save_player p' d), Ret tt)
  /\ (Round.play_finish r < seconds 20 ->
      forall now t,
        (seconds 20 < t <= seconds 20 + seconds Game.FINISH_DELAY_SECONDS ->
         Round.get_state now (Some t) r' = Round.WAITING_FINISH) /\
        (seconds 20 + seconds Game.FINISH_DELAY_SECONDS < t ->
         Round.get_state now (Some t) r' = Round.FINISHED)).
Proof.
  intros p2 r g d.
  apply (_pick_card_scores 101 (seconds 20) g d r (Turn.mk 1 2 (Some 101)) p2 2);
    reflexivity.
Defined.

(** X21.  [_pick_card] raises [CardIsNotOnTableError] and changes nothing
    when no Turn of the current round holds the card. *)
Theorem _pick_card_not_on_table
    (card asof : Z) (g : Game.t) (d : Db.t) (r : Round.t) :
  Game.current_round g = Some r ->
  (forall tn, tn ∈ Db.turns d -> Turn.round tn = Round.id r -> Turn.card tn ≠ Some card) ->
  Game._pick_card card asof (g, d) = ((g, d), Raise CardIsNotOnTableError).
Proof.
  intros Hr Hno. unfold Game._pick_card.
  rewrite bind_run, current_round_or_fail_run. cbn [fst snd]. rewrite Hr.
  rewrite bind_run, self_run. cbn [fst snd]. rewrite bind_run, db_run. cbn [fst snd].
  destruct (filter (fun tn => Turn.card tn = Some card) (Round.turn_set r (Db.turns d)))
    as [|tn l] eqn:E.
  - by rewrite decide_True.
  - exfalso.
    assert (Hin : tn ∈ filter (fun tn => Turn.card tn = Some card)
                    (Round.turn_set r (Db.turns d))) by (rewrite E; left).
    unfold Round.turn_set in Hin. rewrite !list_elem_of_filter in Hin.
    destruct Hin as (Hc & Hrd & Hin). by apply (Hno tn).
Qed.

Lemma _pick_card_not_on_table_witness :
  let r := Round.mk 1 1 1 5 (seconds 10) (seconds 310) (seconds 311) in
  let g := Game.mk 1 Game.STARTED (Some 1) (Some r) None None (Some (Queue.mk [2; 1])) in
  let d := Db.mk [] [Turn.mk 1 2 (Some 101); Turn.mk 7 3 (Some 102)] [] 2 [] in
  Game._pick_card 102 (seconds 20) (g, d) = ((g, d), Raise CardIsNotOnTableError).
Proof.
  intros r g d. apply (_pick_card_not_on_table 102 (seconds 20) g d r).
  - reflexivity.
  - intros tn Htn Hrd. simpl in Htn.
    apply elem_of_cons in Htn as [->|Htn]; [discriminate|].
    apply list_elem_of_singleton in Htn. subst tn. simpl in Hrd. lia.
Defined.

(** X22.  In a started game with its queue and deques and a round that is
    not finished, [play_card] lets the czar act only while the round is in
    PICK at [asof], and then judges; it lets any other player act only
    while the round is in PLAY, and then records the play; out of phase it
    raises [PermissionDeniedError] and changes nothing. *)
Theorem play_card_dispatch
    (fuel : nat) (now player card asof : Z) (g : Game.t) (d : Db.t) (r : Round.t) :
  Game.status g = Game.STARTED ->
  Game.current_round g = Some r ->
  Round.get_state now None r ≠ Round.FINISHED ->
  Game.player_queue g ≠ None -> Game.black_deque g ≠ None -> Game.white_deque g ≠ None ->
  Game.play_card fuel now player card asof (g, d) =
    if decide (player = Round.card_czar r) then
      if decide (Round.get_state now (Some asof) r = Round.PICK)
      then Game._pick_card card asof (g, d)
      else ((g, d), Raise PermissionDeniedError)
    else
      if decide (Round.get_state now (Some asof) r = Round.PLAY)
      then Game._play_card player card asof (g, d)
      else ((g, d), Raise PermissionDeniedError).
Proof.
  intros Hst Hr Hnf Hq Hb Hw.
  unfold Game.play_card.
  rewrite bind_run, (_update_state_settled fuel now g d); try done.
  2:{ intros [_ (r0 & Hr0 & Hf)]. congruence. }
  rewrite bind_run, self_run. cbn [fst snd].
  rewrite decide_False by congruence. rewrite decide_False by congruence.
  rewrite bind_run, current_round_or_fail_run. cbn [fst snd]. rewrite Hr.
  destruct (decide (player = Round.card_czar r)).
  - destruct (decide (Round.get_state now (Some asof) r = Round.PICK)) as [Hs|Hs].
    + by rewrite decide_False by (by intros ?).
    + by rewrite decide_True.
  - destruct (decide (Round.get_state now (Some asof) r = Round.PLAY)) as [Hs|Hs].
    + by rewrite decide_False by (by intros ?).
    + by rewrite decide_True.
Qed.

Lemma play_card_dispatch_witness :
  let g := ex_game (ex_round 300 600 601) in
  let d := Db.mk [ex_player 1 "a" 0; ex_player 2 "b" 0; ex_player 3 "c" 0]
                 [] ex_cards 2 [] in
  Game.play_card 1 (seconds 30) 1 121 (seconds 30) (g, d)
    = ((g, d), Raise PermissionDeniedError).
Proof.
  intros g d.
  rewrite (play_card_dispatch 1 (seconds 30) 1 121 (seconds 30) g d (ex_round 300 600 601));
    [reflexivity | reflexivity | reflexivity | by vm_compute | done | done | done].
Defined.

(** ** Game: who writes the Turn table *)

Lemma same_turns_add_player fuel now player :
  preserves same_turns (Game.add_player fuel now player).
Proof.
  unfold Game.add_player. frame;
    first [apply same_turns__update_state | apply same_turns__deal_cards_to_player].
Qed.

Lemma same_turns_start_by fuel now player :
  preserves same_turns (Game.start_by fuel now player).
Proof.
  unfold Game.start_by. frame;
    first [apply same_turns__update_state | apply same_turns__start_new_round].
Qed.

Lemma same_turns__pick_card card asof : preserves same_turns (Game._pick_card card asof).
Proof.
  unfold Game._pick_card, Game.current_round_or_fail. frame.
Qed.

(** X23.  Only a play writes the Turn table: the reconciliation,
    [start_by], [add_player], [remove_player] and the czar's pick leave it
    as it is, whatever their outcome. *)
Theorem turn_table_written_only_by_plays
    (fuel : nat) (now player card asof : Z) (s s' : Game.St) (res : Res unit) :
  (Game._update_state fuel now s = (s', res) \/
   Game.start_by fuel now player s = (s', res) \/
   Game.add_player fuel now player s = (s', res) \/
   Game.remove_player fuel now player s = (s', res) \/
   Game._pick_card card asof s = (s', res)) ->
  Db.turns s'.2 = Db.turns s.2.
Proof.
  intros [H|[H|[H|[H|H]]]].
  - by apply same_turns__update_state in H.
  - by apply same_turns_start_by in H.
  - by apply same_turns_add_player in H.
  - by apply same_turns_remove_player in H.
  - by apply same_turns__pick_card in H.
Qed.

Lemma turn_table_written_only_by_plays_witness :
  let g := ex_game (ex_round 300 600 601) in
  let d := Db.mk [ex_player 1 "a" 0; ex_player 2 "b" 0; ex_player 3 "c" 0]
                 [Turn.mk 1 2 (Some 121)] ex_cards 2 [] in
  Db.turns (Game.start_by 3 (seconds 30) 1 (g, d)).1.2 = Db.turns d.
Proof.
  intros g d.
  apply (turn_table_written_only_by_plays 3 (seconds 30) 1 0 0 (g, d)
           (Game.start_by 3 (seconds 30) 1 (g, d)).1 (Game.start_by 3 (seconds 30) 1 (g, d)).2).
  right. left. apply surjective_pairing.
Defined.

(** ** Game: leaving *)

Lemma player_set_without (g : Game.t) (d : Db.t) (p : Player.t) :
  Game.player_set g (Db.save_player (left_row p) d)
  = filter (fun q => Player.id q ≠ Player.id p) (Game.player_set g d).
Proof.
  unfold Game.player_set, Db.save_player. cbn [Db.set_players Db.players].
  change (Player.id (left_row p)) with (Player.id p).
  induction (Db.players d) as [|a l IH]; [done|]. cbn [map].
  destruct (decide (Player.id a = Player.id p)) as [Ha|Ha].
  - rewrite (filter_cons_False _ (left_row p)) by done. rewrite IH.
    destruct (decide (Player.current_game a = Some (Game.id g))).
    + rewrite (filter_cons_True _ a) by done.
      by rewrite filter_cons_False by (intros H; by apply H).
    + by rewrite (filter_cons_False _ a) by done.
  - destruct (decide (Player.current_game a = Some (Game.id g))).
    + rewrite !(filter_cons_True _ a) by done. by rewrite IH.
    + rewrite !(filter_cons_False _ a) by done. by rewrite IH.
Qed.

Lemma filter_none {A} (P : A -> Prop) `{!forall x, Decision (P x)} (l : list A) :
  (forall x, x ∈ l -> ~ P x) -> filter P l = [].
Proof.
  induction l as [|a l IH]; intros Hno; [done|].
  rewrite filter_cons_False by (apply Hno; left).
  apply IH. intros x Hx. apply Hno. by right.
Qed.

(** [remove_player] up to the point where the remaining players are
    counted. *)
Lemma remove_player_prefix (fuel : nat) (now player : Z) (g : Game.t) (d : Db.t)
    (p : Player.t) (q : Queue.t) {A} (k : M Game.St A) :
  settled now g ->
  Game.player_queue g = Some q ->
  filter (fun x => Player.id x = player) (Db.players d) = [p] ->
  (Game._update_state fuel now;;
   Game.on_player_queue (Queue.remove_item player);;
   p ← Game.load_player player;
   Game.modify_db (Db.save_player
     (Player.set_score None (Player.set_current_hand None
        (Player.set_current_game None p))));;
   k) (g, d)
  = k (Game.set_player_queue
         (Some (Queue.mk (filter (fun i => i ≠ player) (Queue.items q)))) g,
       Db.save_player (left_row p) d).
Proof.
  intros (Hdue & Hq & Hb & Hw) Hqueue Hp.
  rewrite bind_run, (_update_state_settled fuel now g d) by done.
  rewrite bind_run. unfold Game.on_player_queue.
  rewrite (on_field_run Game.player_queue Game.set_player_queue _ g d q) by done.
  change (Queue.remove_item player q)
    with (Queue.mk (filter (fun i => i ≠ player) (Queue.items q)), Ret tt : Res unit).
  cbn [fst snd].
  rewrite bind_run, load_player_run, orm_get_run. cbn [fst snd]. rewrite Hp.
  rewrite bind_run, modify_db_run. cbn [fst snd]. reflexivity.
Qed.

(** The removal of the only seated player. *)
Lemma remove_player_last_run
    (fuel : nat) (now player : Z) (g : Game.t) (d : Db.t) (p : Player.t) (q : Queue.t) :
  settled now g ->
  Game.player_queue g = Some q ->
  filter (fun x => Player.id x = player) (Db.players d) = [p] ->
  (forall x, x ∈ Game.player_set g d -> Player.id x = player) ->
  exists g',
    Game.remove_player fuel now player (g, d)
      = ((g', Db.save_player (left_row p) d), Ret tt) /\
    Game.status g' = Game.FINISHED /\ Game.host g' = None /\
    Game.current_round g' = None /\
    Game.player_queue g'
      = Some (Queue.mk (filter (fun i => i ≠ player) (Queue.items q))) /\
    Game.player_set g' (Db.save_player (left_row p) d) = [].
Proof.
  intros Hs Hq Hp Honly.
  assert (Hid : Player.id p = player).
  { assert (Hin : p ∈ filter (fun x => Player.id x = player) (Db.players d))
      by (rewrite Hp; left).
    by apply list_elem_of_filter in Hin as [? _]. }
  assert (Hempty : forall g0, Game.id g0 = Game.id g ->
            Game.player_set g0 (Db.save_player (left_row p) d) = []).
  { intros g0 Hg0.
    assert (Game.player_set g0 (Db.save_player (left_row p) d)
            = Game.player_set g (Db.save_player (left_row p) d)) as ->
      by (unfold Game.player_set; by rewrite Hg0).
    rewrite player_set_without.
    apply filter_none. intros x Hx Hne. apply Hne.
    rewrite Hid. by apply Honly. }
  eexists. split.
  - unfold Game.remove_player.
    rewrite (remove_player_prefix fuel now player g d p q) by done.
    rewrite bind_run, self_run. cbn [fst snd]. rewrite bind_run, db_run. cbn [fst snd].
    rewrite Hempty by done.
    rewrite decide_True by done.
    rewrite bind_run, modify_self_run. cbn [fst snd].
    rewrite bind_run, modify_self_run. cbn [fst snd].
    rewrite modify_self_run. cbn [fst snd]. reflexivity.
  - split_and!; try done. by apply Hempty.
Qed.

(** X24.  In a settled game (queue and deques in place, no finished round
    waiting), when the last seated player is removed, [remove_player]
    returns with the game FINISHED, without host and without current
    round, whatever the phase of the round in progress; the player's row
    has no game, no hand and no score, and the player is out of the
    queue. *)
Theorem remove_last_player
    (fuel : nat) (now player : Z) (g : Game.t) (d : Db.t) (p : Player.t) (q : Queue.t) :
  settled now g ->
  Game.player_queue g = Some q ->
  filter (fun x => Player.id x = player) (Db.players d) = [p] ->
  (forall x, x ∈ Game.player_set g d -> Player.id x = player) ->
  exists g',
    Game.remove_player fuel now player (g, d)
      = ((g', Db.save_player (left_row p) d), Ret tt) /\
    Game.status g' = Game.FINISHED /\ Game.host g' = None /\
    Game.current_round g' = None /\
    Game.player_queue g'
      = Some (Queue.mk (filter (fun i => i ≠ player) (Queue.items q))) /\
    Game.player_set g' (Db.save_player (left_row p) d) = [].
Proof. apply remove_player_last_run. Qed.

Lemma remove_last_player_witness :
  let p := ex_player 1 "a" 2 in
  let q := Queue.mk [2; 3; 4; 1] in
  let g := ex_game (ex_round 300 600 601) in
  let d := Db.mk [p; Player.mk 2 "b" None None None] [] ex_cards 2 [] in
  exists g',
    Game.remove_player 1 (seconds 30) 1 (g, d)
      = ((g', Db.save_player (left_row p) d), Ret tt) /\
    Game.status g' = Game.FINISHED /\ Game.host g' = None /\
    Game.current_round g' = None /\
    Game.player_queue g'
      = Some (Queue.mk (filter (fun i => i ≠ 1) (Queue.items q))) /\
    Game.player_set g' (Db.save_player (left_row p) d) = [].
Proof.
  intros p q g d. apply (remove_last_player 1 (seconds 30) 1 g d p q).
  - split; [|done]. intros [_ (r & Hr & Hf)]. injection Hr as <-. vm_compute in Hf.
    discriminate.
  - reflexivity.
  - reflexivity.
  - intros x Hx. change (Game.player_set g d) with [p] in Hx.
    apply list_elem_of_singleton in Hx. by subst x.
Defined.

(** X25.  When a player leaves a game that has no round and other players
    stay, [remove_player] returns: the status is kept, the player is out of
    the queue and the row has no game, no hand and no score, the rows of
    the others are untouched, and the host is kept unless it is the leaver,
    in which case the first remaining player (in key order) becomes
    host. *)
Theorem remove_player_without_round
    (fuel : nat) (now player : Z) (g : Game.t) (d : Db.t) (p : Player.t) (q : Queue.t) :
  settled now g ->
  Game.current_round g = None ->
  Game.player_queue g = Some q ->
  filter (fun x => Player.id x = player) (Db.players d) = [p] ->
  filter (fun x => Player.id x ≠ player) (Game.player_set g d) ≠ [] ->
  exists g',
    Game.remove_player fuel now player (g, d)
      = ((g', Db.save_player (left_row p) d), Ret tt) /\
    Game.status g' = Game.status g /\ Game.current_round g' = None /\
    Game.player_queue g'
      = Some (Queue.mk (filter (fun i => i ≠ player) (Queue.items q))) /\
    Game.host g'
      = (if decide (Game.host g = Some player)
         then Player.id <$> head (filter (fun x => Player.id x ≠ player) (Game.player_set g d))
         else Game.host g) /\
    Game.player_set g' (Db.save_player (left_row p) d)
      = filter (fun x => Player.id x ≠ player) (Game.player_set g d).
Proof.
  intros Hs Hr Hq Hp Hothers.
  assert (Hid : Player.id p = player).
  { assert (Hin : p ∈ filter (fun x => Player.id x = player) (Db.players d))
      by (rewrite Hp; left).
    by apply list_elem_of_filter in Hin as [? _]. }
  set (g1 := Game.set_player_queue
               (Some (Queue.mk (filter (fun i => i ≠ player) (Queue.items q)))) g).
  set (d1 := Db.save_player (left_row p) d).
  set (others := filter (fun x => Player.id x ≠ player) (Game.player_set g d)).
  assert (Hset : forall g0, Game.id g0 = Game.id g -> Game.player_set g0 d1 = others).
  { intros g0 Hg0.
    assert (Game.player_set g0 d1 = Game.player_set g d1) as ->
      by (unfold Game.player_set; by rewrite Hg0).
    unfold d1. rewrite player_set_without. by rewrite Hid. }
  set (g2 := if decide (Game.host g = Some player)
             then Game.set_host (Player.id <$> head others) g1 else g1).
  exists g2. split.
  - unfold Game.remove_player.
    rewrite (remove_player_prefix fuel now player g d p q) by done.
    fold g1 d1.
    rewrite bind_run, self_run. cbn [fst snd]. rewrite bind_run, db_run. cbn [fst snd].
    rewrite (Hset g1) by done.
    rewrite decide_False.
    2:{ fold others in Hothers. destruct others; [done|]. unfold len. simpl. lia. }
    rewrite bind_run.
    assert (Hhost : (if decide (Some player = Game.host g1)
                     then Game._repick_host else mret tt) (g1, d1) = ((g2, d1), Ret tt)).
    { unfold g2. change (Game.host g1) with (Game.host g).
      destruct (decide (Game.host g = Some player)) as [Hh|Hh].
      - rewrite decide_True by done. unfold Game._repick_host.
        rewrite bind_run, self_run. cbn [fst snd]. rewrite bind_run, db_run. cbn [fst snd].
        rewrite modify_self_run. cbn [fst snd]. by rewrite (Hset g1).
      - by rewrite decide_False by congruence. }
    rewrite Hhost.
    rewrite bind_run, self_run. cbn [fst snd].
    assert (Game.current_round g2 = None) as ->.
    { unfold g2. destruct (decide (Game.host g = Some player)); exact Hr. }
    reflexivity.
  - unfold g2. destruct (decide (Game.host g = Some player));
      split_and!; try done; try exact Hr; by apply Hset.
Qed.

Lemma remove_player_without_round_witness :
  let host := Player.mk 1 "a" (Some 1) (Some (ex_hand 101)) (Some 0) in
  let other := Player.mk 2 "b" (Some 1) (Some (ex_hand 111)) (Some 0) in
  let q := Queue.mk [1; 2] in
  let g := Game.mk 1 Game.CREATED (Some 1) None
             (Some (Deque.mk [1; 2; 3] [2; 3; 1] 3)) (Some (Deque.mk [151] [151] 1))
             (Some q) in
  let d := Db.mk [host; other] [] ex_cards 1 [] in
  exists g',
    Game.remove_player 1 0 1 (g, d) = ((g', Db.save_player (left_row host) d), Ret tt) /\
    Game.status g' = Game.status g /\ Game.current_round g' = None /\
    Game.player_queue g'
      = Some (Queue.mk (filter (fun i => i ≠ 1) (Queue.items q))) /\
    Game.host g'
      = (if decide (Game.host g = Some 1)
         then Player.id <$> head (filter (fun x => Player.id x ≠ 1) (Game.player_set g d))
         else Game.host g) /\
    Game.player_set g' (Db.save_player (left_row host) d)
      = filter (fun x => Player.id x ≠ 1) (Game.player_set g d).
Proof.
  intros host other q g d. apply (remove_player_without_round 1 0 1 g d host q).
  - split; [|done]. intros [Hst _]. discriminate.
  - reflexivity.
  - reflexivity.
  - reflexivity.
  - change (filter (fun x => Player.id x ≠ 1) (Game.player_set g d)) with [other]. done.
Defined.

(** ** Game: a player who has played leaves (the outcome) *)

(** In a table without a second Turn of one player in one round, the Turn
    of a player in a round is found by the two filters, alone. *)
Lemma unique_turn_filter (turns : list Turn.t) (tn : Turn.t) :
  turns_unique turns -> tn ∈ turns ->
  filter (fun t => Turn.player t = Turn.player tn)
    (filter (fun t => Turn.round t = Turn.round tn) turns) = [tn].
Proof.
  unfold turns_unique. induction turns as [|a l IH]; intros Hu Hin.
  - by apply elem_of_nil in Hin.
  - cbn [map] in Hu. apply NoDup_cons in Hu as [Hna Hu].
    apply elem_of_cons in Hin as [->|Hin].
    + rewrite filter_cons_True by done. rewrite filter_cons_True by done. f_equal.
      apply filter_none. intros x Hx HP. apply list_elem_of_filter in Hx as [HQ Hx].
      apply Hna. apply list_elem_of_fmap. exists x. split; [|done]. by rewrite HQ, HP.
    + assert (Hkey : (Turn.round a, Turn.player a) ≠ (Turn.round tn, Turn.player tn)).
      { intros Hk. apply Hna. rewrite Hk. apply list_elem_of_fmap. by exists tn. }
      destruct (decide (Turn.round a = Turn.round tn)) as [Hr|Hr].
      * rewrite filter_cons_True by done.
        rewrite filter_cons_False by (intros Hp; apply Hkey; by rewrite Hr, Hp).
        by apply IH.
      * rewrite filter_cons_False by done. by apply IH.
Qed.

(** C4 (the code departs from the specification).  In a settled game, the
    removal of a player who is not the czar, has a Turn in the current
    round and leaves others seated does not return: after the player has
    been taken out of the queue and the row has been cleared,
    [turn_set.remove] raises [AttributeError], the reverse manager of the
    non-nullable [Turn.round] having no [remove].  The Turn table is as
    before: the Turn is neither deleted nor is its card cleared, and the
    round is still the current one. *)
Theorem remove_player_with_turn_raises
    (fuel : nat) (now player : Z) (g : Game.t) (d : Db.t) (p : Player.t) (q : Queue.t)
    (r : Round.t) (tn : Turn.t) :
  settled now g ->
  Game.player_queue g = Some q ->
  Game.current_round g = Some r ->
  player ≠ Round.card_czar r ->
  filter (fun x => Player.id x = player) (Db.players d) = [p] ->
  filter (fun x => Player.id x ≠ player) (Game.player_set g d) ≠ [] ->
  turns_unique (Db.turns d) ->
  tn ∈ Db.turns d -> Turn.round tn = Round.id r -> Turn.player tn = player ->
  exists g',
    Game.remove_player fuel now player (g, d)
      = ((g', Db.save_player (left_row p) d), Raise AttributeError) /\
    Db.turns (Db.save_player (left_row p) d) = Db.turns d /\
    Game.current_round g' = Some r /\
    Game.player_queue g'
      = Some (Queue.mk (filter (fun i => i ≠ player) (Queue.items q))).
Proof.
  intros Hs Hq Hr Hczar Hp Hothers Hu Hin Htr Htp.
  assert (Hid : Player.id p = player).
  { assert (Hin' : p ∈ filter (fun x => Player.id x = player) (Db.players d))
      by (rewrite Hp; left).
    by apply list_elem_of_filter in Hin' as [? _]. }
  set (g1 := Game.set_player_queue
               (Some (Queue.mk (filter (fun i => i ≠ player) (Queue.items q)))) g).
  set (d1 := Db.save_player (left_row p) d).
  set (others := filter (fun x => Player.id x ≠ player) (Game.player_set g d)).
  assert (Hset : forall g0, Game.id g0 = Game.id g -> Game.player_set g0 d1 = others).
  { intros g0 Hg0.
    assert (Game.player_set g0 d1 = Game.player_set g d1) as ->
      by (unfold Game.player_set; by rewrite Hg0).
    unfold d1. rewrite player_set_without. by rewrite Hid. }
  set (g2 := if decide (Game.host g = Some player)
             then Game.set_host (Player.id <$> head others) g1 else g1).
  assert (Hturns : Db.turns d1 = Db.turns d) by (unfold d1; by destruct d).
  assert (Hfound : filter (fun t => Turn.player t = player)
                     (Round.turn_set r (Db.turns d1)) = [tn]).
  { rewrite Hturns. unfold Round.turn_set. rewrite <- Htr, <- Htp.
    by apply unique_turn_filter. }
  exists g2. split_and!.
  - unfold Game.remove_player.
    rewrite (remove_player_prefix fuel now player g d p q) by done.
    fold g1 d1.
    rewrite bind_run, self_run. cbn [fst snd]. rewrite bind_run, db_run. cbn [fst snd].
    rewrite (Hset g1) by done.
    rewrite decide_False.
    2:{ fold others in Hothers. destruct others; [done|]. unfold len. simpl. lia. }
    rewrite bind_run.
    assert (Hhost : (if decide (Some player = Game.host g1)
                     then Game._repick_host else mret tt) (g1, d1) = ((g2, d1), Ret tt)).
    { unfold g2. change (Game.host g1) with (Game.host g).
      destruct (decide (Game.host g = Some player)) as [Hh|Hh].
      - rewrite decide_True by done. unfold Game._repick_host.
        rewrite bind_run, self_run. cbn [fst snd]. rewrite bind_run, db_run. cbn [fst snd].
        rewrite modify_self_run. cbn [fst snd]. by rewrite (Hset g1).
      - by rewrite decide_False by congruence. }
    rewrite Hhost.
    rewrite bind_run, self_run. cbn [fst snd].
    assert (Game.current_round g2 = Some r) as ->.
    { unfold g2. destruct (decide (Game.host g = Some player)); exact Hr. }
    rewrite decide_False by (intros [? _]; done).
    rewrite on_turns_run. cbn [fst snd].
    assert (Hrun : Round.remove_player r player (Db.turns d1)
                   = (Db.turns d1, Raise AttributeError)).
    { unfold Round.remove_player. rewrite bind_run. cbn [get fst snd].
      rewrite Hfound. rewrite decide_False by done.
      rewrite bind_run, orm_get_run. reflexivity. }
    rewrite Hrun. reflexivity.
  - exact Hturns.
  - unfold g2. destruct (decide (Game.host g = Some player)); exact Hr.
  - unfold g2. by destruct (decide (Game.host g = Some player)).
Qed.

Lemma remove_player_with_turn_raises_witness :
  let g := ex_game (ex_round 300 600 601) in
  let p := ex_player 2 "b" 0 in
  let d := Db.mk [ex_player 1 "a" 0; p; ex_player 3 "c" 0; ex_player 4 "d" 0]
                 [Turn.mk 1 2 (Some 121)] ex_cards 2 [] in
  exists g',
    Game.remove_player 5 (seconds 30) 2 (g, d)
      = ((g', Db.save_player (left_row p) d), Raise AttributeError) /\
    Db.turns (Db.save_player (left_row p) d) = Db.turns d /\
    Game.current_round g' = Some (ex_round 300 600 601) /\
    Game.player_queue g' = Some (Queue.mk (filter (fun i => i ≠ 2) [2; 3; 4; 1])).
Proof.
  intros g p d.
  apply (remove_player_with_turn_raises 5 (seconds 30) 2 g d p (Queue.mk [2; 3; 4; 1])
           (ex_round 300 600 601) (Turn.mk 1 2 (Some 121))).
  - split; [|done]. intros [_ (r & Hr & Hf)]. injection Hr as <-. vm_compute in Hf.
    discriminate.
  - reflexivity.
  - reflexivity.
  - simpl. lia.
  - vm_compute. reflexivity.
  - vm_compute. discriminate.
  - unfold turns_unique. cbn. apply NoDup_singleton.
  - left.
  - reflexivity.
  - reflexivity.
Defined.

(** ** Game: starting a round *)

#[local] Instance same_seating_preorder : PreOrder same_seating.
Proof.
  split.
  - by intros s.
  - intros x y z (?&?&?&?&?&?) (?&?&?&?&?&?). unfold same_seating. split_and!; congruence.
Qed.

Lemma same_seating_unchanged {A} (m : M Game.St A) :
  (forall s, (m s).1 = s) -> preserves same_seating m.
Proof. intros H s s' r E. specialize (H s). rewrite E in H. simpl in H. by subst s'. Qed.

Lemma same_seating_load_player p : preserves same_seating (Game.load_player p).
Proof. apply same_seating_unchanged. intros s. by rewrite load_player_run, orm_get_run. Qed.

Lemma same_seating_save_player p :
  preserves same_seating (Game.modify_db (Db.save_player p)).
Proof. by intros s s' r [= <- _]. Qed.

Lemma same_seating_on_deque {A} field set_field (m : M Deque.St A) :
  (forall x g, Game.id (set_field x g) = Game.id g /\
               Game.status (set_field x g) = Game.status g /\
               Game.host (set_field x g) = Game.host g /\
               Game.current_round (set_field x g) = Game.current_round g /\
               Game.player_queue (set_field x g) = Game.player_queue g) ->
  preserves same_seating (Game.on_deque field set_field m).
Proof.
  intros Hset. unfold Game.on_deque.
  apply preserves_bind; [apply _ | by apply same_seating_unchanged |].
  intros g. destruct (field g) as [dq|]; [|apply preserves_raise; apply _].
  apply preserves_zoom. intros s.
  destruct (Hset (Some (m (dq, Db.rng s.2)).1.1) s.1) as (?&?&?&?&?).
  by split_and!.
Qed.

Lemma same_seating__deal_cards_to_player fuel p :
  preserves same_seating (Game._deal_cards_to_player fuel p).
Proof.
  unfold Game._deal_cards_to_player.
  repeat first
    [ apply same_seating_load_player
    | apply same_seating_save_player
    | apply same_seating_on_deque; by intros
    | apply preserves_mret; apply _
    | apply same_seating_unchanged; by intros
    | apply preserves_bind; [apply _ | | intros ?]
    | match goal with |- preserves _ (if ?c then _ else _) => destruct c end ].
Qed.

Lemma same_seating__deal_cards fuel : preserves same_seating (Game._deal_cards fuel).
Proof.
  unfold Game._deal_cards.
  apply preserves_bind; [apply _ | by apply same_seating_unchanged | intros g].
  apply preserves_bind; [apply _ | by apply same_seating_unchanged | intros d].
  apply preserves_for_each; [apply _|]. intros p. apply same_seating__deal_cards_to_player.
Qed.

Lemma same_seating__draw_black_card fuel :
  preserves same_seating (Game._draw_black_card fuel).
Proof.
  unfold Game._draw_black_card.
  apply preserves_bind; [apply _ | apply same_seating_on_deque; by intros | intros v].
  apply preserves_bind; [apply _ | | intros c].
  { apply same_seating_unchanged. intros s. by destruct v as [|[|]]. }
  apply preserves_bind; [apply _ | by apply same_seating_unchanged | intros d].
  apply preserves_bind; [apply _ | | intros c'].
  { apply same_seating_unchanged. intros s. by rewrite orm_get_run. }
  apply preserves_mret. apply _.
Qed.

(** What a [_start_new_round] that returns has done. *)
Lemma _start_new_round_returns
    (fuel : nat) (now : Z) (g g' : Game.t) (d d' : Db.t) :
  Game._start_new_round fuel now (g, d) = ((g', d'), Ret tt) ->
  exists q czar rest r,
    Game.player_queue g = Some q /\ Queue.items q = czar :: rest /\
    Game.player_queue g' = Some (Queue.mk (rest ++ [czar])) /\
    (exists p, p ∈ Game.player_set g d /\ Player.id p = czar) /\
    Game.status g ≠ Game.FINISHED /\ Game.status g' = Game.STARTED /\
    Game.current_round g' = Some r /\
    Round.id r = Db.next_round_id d /\ Db.next_round_id d' = Db.next_round_id d + 1 /\
    Round.game r = Game.id g /\ Round.card_czar r = czar /\
    Round.play_finish r = now + seconds Game.PLAY_PHASE_LENGTH_SECONDS /\
    Round.pick_finish r = Round.play_finish r + seconds Game.PICK_PHASE_LENGTH_SECONDS /\
    Round.round_finish r = Round.pick_finish r + seconds Game.FINISH_DELAY_SECONDS /\
    Round.get_state now None r = Round.PLAY.
Proof.
  unfold Game._start_new_round.
  rewrite bind_run, self_run. cbn [fst snd].
  destruct (decide (Game.status g = Game.FINISHED)) as [|Hnf]; [done|].
  set (g1 := if decide (Game.status g = Game.CREATED)
             then Game.set_status Game.STARTED g else g).
  assert (Hs1 : (if decide (Game.status g = Game.CREATED)
                 then Game.modify_self (Game.set_status Game.STARTED)
                 else mret tt) (g, d) = ((g1, d), Ret tt)).
  { unfold g1. by case_decide. }
  assert (Hg1 : Game.status g1 = Game.STARTED /\ Game.player_queue g1 = Game.player_queue g
                /\ Game.id g1 = Game.id g).
  { unfold g1. case_decide as Hc; [done|]. split; [|done].
    destruct (Game.status g); done. }
  destruct Hg1 as (Hst1 & Hq1 & Hid1).
  rewrite bind_run, Hs1.
  rewrite bind_run. unfold Game.on_player_queue at 1.
  destruct (Game.player_queue g) as [q|] eqn:Eq.
  2:{ unfold Game.on_field. rewrite bind_run, self_run. cbn [fst snd]. by rewrite Hq1. }
  rewrite (on_field_run Game.player_queue Game.set_player_queue _ g1 d q) by done.
  destruct (Queue.items q) as [|czar rest] eqn:Ei.
  { unfold Queue.pop_item. rewrite bind_run. cbn [get]. rewrite Ei. done. }
  assert (Hpop : Queue.pop_item q = (Queue.mk rest, Ret (Some czar))).
  { unfold Queue.pop_item. rewrite bind_run. cbn [get]. by rewrite Ei. }
  rewrite Hpop. cbn [fst snd].
  set (g2 := Game.set_player_queue (Some (Queue.mk rest)) g1).
  rewrite bind_run, self_run. cbn [fst snd]. rewrite bind_run, db_run. cbn [fst snd].
  rewrite bind_run, orm_get_run.
  destruct (filter (fun p => Player.id p = czar) (Game.player_set g2 d))
    as [|card_czar [|? ?]] eqn:Ec; [done| |done].
  rewrite bind_run. unfold Game.on_player_queue.
  rewrite (on_field_run Game.player_queue Game.set_player_queue _ g2 d (Queue.mk rest))
    by done.
  change (Queue.add_item czar (Queue.mk rest))
    with (Queue.mk (rest ++ [czar]), Ret tt : Res unit).
  cbn [fst snd].
  set (g3 := Game.set_player_queue (Some (Queue.mk (rest ++ [czar]))) g2).
  rewrite bind_run.
  destruct (Game._draw_black_card fuel (g3, d)) as [[g4 d4] [black|e|]] eqn:Eb; [|done|done].
  apply same_seating__draw_black_card in Eb.
  destruct Eb as (Hid4 & Hst4 & Hh4 & Hr4 & Hq4 & Hn4). cbn [fst snd] in *.
  rewrite bind_run, self_run. cbn [fst snd]. rewrite bind_run, db_run. cbn [fst snd].
  rewrite bind_run, modify_db_run. cbn [fst snd].
  rewrite bind_run, modify_self_run. cbn [fst snd].
  intros Hdeal. apply same_seating__deal_cards in Hdeal.
  destruct Hdeal as (Hid5 & Hst5 & Hh5 & Hr5 & Hq5 & Hn5). cbn [fst snd] in *.
  assert (Hczar : card_czar ∈ Game.player_set g d /\ Player.id card_czar = czar).
  { assert (Hin : card_czar ∈ filter (fun p => Player.id p = czar) (Game.player_set g2 d))
      by (rewrite Ec; left).
    apply list_elem_of_filter in Hin as [? Hin]. split; [|done].
    revert Hin. unfold Game.player_set. by rewrite <- Hid1. }
  destruct Hczar as [Hc1 Hc2].
  eexists q, czar, rest, _. split_and!.
  - done.
  - done.
  - rewrite Hq5. cbn. by rewrite Hq4.
  - by exists card_czar.
  - done.
  - rewrite Hst5. cbn. rewrite Hst4. exact Hst1.
  - rewrite Hr5. reflexivity.
  - cbn. by rewrite Hn4.
  - rewrite Hn5. cbn. by rewrite Hn4.
  - cbn. rewrite Hid4. exact Hid1.
  - done.
  - done.
  - done.
  - done.
  - unfold Round.get_state. cbn. rewrite decide_True; [done|].
    unfold seconds, Game.PLAY_PHASE_LENGTH_SECONDS. lia.
Qed.

(** X26.  A [_start_new_round] that returns has rotated the queue (its
    head, a seated player, is the czar and now stands at the tail), left
    the game STARTED, and made a round with the next round id, whose three
    timestamps are [now] plus the play phase, then plus the pick phase,
    then plus the finish delay, so that the round is in PLAY at [now]. *)
Theorem _start_new_round_effects
    (fuel : nat) (now : Z) (g g' : Game.t) (d d' : Db.t) :
  Game._start_new_round fuel now (g, d) = ((g', d'), Ret tt) ->
  exists q czar rest r,
    Game.player_queue g = Some q /\ Queue.items q = czar :: rest /\
    Game.player_queue g' = Some (Queue.mk (rest ++ [czar])) /\
    (exists p, p ∈ Game.player_set g d /\ Player.id p = czar) /\
    Game.status g ≠ Game.FINISHED /\ Game.status g' = Game.STARTED /\
    Game.current_round g' = Some r /\
    Round.id r = Db.next_round_id d /\ Db.next_round_id d' = Db.next_round_id d + 1 /\
    Round.game r = Game.id g /\ Round.card_czar r = czar /\
    Round.play_finish r = now + seconds Game.PLAY_PHASE_LENGTH_SECONDS /\
    Round.pick_finish r = Round.play_finish r + seconds Game.PICK_PHASE_LENGTH_SECONDS /\
    Round.round_finish r = Round.pick_finish r + seconds Game.FINISH_DELAY_SECONDS /\
    Round.get_state now None r = Round.PLAY.
Proof. apply _start_new_round_returns. Qed.

Lemma _start_new_round_effects_witness :
  let g := ex_game (ex_round 10 20 21) in
  let d := Db.mk [ex_player 1 "a" 0; ex_player 2 "b" 0; ex_player 3 "c" 0; ex_player 4 "d" 0]
                 [] ex_cards 2 [] in
  let out := Game._start_new_round 2 (seconds 30) (g, d) in
  exists q czar rest r,
    Game.player_queue g = Some q /\ Queue.items q = czar :: rest /\
    Game.player_queue out.1.1 = Some (Queue.mk (rest ++ [czar])) /\
    (exists p, p ∈ Game.player_set g d /\ Player.id p = czar) /\
    Game.status g ≠ Game.FINISHED /\ Game.status out.1.1 = Game.STARTED /\
    Game.current_round out.1.1 = Some r /\
    Round.id r = Db.next_round_id d /\ Db.next_round_id out.1.2 = Db.next_round_id d + 1 /\
    Round.game r = Game.id g /\ Round.card_czar r = czar /\
    Round.play_finish r = seconds 30 + seconds Game.PLAY_PHASE_LENGTH_SECONDS /\
    Round.pick_finish r = Round.play_finish r + seconds Game.PICK_PHASE_LENGTH_SECONDS /\
    Round.round_finish r = Round.pick_finish r + seconds Game.FINISH_DELAY_SECONDS /\
    Round.get_state (seconds 30) None r = Round.PLAY.
Proof.
  intros g d out.
  apply (_start_new_round_effects 2 (seconds 30) g out.1.1 d out.1.2).
  vm_compute. reflexivity.
Defined.

(** ** Game: the host starts a round *)

(** X27.  When no finished round is waiting and [start_by] returns, the
    caller is the host, at least three players are seated and the game was
    not FINISHED; the game is then STARTED with a new round in PLAY, whose
    id is the next round id and whose czar is the head of the queue, now at
    its tail.  Nothing asks that the game was still waiting: on a running
    game the round in progress is replaced. *)
Theorem start_by_starts_round
    (fuel : nat) (now player : Z) (g g' : Game.t) (d d' : Db.t) :
  ~ round_due now g ->
  Game.start_by fuel now player (g, d) = ((g', d'), Ret tt) ->
  Game.host g = Some player /\
  Game.MIN_PLAYERS <= len (Game.player_set g d) /\
  Game.status g ≠ Game.FINISHED /\ Game.status g' = Game.STARTED /\
  exists r czar rest,
    Game.current_round g' = Some r /\
    Round.id r = Db.next_round_id d /\ Round.card_czar r = czar /\
    Queue.items (default Queue.create (Game.player_queue g)) = czar :: rest /\
    Game.player_queue g' = Some (Queue.mk (rest ++ [czar])) /\
    Round.get_state now None r = Round.PLAY.
Proof.
  intros Hdue.
  destruct (_update_state_no_round_due fuel now g d Hdue)
    as (g1 & rng' & E & Hid & Hst & Hh & Hr & Hq & _).
  unfold Game.start_by. rewrite bind_run, E.
  rewrite bind_run, self_run. cbn [fst snd]. rewrite bind_run, db_run. cbn [fst snd].
  destruct (decide (Game.status g1 = Game.FINISHED)) as [|Hnf]; [done|].
  destruct (decide (Game.host g1 ≠ Some player)) as [|Hhost]; [done|].
  destruct (decide (len (Game.player_set g1 (Db.set_rng rng' d)) < Game.MIN_PLAYERS))
    as [|Hmin]; [done|].
  intros Hrun. apply _start_new_round_returns in Hrun.
  destruct Hrun as (q & czar & rest & r & Hq1 & Hi & Hq' & _ & _ & Hst' & Hr' & Hrid & _
                    & _ & Hcz & _ & _ & _ & Hplay).
  rewrite (player_set_after g g1 d) in Hmin by done.
  split_and!.
  - rewrite <- Hh. by destruct (decide (Game.host g1 = Some player)); [|exfalso; auto].
  - lia.
  - congruence.
  - done.
  - exists r, czar, rest. split_and!; try done.
    rewrite Hq in Hq1. injection Hq1 as <-. done.
Qed.

Lemma start_by_starts_round_witness :
  let g := ex_game (ex_round 300 600 601) in
  let d := Db.mk [ex_player 1 "a" 0; ex_player 2 "b" 0; ex_player 3 "c" 0; ex_player 4 "d" 0]
                 [Turn.mk 1 2 (Some 121)] ex_cards 2 [] in
  let out := Game.start_by 2 (seconds 30) 1 (g, d) in
  Game.host g = Some 1 /\
  Game.MIN_PLAYERS <= len (Game.player_set g d) /\
  Game.status g ≠ Game.FINISHED /\ Game.status out.1.1 = Game.STARTED /\
  exists r czar rest,
    Game.current_round out.1.1 = Some r /\
    Round.id r = Db.next_round_id d /\ Round.card_czar r = czar /\
    Queue.items (default Queue.create (Game.player_queue g)) = czar :: rest /\
    Game.player_queue out.1.1 = Some (Queue.mk (rest ++ [czar])) /\
    Round.get_state (seconds 30) None r = Round.PLAY.
Proof.
  intros g d out.
  apply (start_by_starts_round 2 (seconds 30) 1 g out.1.1 d out.1.2).
  - intros [_ (r & [= <-] & Hr)]. vm_compute in Hr. discriminate.
  - vm_compute. reflexivity.
Defined.

(** ** Game: dealing *)

(** Saving a row leaves the rows of the other players alone. *)
Lemma save_player_others (pid : Z) (p' : Player.t) (d : Db.t) :
  Player.id p' ≠ pid ->
  filter (fun q => Player.id q = pid) (Db.players (Db.save_player p' d))
  = filter (fun q => Player.id q = pid) (Db.players d).
Proof.
  intros Hne. unfold Db.save_player. cbn [Db.set_players Db.players].
  induction (Db.players d) as [|a l IH]; [done|]. cbn [map].
  destruct (decide (Player.id a = Player.id p')) as [Ha|Ha].
  - rewrite !filter_cons_False by congruence. exact IH.
  - destruct (decide (Player.id a = pid)).
    + rewrite !filter_cons_True by done. by rewrite IH.
    + rewrite !filter_cons_False by done. exact IH.
Qed.

(** What a [_deal_cards_to_player] that returns has done. *)
Lemma _deal_cards_to_player_returns
    (fuel : nat) (player : Z) (g g' : Game.t) (d d' : Db.t) (p : Player.t) :
  filter (fun q => Player.id q = player) (Db.players d) = [p] ->
  Game._deal_cards_to_player fuel player (g, d) = ((g', d'), Ret tt) ->
  exists p' hand',
    filter (fun q => Player.id q = player) (Db.players d') = [p'] /\
    Player.current_hand p' = Some hand' /\
    default ∅ (Player.current_hand p) ⊆ hand' /\
    (forall c, c ∈ hand' ->
       c ∈ default ∅ (Player.current_hand p) \/ c ∈ map Card.id (Db.card_table d)) /\
    Player.current_game p' = Player.current_game p /\
    Player.score p' = Player.score p /\
    (forall other, other ≠ player ->
       filter (fun q => Player.id q = other) (Db.players d')
       = filter (fun q => Player.id q = other) (Db.players d)) /\
    (Z.of_nat (base.size (default ∅ (Player.current_hand p))) = Game.HAND_SIZE ->
     g' = g /\ d' = d).
Proof.
  intros Hp. unfold Game._deal_cards_to_player.
  assert (Hidp : Player.id p = player).
  { assert (Hin : p ∈ filter (fun q => Player.id q = player) (Db.players d))
      by (rewrite Hp; left).
    by apply list_elem_of_filter in Hin as [? _]. }
  rewrite bind_run, load_player_run, orm_get_run. cbn [fst snd]. rewrite Hp.
  set (p1 := if decide (Player.current_hand p = None)
             then Player.set_current_hand (Some ∅) p else p).
  set (d1 := if decide (Player.current_hand p = None)
             then Db.save_player (Player.set_current_hand (Some ∅) p) d else d).
  assert (Hs1 : (if decide (Player.current_hand p = None)
                 then Game.modify_db (Db.save_player (Player.set_current_hand (Some ∅) p))
                 else mret tt) (g, d) = ((g, d1), Ret tt)).
  { unfold d1. by case_decide. }
  assert (Hp1 : filter (fun q => Player.id q = player) (Db.players d1) = [p1]).
  { unfold d1, p1. case_decide; [|done]. by apply (load_saved_player player p). }
  assert (Hh1 : Player.current_hand p1 = Some (default ∅ (Player.current_hand p))
                /\ Player.current_game p1 = Player.current_game p
                /\ Player.score p1 = Player.score p /\ Player.id p1 = player).
  { unfold p1. case_decide as Hn.
    - rewrite Hn. by destruct p.
    - by destruct (Player.current_hand p). }
  destruct Hh1 as (Hh1 & Hg1 & Hsc1 & Hid1).
  assert (Ho1 : forall other, other ≠ player ->
            filter (fun q => Player.id q = other) (Db.players d1)
            = filter (fun q => Player.id q = other) (Db.players d)).
  { intros other Hne. unfold d1. case_decide; [|done].
    apply save_player_others. destruct p; simpl in *. congruence. }
  assert (Hct1 : Db.card_table d1 = Db.card_table d).
  { unfold d1. case_decide; [|done]. by destruct d. }
  assert (Hfull1 : Z.of_nat (base.size (default ∅ (Player.current_hand p))) = Game.HAND_SIZE
                   -> d1 = d).
  { intros Hfull. unfold d1. case_decide as Hn; [|done].
    rewrite Hn in Hfull. cbn [default] in Hfull. rewrite size_empty in Hfull.
    cbv in Hfull. discriminate. }
  rewrite bind_run, Hs1.
  rewrite bind_run, load_player_run, orm_get_run. cbn [fst snd]. rewrite Hp1.
  set (hand := default ∅ (Player.current_hand p)) in *.
  rewrite Hh1. change (default ∅ (Some hand)) with hand.
  destruct (decide (Game.HAND_SIZE - Z.of_nat (base.size hand) = 0)) as [Hz|Hz].
  - intros [= <- <-]. exists p1, hand. split_and!; try done.
    intros c Hc. by left.
    intros Hfull. split; [done|]. by apply Hfull1.
  - rewrite bind_run.
    destruct (Game.on_deque Game.white_deque Game.set_white_deque
                (Deque.draw_cards fuel (Game.HAND_SIZE - Z.of_nat (base.size hand)))
                (g, d1)) as [[g2 d2] [new|e|]] eqn:Ed; [|done|done].
    assert (Hd2 : Db.players d2 = Db.players d1 /\ Db.card_table d2 = Db.card_table d1).
    { unfold Game.on_deque in Ed. rewrite bind_run, self_run in Ed. cbn [fst snd] in Ed.
      destruct (Game.white_deque g) as [wd|]; [|done].
      unfold zoom in Ed. cbn [fst snd] in Ed.
      destruct (Deque.draw_cards _ _ _) as [[? ?] ?].
      injection Ed as _ <- _. by destruct d1. }
    destruct Hd2 as [Hpl2 Hct2].
    rewrite bind_run, db_run. cbn [fst snd]. rewrite modify_db_run. cbn [fst snd].
    intros [= <- <-].
    eexists _, _. split_and!.
    + apply (load_saved_player player p1); [by rewrite Hpl2|]. by destruct p1.
    + by destruct p1.
    + set_solver.
    + intros c Hc. apply elem_of_union in Hc as [Hc|Hc]; [by left|right].
      apply elem_of_list_to_set in Hc. apply list_elem_of_filter in Hc as [_ Hc].
      by rewrite Hct2, Hct1 in Hc.
    + by destruct p1.
    + by destruct p1.
    + intros other Hne. rewrite save_player_others.
      * rewrite Hpl2. by apply Ho1.
      * destruct p1; simpl in *. congruence.
    + intros Hfull. lia.
Qed.

(** X28.  A [_deal_cards_to_player] that returns has only added to the
    hand of that player: the old hand is part of the new one, every new
    card is a card of the card table, the player's game and score and the
    rows of the other players are as before.  With a full hand nothing is
    drawn: game and database are unchanged. *)
Theorem _deal_cards_to_player_only_adds
    (fuel : nat) (player : Z) (g g' : Game.t) (d d' : Db.t) (p : Player.t) :
  filter (fun q => Player.id q = player) (Db.players d) = [p] ->
  Game._deal_cards_to_player fuel player (g, d) = ((g', d'), Ret tt) ->
  exists p' hand',
    filter (fun q => Player.id q = player) (Db.players d') = [p'] /\
    Player.current_hand p' = Some hand' /\
    default ∅ (Player.current_hand p) ⊆ hand' /\
    (forall c, c ∈ hand' ->
       c ∈ default ∅ (Player.current_hand p) \/ c ∈ map Card.id (Db.card_table d)) /\
    Player.current_game p' = Player.current_game p /\
    Player.score p' = Player.score p /\
    (forall other, other ≠ player ->
       filter (fun q => Player.id q = other) (Db.players d')
       = filter (fun q => Player.id q = other) (Db.players d)) /\
    (Z.of_nat (base.size (default ∅ (Player.current_hand p))) = Game.HAND_SIZE ->
     g' = g /\ d' = d).
Proof. apply _deal_cards_to_player_returns. Qed.

Lemma _deal_cards_to_player_only_adds_witness :
  let g := ex_game (ex_round 300 600 601) in
  let p := Player.mk 2 "b" (Some 1) (Some (list_to_set (seqZ 120 8))) (Some 0) in
  let d := Db.mk [ex_player 1 "a" 0; p] [] ex_cards 2 [] in
  let out := Game._deal_cards_to_player 2 2 (g, d) in
  exists p' hand',
    filter (fun q => Player.id q = 2) (Db.players out.1.2) = [p'] /\
    Player.current_hand p' = Some hand' /\
    default ∅ (Player.current_hand p) ⊆ hand' /\
    (forall c, c ∈ hand' ->
       c ∈ default ∅ (Player.current_hand p) \/ c ∈ map Card.id (Db.card_table d)) /\
    Player.current_game p' = Player.current_game p /\
    Player.score p' = Player.score p /\
    (forall other, other ≠ 2 ->
       filter (fun q => Player.id q = other) (Db.players out.1.2)
       = filter (fun q => Player.id q = other) (Db.players d)) /\
    (Z.of_nat (base.size (default ∅ (Player.current_hand p))) = Game.HAND_SIZE ->
     out.1.1 = g /\ out.1.2 = d).
Proof.
  intros g p d out.
  apply (_deal_cards_to_player_only_adds 2 2 g out.1.1 d out.1.2 p).
  - vm_compute. reflexivity.
  - vm_compute. reflexivity.
Defined.

(** ** Player: joining a game that does not exist *)

#[local] Instance same_id_preorder : PreOrder same_id.
Proof. split; [done|]. intros x y z H1 H2. unfold same_id in *. congruence. Qed.

Lemma same_id_unchanged {A} (m : M Game.St A) :
  (forall s, (m s).1 = s) -> preserves same_id m.
Proof. intros H s s' r E. specialize (H s). rewrite E in H. simpl in H. by subst s'. Qed.

Lemma same_id_modify_self f :
  (forall g, Game.id (f g) = Game.id g) -> preserves same_id (Game.modify_self f).
Proof. intros Hf s s' r [= <- _]. apply Hf. Qed.

Lemma same_id_modify_db f : preserves same_id (Game.modify_db f).
Proof. by intros s s' r [= <- _]. Qed.

Lemma same_id_on_field {T A} field set_field (m : M T A) :
  (forall x g, Game.id (set_field x g) = Game.id g) ->
  preserves same_id (Game.on_field field set_field m).
Proof.
  intros Hset. unfold Game.on_field.
  apply preserves_bind; [apply _ | by apply same_id_unchanged |].
  intros g. destruct (field g); [|apply preserves_raise; apply _].
  apply preserves_zoom. intros s. apply Hset.
Qed.

Lemma same_id_on_deque {A} field set_field (m : M Deque.St A) :
  (forall x g, Game.id (set_field x g) = Game.id g) ->
  preserves same_id (Game.on_deque field set_field m).
Proof.
  intros Hset. unfold Game.on_deque.
  apply preserves_bind; [apply _ | by apply same_id_unchanged |].
  intros g. destruct (field g); [|apply preserves_raise; apply _].
  apply preserves_zoom. intros s. apply Hset.
Qed.

Lemma same_id_on_turns {A} (m : M (list Turn.t) A) : preserves same_id (Game.on_turns m).
Proof. unfold Game.on_turns. by apply preserves_zoom. Qed.

Ltac id_step :=
  lazymatch goal with
  | |- preserves _ (_ ≫= _) => apply preserves_bind; [apply _ | | intros ?]
  | |- preserves _ (mret _) => apply preserves_mret; apply _
  | |- preserves _ (raise _) => apply preserves_raise; apply _
  | |- preserves _ overflow => apply preserves_overflow; apply _
  | |- preserves _ (orm_get _) => apply preserves_orm_get; apply _
  | |- preserves _ (for_each _ _) => apply preserves_for_each; [apply _ | intros ?]
  | |- preserves _ Game.self => by apply same_id_unchanged
  | |- preserves _ Game.db => by apply same_id_unchanged
  | |- preserves _ (Game.modify_self _) => apply same_id_modify_self; by intros
  | |- preserves _ (Game.modify_db _) => apply same_id_modify_db
  | |- preserves _ (Game.on_player_queue _) => apply same_id_on_field; by intros
  | |- preserves _ (Game.on_deque _ _ _) => apply same_id_on_deque; by intros
  | |- preserves _ (Game.on_turns _) => apply same_id_on_turns
  | |- preserves _ (Game.load_player _) =>
      apply same_id_unchanged; intros ?; by rewrite load_player_run, orm_get_run
  | |- preserves _ (if ?c then _ else _) => destruct c
  | |- preserves _ (match ?x with _ => _ end) => destruct x
  end.

Lemma same_id__deal_cards fuel : preserves same_id (Game._deal_cards fuel).
Proof.
  unfold Game._deal_cards. repeat id_step.
  unfold Game._deal_cards_to_player. repeat id_step.
Qed.

Lemma same_id__start_new_round fuel now :
  preserves same_id (Game._start_new_round fuel now).
Proof.
  unfold Game._start_new_round. repeat id_step; try apply same_id__deal_cards.
  all: unfold Game._draw_black_card; repeat id_step; unfold subscript0; repeat id_step.
Qed.

Lemma same_id__update_state fuel now : preserves same_id (Game._update_state fuel now).
Proof.
  unfold Game._update_state. repeat id_step; try apply same_id__start_new_round.
  all: unfold Game._get_winner; repeat id_step.
Qed.

Lemma same_id_remove_player fuel now player :
  preserves same_id (Game.remove_player fuel now player).
Proof.
  unfold Game.remove_player.
  repeat id_step;
    first [ apply same_id__update_state | apply same_id__start_new_round
          | unfold Game._repick_host; repeat id_step ].
Qed.

(** [leave_current_game] does not create a game: an id that was free is
    still free when it returns, given that every game is stored under its
    own id. *)
Lemma leave_current_game_keeps_free (fuel : nat) (now game_id : Z) (p : Player.t)
    (w w' : World.t) (r : Res unit) :
  World.games w !! game_id = None ->
  (forall k game, World.games w !! k = Some game -> Game.id game = k) ->
  PlayerOps.leave_current_game fuel now p w = (w', r) ->
  World.games w' !! game_id = None.
Proof.
  intros Hfree Hkeys. unfold PlayerOps.leave_current_game.
  destruct (Player.current_game p) as [gid|]; [|by intros [= <- _]].
  rewrite bind_run. unfold PlayerOps.load_game at 1. rewrite bind_run. cbn [get fst snd].
  destruct (World.games w !! gid) as [game|] eqn:Eg; [|by intros [= <- _]].
  change ((mret game : M World.t Game.t) w) with (w, Ret game : Res Game.t). cbv beta iota. rewrite bind_run. unfold PlayerOps.call at 1.
  destruct (Game.remove_player fuel now (Player.id p) (game, World.db w))
    as [[game' d'] [[]|e|]] eqn:Er; cbn [fst snd]; [|by intros [= <- _]..].
  apply same_id_remove_player in Er. unfold same_id in Er. cbn [fst snd] in Er.
  unfold PlayerOps.save_game. rewrite bind_run. cbn [get fst snd put].
  intros [= <- _]. cbn [World.games].
  rewrite lookup_insert_ne; [done|].
  rewrite Er, (Hkeys _ _ Eg). intros ->. by rewrite Hfree in Eg.
Qed.

(** X29.  Joining a game that does not exist never succeeds, and costs the
    player nothing: the call ends in an exception, and the games and the
    tables are as before it, so the player still sits in the game they
    were in.  This holds for an id given as an int or as a str, whatever
    the str converts to.  Every game is taken to be stored under its own
    id, and the player's game, if any, to exist. *)
Theorem join_game_missing_game
    (int_of_str : string -> option Z) (fuel : nat) (now : Z) (game_id : PyId)
    (auth_token : string) (p : Player.t) (w : World.t) :
  filter (fun q => Player.auth_token q = auth_token) (Db.players (World.db w)) = [p] ->
  (forall k, PlayerOps.to_pk int_of_str game_id = Some k -> World.games w !! k = None) ->
  (forall k game, World.games w !! k = Some game -> Game.id game = k) ->
  (forall k, Player.current_game p = Some k -> is_Some (World.games w !! k)) ->
  exists w' r,
    PlayerOps.join_game int_of_str fuel now auth_token game_id w = (w', r) /\
    r ≠ Ret tt /\ same_world w w' /\
    filter (fun q => Player.auth_token q = auth_token) (Db.players (World.db w')) = [p].
Proof.
  intros Hp Hfree Hkeys Hfk.
  assert (Hne : match Player.current_game p with
                | Some current_game_id => int_eq current_game_id game_id
                | None => false
                end = false).
  { destruct (Player.current_game p) as [k|] eqn:Ek; [|done].
    destruct game_id as [n|s]; [|done]. cbn [int_eq].
    apply bool_decide_eq_false. intros ->.
    destruct (Hfk n eq_refl) as [? Hc]. by rewrite (Hfree n) in Hc. }
  unfold PlayerOps.join_game, PlayerOps.atomic.
  rewrite bind_run. unfold PlayerOps.get_player_by_token at 1.
  rewrite bind_run. cbn [get fst snd]. rewrite orm_get_run, Hp. cbn [fst snd].
  rewrite Hne.
  rewrite bind_run.
  destruct (PlayerOps.leave_current_game fuel now p w) as [w1 r1] eqn:El.
  assert (Hrb : forall (w2 : World.t) (r : Res unit), r ≠ Ret tt ->
    exists w' r',
      (World.mk (Db.set_rng (Db.rng (World.db w2)) (World.db w)) (World.games w), r)
        = (w', r') /\ r' ≠ Ret tt /\ same_world w w' /\
      filter (fun q => Player.auth_token q = auth_token) (Db.players (World.db w')) = [p]).
  { intros w2 r Hr. eexists _, _. split; [reflexivity|]. split; [done|].
    split; [split; [done|]|].
    - cbn. by destruct (World.db w).
    - cbn. destruct (World.db w); exact Hp. }
  destruct r1 as [[]|e|]; cbn [fst snd].
  - rewrite bind_run. unfold PlayerOps.get_game_by_pk at 1.
    destruct (PlayerOps.to_pk int_of_str game_id) as [k|] eqn:Ek.
    + pose proof (leave_current_game_keeps_free _ _ _ _ _ _ _ (Hfree k eq_refl) Hkeys El)
        as Hfree1.
      unfold PlayerOps.load_game at 1. rewrite bind_run.
      cbn [get fst snd]. rewrite Hfree1. cbn [raise fst snd]. by apply Hrb.
    + cbn [raise fst snd]. by apply Hrb.
  - by apply Hrb.
  - by apply Hrb.
Qed.

Lemma join_game_missing_game_witness :
  let g := ex_game (ex_round 300 600 601) in
  let p := ex_player 2 "b" 0 in
  let d := Db.mk [ex_player 1 "a" 0; p; ex_player 3 "c" 0; ex_player 4 "d" 0]
                 [] ex_cards 2 [] in
  let w := World.mk d {[ 1 := g ]} in
  exists w' r,
    PlayerOps.join_game decimal 5 (seconds 30) "b" (IdStr "7") w = (w', r) /\
    r ≠ Ret tt /\ same_world w w' /\
    filter (fun q => Player.auth_token q = "b") (Db.players (World.db w')) = [p].
Proof.
  intros g p d w.
  apply (join_game_missing_game decimal 5 (seconds 30) (IdStr "7") "b" p w).
  - vm_compute. reflexivity.
  - intros k [= <-]. reflexivity.
  - intros k game Hk. unfold w in Hk. cbn [World.games] in Hk.
    apply lookup_singleton_Some in Hk as [<- <-]. reflexivity.
  - intros k [= <-]. exists g. unfold w. cbn [World.games]. apply lookup_insert_eq.
Defined.

(** ** Player: the last player leaves *)

(** X30.  When the only seated player of a game calls [leave_game], the
    call returns: the player's row has no game, no hand and no score, and
    the game is stored FINISHED, without host and without current round,
    under its id.  The game is taken to be settled and stored under its
    own id, and the player's id to be unique. *)
Theorem leave_game_last_player
    (fuel : nat) (now gid : Z) (auth_token : string) (p : Player.t) (w : World.t)
    (g : Game.t) (q : Queue.t) :
  filter (fun x => Player.auth_token x = auth_token) (Db.players (World.db w)) = [p] ->
  filter (fun x => Player.id x = Player.id p) (Db.players (World.db w)) = [p] ->
  Player.current_game p = Some gid ->
  World.games w !! gid = Some g ->
  Game.id g = gid ->
  settled now g ->
  Game.player_queue g = Some q ->
  (forall x, x ∈ Game.player_set g (World.db w) -> Player.id x = Player.id p) ->
  exists g',
    PlayerOps.leave_game fuel now auth_token w
      = (World.mk (Db.save_player (left_row p) (World.db w)) (<[gid := g']> (World.games w)),
         Ret tt) /\
    Game.status g' = Game.FINISHED /\ Game.host g' = None /\
    Game.current_round g' = None.
Proof.
  intros Htok Hp Hcur Hg Hid Hs Hq Honly.
  destruct (remove_player_last_run fuel now (Player.id p) g (World.db w) p q Hs Hq Hp Honly)
    as (g' & Hrun & Hst & Hh & Hr & _).
  pose proof (same_id_remove_player _ _ _ _ _ _ Hrun) as Hid'.
  unfold same_id in Hid'. cbn [fst snd] in Hid'.
  exists g'. split; [|done].
  unfold PlayerOps.leave_game, PlayerOps.atomic.
  rewrite bind_run. unfold PlayerOps.get_player_by_token at 1.
  rewrite bind_run. cbn [get fst snd]. rewrite orm_get_run, Htok. cbn [fst snd].
  rewrite decide_False by congruence.
  unfold PlayerOps.leave_current_game. rewrite Hcur.
  rewrite bind_run. unfold PlayerOps.load_game at 1. rewrite bind_run. cbn [get fst snd].
  rewrite Hg. change ((mret g : M World.t Game.t) w) with (w, Ret g : Res Game.t).
  cbv beta iota. rewrite bind_run. unfold PlayerOps.call at 1. rewrite Hrun.
  cbn [fst snd]. unfold PlayerOps.save_game. rewrite bind_run. cbn [get fst snd put].
  cbn [World.db World.games]. by rewrite Hid', Hid.
Qed.

Lemma leave_game_last_player_witness :
  let p := ex_player 1 "a" 2 in
  let g := ex_game (ex_round 300 600 601) in
  let d := Db.mk [p; Player.mk 2 "b" None None None] [] ex_cards 2 [] in
  let w := World.mk d {[ 1 := g ]} in
  exists g',
    PlayerOps.leave_game 1 (seconds 30) "a" w
      = (World.mk (Db.save_player (left_row p) (World.db w)) (<[1 := g']> (World.games w)),
         Ret tt) /\
    Game.status g' = Game.FINISHED /\ Game.host g' = None /\
    Game.current_round g' = None.
Proof.
  intros p g d w.
  apply (leave_game_last_player 1 (seconds 30) 1 "a" p w g (Queue.mk [2; 3; 4; 1])).
  - vm_compute. reflexivity.
  - vm_compute. reflexivity.
  - reflexivity.
  - unfold w. cbn [World.games]. apply lookup_insert_eq.
  - reflexivity.
  - split; [|done]. intros [_ (r & Hr & Hf)]. injection Hr as <-. vm_compute in Hf.
    discriminate.
  - reflexivity.
  - intros x Hx. change (Game.player_set g (World.db w)) with [p] in Hx.
    apply list_elem_of_singleton in Hx. by subst x.
Defined.

(** ** Player: joining the game one is in *)

(** The only seated player of a settled game leaves it. *)
Lemma leave_current_game_last_run
    (fuel : nat) (now gid : Z) (p : Player.t) (w : World.t) (g : Game.t) (q : Queue.t) :
  filter (fun x => Player.id x = Player.id p) (Db.players (World.db w)) = [p] ->
  Player.current_game p = Some gid ->
  World.games w !! gid = Some g ->
  Game.id g = gid ->
  settled now g ->
  Game.player_queue g = Some q ->
  (forall x, x ∈ Game.player_set g (World.db w) -> Player.id x = Player.id p) ->
  exists g',
    PlayerOps.leave_current_game fuel now p w
      = (World.mk (Db.save_player (left_row p) (World.db w)) (<[gid := g']> (World.games w)),
         Ret tt) /\
    Game.status g' = Game.FINISHED.
Proof.
  intros Hp Hcur Hg Hid Hs Hq Honly.
  destruct (remove_player_last_run fuel now (Player.id p) g (World.db w) p q Hs Hq Hp Honly)
    as (g' & Hrun & Hst & _).
  pose proof (same_id_remove_player _ _ _ _ _ _ Hrun) as Hid'.
  unfold same_id in Hid'. cbn [fst snd] in Hid'.
  exists g'. split; [|done].
  unfold PlayerOps.leave_current_game. rewrite Hcur.
  rewrite bind_run. unfold PlayerOps.load_game at 1. rewrite bind_run. cbn [get fst snd].
  rewrite Hg. change ((mret g : M World.t Game.t) w) with (w, Ret g : Res Game.t).
  cbv beta iota. rewrite bind_run. unfold PlayerOps.call at 1. rewrite Hrun.
  cbn [fst snd]. unfold PlayerOps.save_game. rewrite bind_run. cbn [get fst snd put].
  cbn [World.db World.games]. by rewrite Hid', Hid.
Qed.

(** [add_player] on a FINISHED game. *)
Lemma add_player_finished (fuel : nat) (now player : Z) (g : Game.t) (d : Db.t) :
  Game.status g = Game.FINISHED ->
  exists g' d', Game.add_player fuel now player (g, d) = ((g', d'), Raise GameFinishedError).
Proof.
  intros Hfin.
  destruct (_update_state_no_round_due fuel now g d)
    as (g' & rng' & E & Hid & Hst & _).
  { intros [Hs _]. congruence. }
  exists g', (Db.set_rng rng' d). rewrite Hfin in Hst.
  unfold Game.add_player. rewrite bind_run, E.
  rewrite bind_run, self_run. cbn [fst snd]. rewrite bind_run, db_run. cbn [fst snd].
  by rewrite decide_True.
Qed.

(** C10 (the code departs from the specification).  The own-game test of
    [join_game] compares the id of the player's game, an int, with
    [game_id] as it was handed over.  With the int, as the tests call it,
    the call returns at once and changes nothing.  With the str of the same
    id, as the view calls it, the test is false: the player leaves the
    game and joins it again.  For the only seated player of a settled game
    the leaving finishes the game, the joining raises [GameFinishedError],
    and the transaction is rolled back. *)
Theorem join_game_own_game_by_str_id
    (int_of_str : string -> option Z) (fuel : nat) (now gid : Z) (s : string)
    (auth_token : string) (p : Player.t) (w : World.t) (g : Game.t) (q : Queue.t) :
  filter (fun x => Player.auth_token x = auth_token) (Db.players (World.db w)) = [p] ->
  filter (fun x => Player.id x = Player.id p) (Db.players (World.db w)) = [p] ->
  Player.current_game p = Some gid ->
  int_of_str s = Some gid ->
  World.games w !! gid = Some g ->
  Game.id g = gid ->
  settled now g ->
  Game.player_queue g = Some q ->
  (forall x, x ∈ Game.player_set g (World.db w) -> Player.id x = Player.id p) ->
  PlayerOps.join_game int_of_str fuel now auth_token (IdInt gid) w = (w, Ret tt) /\
  exists w',
    PlayerOps.join_game int_of_str fuel now auth_token (IdStr s) w
      = (w', Raise GameFinishedError) /\
    same_world w w'.
Proof.
  intros Htok Hp Hcur Hint Hg Hid Hs Hq Honly. split.
  - unfold PlayerOps.join_game, PlayerOps.atomic.
    rewrite bind_run. unfold PlayerOps.get_player_by_token at 1.
    rewrite bind_run. cbn [get fst snd]. rewrite orm_get_run, Htok. cbn [fst snd].
    rewrite Hcur. cbn [int_eq]. by rewrite bool_decide_eq_true_2.
  - destruct (leave_current_game_last_run fuel now gid p w g q Hp Hcur Hg Hid Hs Hq Honly)
      as (g1 & Hleave & Hfin).
    destruct (add_player_finished fuel now (Player.id p) g1
                (Db.save_player (left_row p) (World.db w)) Hfin) as (g2 & d2 & Hadd).
    eexists. split.
    + unfold PlayerOps.join_game, PlayerOps.atomic.
      rewrite bind_run. unfold PlayerOps.get_player_by_token at 1.
      rewrite bind_run. cbn [get fst snd]. rewrite orm_get_run, Htok. cbn [fst snd].
      rewrite Hcur. cbn [int_eq].
      rewrite bind_run, Hleave.
      rewrite bind_run. unfold PlayerOps.get_game_by_pk at 1. cbn [PlayerOps.to_pk].
      rewrite Hint. unfold PlayerOps.load_game at 1. rewrite bind_run.
      cbn [get fst snd World.games]. rewrite lookup_insert_eq.
      change ((mret g1 : M World.t Game.t)
                (World.mk (Db.save_player (left_row p) (World.db w))
                          (<[gid := g1]> (World.games w))))
        with (World.mk (Db.save_player (left_row p) (World.db w))
                       (<[gid := g1]> (World.games w)), Ret g1 : Res Game.t).
      cbv beta iota. rewrite bind_run. unfold PlayerOps.call at 1.
      cbn [World.db]. rewrite Hadd. cbn [fst snd]. reflexivity.
    + split; [done|]. cbn [World.db Db.rng]. by destruct (World.db w).
Qed.

Lemma join_game_own_game_by_str_id_witness :
  let alice := Player.mk 1 "a" (Some 7) (Some (ex_hand 101)) (Some 2) in
  let game := Game.mk 7 Game.CREATED (Some 1) None
                (Some (Deque.mk [1; 2; 3] [2; 3; 1] 3))
                (Some (Deque.mk (seqZ 111 12) (seqZ 111 12) 12))
                (Some (Queue.mk [1])) in
  let w := World.mk (Db.mk [alice] [] ex_cards 1 []) {[7 := game]} in
  PlayerOps.join_game decimal 5 0 "a" (IdInt 7) w = (w, Ret tt) /\
  exists w',
    PlayerOps.join_game decimal 5 0 "a" (IdStr "7") w = (w', Raise GameFinishedError) /\
    same_world w w'.
Proof.
  intros alice game w.
  apply (join_game_own_game_by_str_id decimal 5 0 7 "7" "a" alice w game (Queue.mk [1])).
  - vm_compute. reflexivity.
  - vm_compute. reflexivity.
  - reflexivity.
  - reflexivity.
  - unfold w. cbn [World.games]. apply lookup_insert_eq.
  - reflexivity.
  - split; [|done]. intros [Hst _]. discriminate.
  - reflexivity.
  - intros x Hx. change (Game.player_set game (World.db w)) with [alice] in Hx.
    apply list_elem_of_singleton in Hx. by subst x.
Defined.

(** C10 (a second run).  Alice and Bob sit in game 7, which has not
    started; Alice is host and has two points.  Her [join_game] with the
    str "7" returns: she has left and joined again, so that her score is 0,
    Bob is host and she stands behind him in the queue.  With the int 7
    nothing changes. *)
Lemma join_game_own_game_by_str_id_rejoins :
  let alice := Player.mk 1 "a" (Some 7) (Some (ex_hand 101)) (Some 2) in
  let bob := Player.mk 2 "b" (Some 7) (Some (ex_hand 131)) (Some 1) in
  let game := Game.mk 7 Game.CREATED (Some 1) None
                (Some (Deque.mk [1; 2; 3] [2; 3; 1] 3))
                (Some (Deque.mk (seqZ 141 12) (seqZ 141 12) 12))
                (Some (Queue.mk [1; 2])) in
  let w := World.mk (Db.mk [alice; bob] [] ex_cards 1 []) {[7 := game]} in
  let out := PlayerOps.join_game decimal 5 0 "a" (IdStr "7") w in
  PlayerOps.join_game decimal 5 0 "a" (IdInt 7) w = (w, Ret tt) /\
  out.2 = Ret tt /\
  (fun p => (Player.id p, Player.score p)) <$> Db.players (World.db out.1)
    = [(1, Some 0); (2, Some 1)] /\
  (fun g => (Game.host g, Queue.items <$> Game.player_queue g)) <$> World.games out.1 !! 7
    = Some (Some 2, Some [2; 1]).
Proof. vm_compute. repeat split; reflexivity. Qed.
